(** * Geospatial Manifold: the click report, the edge-distance helpers and
      the EV-charger refresh controller of [map.js]

    A shallow embedding of the control flow of [map.js] and the
    properties stated about it.  The embedding follows the refactored
    file (version 2026-02-28.a, with [installClickReport] and
    [createEvChargersLayer]); the earlier layout of the same handlers has
    the same [checkDone], [getDistanceToPolygonEdge] and [identifyMMIAt].

    Conventions.
    - A JavaScript number is an exact rational or one of [NaN],
      [Infinity], [-Infinity]; the rounding of binary64 is not modelled.
    - Values that come from a provider's JSON answer are nullable: a
      member that is [null] or [undefined] is [None], and reading a member
      of it throws a [TypeError], as in the source.
    - Asynchronous code is a resumption tree ([prog]); the event loop
      delivers the provider's answers one callback at a time, in any
      order. *)

From Stdlib Require Import ZArith QArith Qround Qabs List String Ascii Bool Lia Arith.
Import ListNotations.
Open Scope string_scope.

(* ================================================================== *)
(** ** The JavaScript values the code handles *)
(* ================================================================== *)

Module JS.

(** A number: [NaN], the two infinities, or a finite value. *)
Inductive jsnum : Type :=
| NaN
| PInf                      (* Infinity *)
| NInf                      (* -Infinity *)
| Fin (q : Q).

(** A primitive value as it appears in a JSON answer. *)
Inductive jsval : Type :=
| JUndefined
| JNull
| JBool (b : bool)
| JNum (n : jsnum)
| JStr (s : string).

(** The two conversions of the language that depend on the binary64
    representation are left to the runtime. *)
Class Runtime : Type := {
  NumberToString : Q -> string;      (* Number::toString of a finite value *)
  StringToNumber : string -> jsnum   (* the StringToNumber conversion *)
}.

Definition Qltb (a b : Q) : bool := negb (Qle_bool b a).

(** [a < b] on numbers: false as soon as one side is [NaN]. *)
Definition lt (a b : jsnum) : bool :=
  match a, b with
  | NaN, _ | _, NaN => false
  | _, NInf => false
  | NInf, _ => true
  | PInf, _ => false
  | Fin _, PInf => true
  | Fin x, Fin y => Qltb x y
  end.

(** [isNaN(x)] at a number. *)
Definition isNaN (x : jsnum) : bool :=
  match x with NaN => true | _ => false end.

(** [Number.isFinite(x)] at a number. *)
Definition isFinite (x : jsnum) : bool :=
  match x with Fin _ => true | _ => false end.

(** [Math.floor], [Math.round] (half up), [Math.min] and [Math.max]. *)
Definition floor (x : jsnum) : jsnum :=
  match x with Fin q => Fin (inject_Z (Qfloor q)) | _ => x end.

Definition round (x : jsnum) : jsnum :=
  match x with Fin q => Fin (inject_Z (Qfloor (q + (1 # 2)))) | _ => x end.

Definition min (a b : jsnum) : jsnum :=
  match a, b with
  | NaN, _ | _, NaN => NaN
  | _, _ => if lt b a then b else a
  end.

Definition max (a b : jsnum) : jsnum :=
  match a, b with
  | NaN, _ | _, NaN => NaN
  | _, _ => if lt a b then b else a
  end.

(** *** Decimal text *)

Definition digit_of (n : N) : ascii := ascii_of_N (48 + n).

(** The decimal digits of [n], most significant first; [fuel] bounds the
    number of digits. *)
Fixpoint digits_fuel (fuel : nat) (n : N) (acc : string) : string :=
  match fuel with
  | O => acc
  | S fuel' =>
      let acc' := String (digit_of (n mod 10)) acc in
      if (n <? 10)%N then acc' else digits_fuel fuel' (n / 10) acc'
  end.

Definition digits (n : N) : string :=
  digits_fuel (S (N.to_nat (N.log2 n))) n EmptyString.

Fixpoint zeros (k : nat) : string :=
  match k with O => EmptyString | S k' => String "0" (zeros k') end.

Definition pow10 (d : nat) : Z := (10 ^ Z.of_nat d)%Z.

(** [x.toFixed(d)] for a number [x]: the infinities and [NaN] print as
    themselves, a value of magnitude 1e21 or more prints as the runtime
    prints it, and any other value is rounded to the nearest multiple of
    10^-d (the larger one on a tie, taken on the magnitude). *)
Definition toFixed `{Runtime} (d : nat) (x : jsnum) : string :=
  match x with
  | NaN => "NaN"
  | PInf => "Infinity"
  | NInf => "-Infinity"
  | Fin q =>
      let a := Qabs q in
      if Qle_bool (inject_Z (pow10 21)) a then NumberToString q
      else
        let n := Z.to_N (Qfloor (a * inject_Z (pow10 d) + (1 # 2))) in
        let m := digits n in
        let m := if (String.length m <=? d)%nat
                 then zeros (S d - String.length m) ++ m else m in
        let k := (String.length m - d)%nat in
        let body := match d with
                    | O => m
                    | _ => substring 0 k m ++ "." ++ substring k d m
                    end in
        if Qltb q 0 then "-" ++ body else body
  end.

(** [ToString] of a value, as a template literal applies it. *)
Definition NumToString `{Runtime} (x : jsnum) : string :=
  match x with
  | NaN => "NaN"
  | PInf => "Infinity"
  | NInf => "-Infinity"
  | Fin q => NumberToString q
  end.

Definition ToString `{Runtime} (v : jsval) : string :=
  match v with
  | JUndefined => "undefined"
  | JNull => "null"
  | JBool true => "true"
  | JBool false => "false"
  | JNum n => NumToString n
  | JStr s => s
  end.

(** [ToNumber] of a value, as [Number(v)] and [Math.round(v)] apply it. *)
Definition ToNumber `{Runtime} (v : jsval) : jsnum :=
  match v with
  | JUndefined => NaN
  | JNull => Fin 0
  | JBool true => Fin 1
  | JBool false => Fin 0
  | JNum n => n
  | JStr s => StringToNumber s
  end.

(** *** [parseFloat] *)

Definition is_space (c : ascii) : bool :=
  let n := N_of_ascii c in
  ((n =? 32) || (n =? 9) || (n =? 10) || (n =? 11) || (n =? 12) || (n =? 13))%N.

Definition digit_val (c : ascii) : option N :=
  let n := N_of_ascii c in
  if ((48 <=? n) && (n <=? 57))%N then Some (n - 48)%N else None.

Fixpoint skip_space (s : string) : string :=
  match s with
  | String c r => if is_space c then skip_space r else s
  | EmptyString => s
  end.

(** Reads the decimal digits at the head of [s]: their value on top of
    [acc], how many there were, and the rest of the text. *)
Fixpoint read_digits (s : string) (acc : N) (cnt : nat) : N * nat * string :=
  match s with
  | String c r =>
      match digit_val c with
      | Some v => read_digits r (acc * 10 + v)%N (S cnt)
      | None => (acc, cnt, s)
      end
  | EmptyString => (acc, cnt, s)
  end.

(** The exponent part [e], [e+] or [e-] followed by digits, when there is
    one at the head of [s]. *)
Definition read_exponent (s : string) : Z :=
  match s with
  | String c r =>
      if (N_of_ascii c =? 101)%N || (N_of_ascii c =? 69)%N then
        let '(neg, r') :=
          match r with
          | String "-" r' => (true, r')
          | String "+" r' => (false, r')
          | _ => (false, r)
          end in
        let '(v, cnt, _) := read_digits r' 0%N O in
        match cnt with
        | O => 0%Z
        | _ => if neg then (- Z.of_N v)%Z else Z.of_N v
        end
      else 0%Z
  | EmptyString => 0%Z
  end.

Definition scale10 (q : Q) (e : Z) : Q :=
  if (0 <=? e)%Z then q * inject_Z (10 ^ e) else q / inject_Z (10 ^ (- e)).

(** The unsigned part of a literal: [Infinity], or digits with an
    optional fraction and exponent; [NaN] when there is no digit. *)
Definition read_literal (neg : bool) (s : string) : jsnum :=
  if prefix "Infinity" s then (if neg then NInf else PInf)
  else
    let '(ip, icnt, r) := read_digits s 0%N O in
    let '(fp, fcnt, r) :=
      match r with
      | String "." r' => read_digits r' ip O
      | _ => (ip, O, r)
      end in
    match (icnt + fcnt)%nat with
    | O => NaN
    | _ =>
        let m := Z.of_N fp # Pos.of_nat (Z.to_nat (pow10 fcnt)) in
        let v := scale10 m (read_exponent r) in
        Fin (if neg then - v else v)
    end.

(** The longest prefix of the trimmed text that is a decimal literal;
    [NaN] when there is none. *)
Definition parseFloatString (s : string) : jsnum :=
  match skip_space s with
  | String "-" r => read_literal true r
  | String "+" r => read_literal false r
  | s' => read_literal false s'
  end.

(** [parseFloat(v)]: the argument is first converted to text. *)
Definition parseFloat `{Runtime} (v : jsval) : jsnum :=
  parseFloatString (ToString v).

(** Truthiness of a value. *)
Definition truthy (v : jsval) : bool :=
  match v with
  | JUndefined | JNull => false
  | JBool b => b
  | JNum NaN => false
  | JNum (Fin q) => negb (Qeq_bool q 0)
  | JNum _ => true
  | JStr EmptyString => false
  | JStr _ => true
  end.

(** A JSON object used as a map from member names to values; a missing
    member reads as [undefined]. *)
Definition object : Type := list (string * jsval).

Definition get (o : object) (k : string) : jsval :=
  match find (fun kv => String.eqb (fst kv) k) o with
  | Some kv => snd kv
  | None => JUndefined
  end.

End JS.

Import JS.

(** A runtime for the examples: a whole number prints as its digits, any
    other finite number with two decimals, and every text converts as
    [parseFloat] reads it. *)
Definition example_runtime : Runtime :=
  let plain := {| NumberToString := fun _ => "0"; StringToNumber := fun _ => NaN |} in
  {| NumberToString := fun q =>
       if Qeq_bool (inject_Z (Qfloor q)) q
       then @toFixed plain 0 (Fin q) else @toFixed plain 2 (Fin q);
     StringToNumber := parseFloatString |}.

(* ================================================================== *)
(** ** Exceptions of synchronous code *)
(* ================================================================== *)

Inductive exn : Type :=
| TypeError                 (* a member read on null or undefined, a call of a non-function *)
| LibraryError              (* an error thrown by a library: Turf, Leaflet *)
| Rejected (e : string).    (* a promise rejected with the provider's error *)

Inductive result (A : Type) : Type :=
| Ok (a : A)
| Raise (e : exn).
Arguments Ok {A} a.
Arguments Raise {A} e.

Definition rbind {A B : Type} (m : result A) (f : A -> result B) : result B :=
  match m with
  | Ok a => f a
  | Raise e => Raise e
  end.

Notation "'let*' x ':=' m 'in' k" := (rbind m (fun x => k))
  (at level 10, x pattern, m at level 200, k at level 200).

(** Reading a member of a nullable object. *)
Definition member {A : Type} (o : option A) : result A :=
  match o with
  | Some a => Ok a
  | None => Raise TypeError
  end.

(* ================================================================== *)
(** ** GeoJSON answers and the geometry library *)
(* ================================================================== *)

(** Nested coordinate arrays. *)
#[local] Set Warnings "-register-all".
Inductive coords : Type :=
| CNum (q : Q)
| CArr (l : list coords).

Record Geometry : Type := {
  type : string;
  coordinates : coords
}.

Record Feature : Type := {
  geometry : option Geometry;     (* null for an unlocated feature *)
  properties : option object      (* may be null *)
}.

Record LatLng : Type := { lat : Q; lng : Q }.

(** The part of Turf the code calls.  Its constructors and measures may
    throw on coordinates they reject. *)
Class Turf : Type := {
  TurfPoint : Type;
  TurfPolygon : Type;
  TurfLine : Type;
  turf_point : Q * Q -> TurfPoint;
  turf_polygon : coords -> result TurfPolygon;
  turf_multiPolygon : coords -> result TurfPolygon;
  turf_polygonToLine : TurfPolygon -> result TurfLine;
  turf_nearestPointOnLine : TurfLine -> TurfPoint -> result TurfPoint;
  (* turf.distance(a, b, { units: "miles" }) *)
  turf_distance_miles : TurfPoint -> TurfPoint -> result jsnum
}.

Section Distance.
Context `{RT : Runtime} `{TF : Turf}.

(** [getDistanceToPolygonEdge(clickLatLng, feature)]: the text of the
    distance with two decimals for a polygon or a multipolygon, the
    number [NaN] for any other geometry. *)
Definition getDistanceToPolygonEdge (clickLatLng : LatLng) (feature : Feature)
  : result jsval :=
  let point := turf_point (lng clickLatLng, lat clickLatLng) in
  let* geom := member (geometry feature) in
  let finish (line : result TurfLine) : result jsval :=
    let* line := line in
    let* nearestPoint := turf_nearestPointOnLine line point in
    let* distance := turf_distance_miles point nearestPoint in
    Ok (JStr (toFixed 2 distance)) in
  if String.eqb (type geom) "Polygon" then
    finish (let* p := turf_polygon (coordinates geom) in turf_polygonToLine p)
  else if String.eqb (type geom) "MultiPolygon" then
    finish (let* p := turf_multiPolygon (coordinates geom) in turf_polygonToLine p)
  else Ok (JNum NaN).

(** The distance as both nearest-searches rank it:
    [parseFloat(getDistanceToPolygonEdge(latlng, f))]. *)
Definition edgeDistance (clickLatLng : LatLng) (f : Feature) : result jsnum :=
  let* d := getDistanceToPolygonEdge clickLatLng f in
  Ok (parseFloat d).

(** The loop of [getClosestFeatureByEdgeDistance] over [fc.features],
    threading [minDist] and [bestFeature]. *)
Fixpoint closest_loop (clickLatLng : LatLng) (fs : list Feature)
  (minDist : jsnum) (bestFeature : option Feature)
  : result (jsnum * option Feature) :=
  match fs with
  | [] => Ok (minDist, bestFeature)
  | feature :: rest =>
      let* dist := edgeDistance clickLatLng feature in
      if negb (isNaN dist) && lt dist minDist
      then closest_loop clickLatLng rest dist (Some feature)
      else closest_loop clickLatLng rest minDist bestFeature
  end.

(** The record [best] of [nearestByEdgeDistanceAcross]. *)
Record Best : Type := { dist : jsnum; text : string }.

Definition nearestText (label : string) (name : jsval) (d : jsnum) : string :=
  "■ <strong>Nearest " ++ label ++ ":</strong> " ++ ToString name
  ++ "<br>📏 Distance: " ++ toFixed 2 d ++ " mi".

Definition notFoundText (label : string) : string :=
  "❌ <strong>" ++ label ++ ":</strong> No nearby zones found".

(** The test [!best || dist < best.dist]. *)
Definition improves (best : option Best) (d : jsnum) : bool :=
  match best with
  | None => true
  | Some b => lt d (dist b)
  end.

(** The inner loop of [nearestByEdgeDistanceAcross] over the features of
    one layer. *)
Fixpoint across_loop (clickLatLng : LatLng) (label fieldName : string)
  (fs : list Feature) (best : option Best) : result (option Best) :=
  match fs with
  | [] => Ok best
  | f :: rest =>
      let* dist := edgeDistance clickLatLng f in
      if negb (isFinite dist) then across_loop clickLatLng label fieldName rest best
      else if improves best dist then
        let* props := member (properties f) in
        across_loop clickLatLng label fieldName rest
          (Some {| dist := dist;
                   text := nearestText label (get props fieldName) dist |})
      else across_loop clickLatLng label fieldName rest best
  end.

End Distance.

(* ================================================================== *)
(** ** Providers *)
(* ================================================================== *)

Inductive layer : Type :=
| fireHazardLRA | fireHazardSRA | floodLayer | ozoneLayer | pmLayer | drinkLayer.

(** A query sent to a provider. *)
Inductive request : Type :=
| Contains (l : layer)                 (* layer.query().contains(latlng) *)
| Nearby (l : layer) (meters : Z)      (* layer.query().nearby(latlng, meters) *)
| IdentifyLandslide                    (* identifyFeatures on the landslide MapServer *)
| IdentifyMMI.                         (* identify on the shaking ImageServer *)

(** The second argument of a provider callback. *)
Record FeatureCollection : Type := {
  features : option (list Feature);
  res_value : jsval
}.

Record Pixel : Type := { pixel_value : jsval }.

(** [r0.attributes] of an identify result: an object, or a primitive
    (a number, a text, a boolean, [null], or [undefined] when the member
    is missing). *)
Inductive Attributes : Type :=
| AttrsObject (o : object)
| AttrsValue (v : jsval).

(** An entry of [rawResponse.results]: its [value] and its [attributes].
    An entry that is a number, a text or a boolean has neither member
    and reads as [undefined] for both. *)
Record IdentifyResult : Type := {
  result_value : jsval;
  attributes : Attributes
}.

(** The third argument of a provider callback, the raw answer.
    [raw_results] is [None] when [rawResponse.results] is not an array, and
    an entry of the array is [None] when it is null or undefined. *)
Record RawResponse : Type := {
  pixel : option Pixel;
  raw_value : jsval;
  raw_results : option (list (option IdentifyResult))
}.

(** What a provider hands to the callback of [run]: [(err, fc, raw)]. *)
Record response : Type := {
  err : option string;
  fc : option FeatureCollection;
  raw : option RawResponse
}.

(** The providers of one click: every query has its answer. *)
Definition providers : Type := request -> response.

(* ================================================================== *)
(** ** [parseLandslideLabelFromIdentify] *)
(* ================================================================== *)

Module Landslide.
Local Open Scope nat_scope.

(** [LANDSLIDE_CLASS_MAP]: the class value and its label. *)
Definition LANDSLIDE_CLASS_MAP : list (Z * string) :=
  [(10, "X"); (9, "IX"); (8, "VIII"); (7, "VII"); (6, "VI"); (5, "V");
   (4, "IV"); (3, "III"); (2, "II"); (1, "I"); (0, "0")]%Z.

(** [k in o]. *)
Definition has (o : object) (k : string) : bool :=
  existsb (fun kv => String.eqb (fst kv) k) o.

(** [Object.keys(o)], in the order the object lists them. *)
Definition keys (o : object) : list string := map fst o.

(** [v !== null && v !== ""]. *)
Definition filled (v : jsval) : bool :=
  match v with
  | JNull => false
  | JStr EmptyString => false
  | _ => true
  end.

(** [v != null]: neither [null] nor [undefined]. *)
Definition present (v : jsval) : bool :=
  match v with
  | JNull | JUndefined => false
  | _ => true
  end.

(** [toLowerCase] on the letters A to Z; other characters are kept. *)
Definition toLowerAscii (c : ascii) : ascii :=
  let n := N_of_ascii c in
  if ((65 <=? n) && (n <=? 90))%N then ascii_of_N (n + 32) else c.

Fixpoint toLower (s : string) : string :=
  match s with
  | String c r => String (toLowerAscii c) (toLower r)
  | EmptyString => EmptyString
  end.

Definition endsWith (s suffix : string) : bool :=
  let n := String.length s in
  let m := String.length suffix in
  (m <=? n) && String.eqb (substring (n - m) m s) suffix.

(** [/(Pixel ?Value|^Value$|GRAY_INDEX|gridcode)$/i.test(k)]. *)
Definition numericLike (k : string) : bool :=
  let s := toLower k in
  endsWith s "pixelvalue" || endsWith s "pixel value" || String.eqb s "value"
  || endsWith s "gray_index" || endsWith s "gridcode".

Definition exactKeys : list string := ["UniqueValue.Pixel Value"; "Raster.Value"].

Definition textKeys : list string :=
  ["ClassName"; "Class"; "LABEL"; "Class_Label"; "CLASS_LABEL"; "Category"].

Definition textCandidates : list string :=
  ["ClassName"; "Class"; "LABEL"; "Class_Label"; "CLASS_LABEL"; "Category"; "CAT"].

Definition numCandidates : list string :=
  ["Value"; "GRAY_INDEX"; "PixelValue"; "gridcode"; "CLASS_VAL"].

Section Parse.
Context `{RT : Runtime}.

(** [LANDSLIDE_CLASS_MAP[v]?.label ?? String(v)]. *)
Definition classLabel (v : jsnum) : string :=
  match v with
  | Fin q =>
      match find (fun kv => Qeq_bool (inject_Z (fst kv)) q) LANDSLIDE_CLASS_MAP with
      | Some kv => snd kv
      | None => NumToString v
      end
  | _ => NumToString v
  end.

(** The loop over [exactKeys]. *)
Fixpoint exact_loop (attrs : object) (ks : list string) : option string :=
  match ks with
  | [] => None
  | k :: rest =>
      if has attrs k && filled (get attrs k) then
        let v := ToNumber (get attrs k) in
        if negb (isNaN v) then Some (classLabel v) else exact_loop attrs rest
      else exact_loop attrs rest
  end.

(** The loops [for (const k of ...) if (o[k]) return String(o[k])]. *)
Fixpoint text_loop (o : object) (ks : list string) : option string :=
  match ks with
  | [] => None
  | k :: rest =>
      if truthy (get o k) then Some (ToString (get o k)) else text_loop o rest
  end.

(** The loop over [numCandidates]. *)
Fixpoint num_loop (props : object) (ks : list string) : option string :=
  match ks with
  | [] => None
  | k :: rest =>
      if present (get props k) && filled (get props k)
         && negb (isNaN (ToNumber (get props k)))
      then Some (classLabel (ToNumber (get props k)))
      else num_loop props rest
  end.

(** The part that reads the object [attrs]: the label it returns, or
    [None] when it falls through. *)
Definition fromAttributes (attrs : object) : option string :=
  match exact_loop attrs exactKeys with
  | Some l => Some l
  | None =>
      let numericLikeKey :=
        find (fun k => numericLike k && filled (get attrs k)
                       && negb (isNaN (ToNumber (get attrs k))))
             (keys attrs) in
      let generic :=
        match numericLikeKey with
        | Some k =>
            if truthy (JStr k) then
              let v := ToNumber (get attrs k) in
              if negb (isNaN v) then Some (classLabel v) else None
            else None
        | None => None
        end in
      match generic with
      | Some l => Some l
      | None => text_loop attrs textKeys
      end
  end.

(** The part that reads [rawResponse.results[0]]: the label it returns,
    or [None] when it falls through.  With [attrs = r0.attributes || {}]
    a primitive that is truthy, [k in attrs] throws at the first of
    [exactKeys]. *)
Definition fromResult (r0 : IdentifyResult) : result (option string) :=
  let direct :=
    if present (result_value r0) then
      let v := ToNumber (result_value r0) in
      if negb (isNaN v) then Some (classLabel v) else None
    else None in
  match direct with
  | Some l => Ok (Some l)
  | None =>
      match attributes r0 with
      | AttrsObject attrs => Ok (fromAttributes attrs)
      | AttrsValue v =>
          if truthy v then Raise TypeError else Ok (fromAttributes [])
      end
  end.

(** The fallback on the feature collection. *)
Definition fromFeatureCollection (featureCollection : option FeatureCollection)
  : option string :=
  let f := match featureCollection with
           | Some c => match features c with
                       | Some fs => hd_error fs
                       | None => None
                       end
           | None => None
           end in
  let props := match f with
               | Some f => match properties f with Some p => p | None => [] end
               | None => []
               end in
  match text_loop props textCandidates with
  | Some l => Some l
  | None => num_loop props numCandidates
  end.

(** [parseLandslideLabelFromIdentify(rawResponse, featureCollection)];
    [Ok None] is [null]. *)
Definition parseLandslideLabelFromIdentify
  (rawResponse : option RawResponse)
  (featureCollection : option FeatureCollection) : result (option string) :=
  let* fromRaw :=
    match rawResponse with
    | Some rw =>
        match raw_results rw with
        | Some (r0 :: _) =>
            let* r0 := member r0 in fromResult r0
        | _ => Ok None
        end
    | None => Ok None
    end in
  match fromRaw with
  | Some l => Ok (Some l)
  | None => Ok (fromFeatureCollection featureCollection)
  end.

End Parse.

End Landslide.

(* ================================================================== *)
(** ** The report state of one click *)
(* ================================================================== *)

Inductive slot : Type :=
| fire | flood | ozone | pm | drink | landslide | shaking.

Definition slot_eqb (a b : slot) : bool :=
  match a, b with
  | fire, fire | flood, flood | ozone, ozone | pm, pm
  | drink, drink | landslide, landslide | shaking, shaking => true
  | _, _ => false
  end.

(** The keys of the object [results], in the order it declares them. *)
Definition results_keys : list slot :=
  [fire; flood; ozone; pm; drink; landslide; shaking].

(** The initial value of [results]. *)
Definition results0 (k : slot) : string :=
  match k with
  | fire => "❌ Fire Hazard Zone: No data."
  | flood => "❌ Flood Hazard Zone: No data."
  | ozone => "❌ Ozone: No data."
  | pm => "❌ PM2.5: No data."
  | drink => "❌ Drinking Water: No data."
  | landslide => "❌ Landslide Susceptibility: No data."
  | shaking => "❌ Shaking Potential: No data."
  end.

(** [results.k = txt]. *)
Definition set_result (k : slot) (txt : string) (results : slot -> string)
  : slot -> string :=
  fun k' => if slot_eqb k' k then txt else results k'.

(** The variables the callbacks of one click close over. *)
Record click_state : Type := {
  results : slot -> string;
  completed : nat;
  reportEl : bool                (* whether #report-content was found *)
}.

(** What the handler does to the page and to the providers. *)
Inductive effect : Type :=
| ShowSpinner
| HideSpinner
| InnerHTML (html : string)      (* reportEl.innerHTML = html *)
| Query (r : request).

(** [const totalTasks = Object.keys(results).length]. *)
Definition totalTasks : nat := List.length results_keys.

(** The array [ordered] of [checkDone]. *)
Definition ordered (results : slot -> string) : list string :=
  [results fire; results flood; results ozone; results pm;
   results drink; results landslide; results shaking].

Definition report_html (results : slot -> string) : string :=
  String.concat "<br><br>" (ordered results).

(** [checkDone()]. *)
Definition checkDone (st : click_state) : click_state * list effect :=
  let st' := {| results := results st;
                completed := S (completed st);
                reportEl := reportEl st |} in
  if (completed st' =? totalTasks)%nat then
    (st', (if reportEl st then [InnerHTML (report_html (results st))] else [])
          ++ [HideSpinner])%list
  else (st', []).

(* ================================================================== *)
(** ** Asynchronous code *)
(* ================================================================== *)

(** A piece of JavaScript that may wait for providers.
    - [Await r k] sends [r] and awaits the promise the answer resolves;
      [k] runs inside the [try] blocks that enclose the [await].
    - [Run r cb k] sends [r] with the callback [cb] and goes on with [k];
      [cb] runs later, from the event loop, outside every [try] block
      of the code that registered it.
    - [Uncaught e]: the callback that was to settle the awaited promise
      threw [e] before it called [resolve] or [reject].  The exception
      goes to the handlers of the window, no [try] block of the awaiting
      code sees it, and the promise stays pending: the code after the
      [await], its [catch] and its [finally] never run. *)
Inductive prog (A : Type) : Type :=
| Ret (a : A)
| Throw (e : exn)
| Uncaught (e : exn)
| Await (r : request) (k : response -> prog A)
| Run (r : request) (cb : response -> prog unit) (k : prog A)
| SetResult (s : slot) (txt : string) (k : prog A)
| CheckDone (k : prog A).
Arguments Ret {A} a.
Arguments Throw {A} e.
Arguments Uncaught {A} e.
Arguments Await {A} r k.
Arguments Run {A} r cb k.
Arguments SetResult {A} s txt k.
Arguments CheckDone {A} k.

Fixpoint bind {A B : Type} (p : prog A) (f : A -> prog B) : prog B :=
  match p with
  | Ret a => f a
  | Throw e => Throw e
  | Uncaught e => Uncaught e
  | Await r k => Await r (fun x => bind (k x) f)
  | Run r cb k => Run r cb (bind k f)
  | SetResult s txt k => SetResult s txt (bind k f)
  | CheckDone k => CheckDone (bind k f)
  end.

Notation "x <- m ;; k" := (bind m (fun x => k))
  (at level 61, m at next level, right associativity).
Notation "m ;; k" := (bind m (fun _ => k))
  (at level 61, right associativity).

(** [try { p } catch (ex) { h ex }]. *)
Fixpoint try_catch {A : Type} (p : prog A) (h : exn -> prog A) : prog A :=
  match p with
  | Ret a => Ret a
  | Throw e => h e
  | Uncaught e => Uncaught e
  | Await r k => Await r (fun x => try_catch (k x) h)
  | Run r cb k => Run r cb (try_catch k h)
  | SetResult s txt k => SetResult s txt (try_catch k h)
  | CheckDone k => CheckDone (try_catch k h)
  end.

(** [try { p } finally { f }]. *)
Fixpoint try_finally {A : Type} (p : prog A) (f : prog unit) : prog A :=
  match p with
  | Ret a => f ;; Ret a
  | Throw e => f ;; Throw e
  | Uncaught e => Uncaught e
  | Await r k => Await r (fun x => try_finally (k x) f)
  | Run r cb k => Run r cb (try_finally k f)
  | SetResult s txt k => SetResult s txt (try_finally k f)
  | CheckDone k => CheckDone (try_finally k f)
  end.

(** Synchronous code inside asynchronous code. *)
Definition lift {A : Type} (m : result A) : prog A :=
  match m with
  | Ok a => Ret a
  | Raise e => Throw e
  end.

Definition setResult (s : slot) (txt : string) : prog unit :=
  SetResult s txt (Ret tt).

Definition callCheckDone : prog unit := CheckDone (Ret tt).

(* ================================================================== *)
(** ** The click report: [installClickReport] *)
(* ================================================================== *)

(** [UI.NEARBY_METERS]. *)
Definition NEARBY_METERS : Z := 80467.

Definition nl : string := String (ascii_of_nat 10) EmptyString.
Definition dq : string := String (ascii_of_nat 34) EmptyString.

Section Click.
Context `{RT : Runtime} `{TF : Turf}.

(** [e.latlng], the point clicked. *)
Variable latlng : LatLng.

(** *** Report formatting helpers *)

Definition fmtFireInside (zone : jsval) (whichArea : string) : string :=
  "■ <strong>Fire Hazard Zone (" ++ whichArea ++ "):</strong><br>" ++ nl
  ++ "This location is within a <strong>" ++ ToString zone
  ++ "</strong> Fire Hazard Severity Zone.<br>" ++ nl
  ++ "These zones reflect expected fire behavior based on fuels, terrain, and typical fire weather, and are used to guide planning and mitigation.".

Definition fmtFloodInside (zone : jsval) : string :=
  "■ <strong>Flood Hazard Zone:</strong><br>" ++ nl
  ++ "This location is within <strong>" ++ ToString zone ++ "</strong> (FEMA NFHL).<br>" ++ nl
  ++ "Flood zones represent areas with varying flood probabilities and are used for floodplain management, insurance, and development decisions.".

Definition EXPLAIN : list (string * string) :=
  [("ozone", "Ground-level ozone is a lung irritant. This indicator summarizes warm-season ozone conditions (often tied to smog).");
   ("pm", "PM2.5 is tiny airborne particulate pollution that can get deep into your lungs. Higher values generally mean worse air quality.");
   ("drink", "Drinking water contaminants combines contaminant and violation info into a single score (higher is worse).")].

Definition fmtCalEnviro (indicatorKey title valueStr pctStr noteStr : string) : string :=
  let explainText :=
    match find (fun kv => String.eqb (fst kv) indicatorKey) EXPLAIN with
    | Some kv => snd kv
    | None => "Environmental indicator from CalEnviroScreen."
    end in
  "■ <strong>" ++ title ++ ":</strong><br>" ++ nl
  ++ explainText ++ "<br>" ++ nl
  ++ "<strong>Value:</strong> " ++ valueStr ++ "<br>" ++ nl
  ++ "<strong>Percentile:</strong> " ++ pctStr ++ "<br>" ++ nl
  ++ "<span style=" ++ dq ++ "opacity:0.9" ++ dq ++ ">" ++ noteStr ++ "</span>".

Definition fmtLandslide (label : string) : string :=
  "■ <strong>Landslide Susceptibility:</strong><br>" ++ nl
  ++ "Class <strong>" ++ label ++ "</strong> (California Geological Survey).<br>" ++ nl
  ++ "Higher classes generally indicate terrain more prone to slope failure under triggers like intense rainfall, earthquakes, and drainage changes.".

(** The object [formatMMI] returns. *)
Record MMIFormat : Type := { label : string; intClass : jsnum; valueStr : string }.

Definition fmtShaking (_mmi : jsnum) (fmt : MMIFormat) : string :=
  "■ <strong>Shaking Potential (MMI, 10%/50yr):</strong><br>" ++ nl
  ++ "Estimated intensity: <strong>" ++ valueStr fmt ++ "</strong> (" ++ label fmt ++ ").<br>" ++ nl
  ++ "MMI is a human-impact scale: higher values generally mean stronger shaking and greater potential for damage.".

(** The seven error texts of the [catch] blocks. *)
Definition errorText (k : slot) : string :=
  match k with
  | fire => "■ <strong>Fire Hazard Zone:</strong> Error fetching data."
  | flood => "■ <strong>Flood Hazard Zone:</strong> Error fetching data."
  | ozone => "■ <strong>Ozone:</strong> Error fetching data."
  | pm => "■ <strong>PM2.5:</strong> Error fetching data."
  | drink => "■ <strong>Drinking Water:</strong> Error fetching data."
  | landslide => "■ <strong>Landslide Susceptibility:</strong> Error fetching value."
  | shaking => "■ <strong>Shaking Potential:</strong> Error fetching value."
  end.

(** *** Reading an answer *)

(** [fc.features]. *)
Definition response_features (res : response) : result (list Feature) :=
  let* c := member (fc res) in
  member (features c).

(** [!err && fc.features.length > 0]. *)
Definition has_features (res : response) : result bool :=
  match err res with
  | Some _ => Ok false
  | None => let* fs := response_features res in Ok (0 <? List.length fs)%nat
  end.

(** [!res.err && res.fc?.features?.length]. *)
Definition contained (res : response) : bool :=
  match err res, fc res with
  | None, Some c =>
      match features c with
      | Some (_ :: _) => true
      | _ => false
      end
  | _, _ => false
  end.

(** [fc.features[0].properties], ready for a member read. *)
Definition first_properties (res : response) : result object :=
  let* fs := response_features res in
  let* f := member (hd_error fs) in
  member (properties f).

(** [fc.features[0].properties.k]. *)
Definition first_property (res : response) (k : string) : result jsval :=
  let* p := first_properties res in
  Ok (get p k).

(** *** Shaking and landslide identify *)

Definition MMI_CLASSES : list (Z * (string * string)) :=
  [(1, ("I", "Not felt")); (2, ("II", "Weak")); (3, ("III", "Weak"));
   (4, ("IV", "Light")); (5, ("V", "Moderate")); (6, ("VI", "Strong"));
   (7, ("VII", "Very Strong")); (8, ("VIII", "Severe")); (9, ("IX", "Violent"));
   (10, ("X+", "Extreme"))]%Z.

Definition formatMMI (mmi : jsnum) : MMIFormat :=
  let intClass := JS.max (Fin 1) (JS.min (Fin 10) (JS.floor mmi)) in
  let meta :=
    match intClass with
    | Fin q =>
        match find (fun kv => Qeq_bool (inject_Z (fst kv)) q) MMI_CLASSES with
        | Some kv => snd kv
        | None => ("?", "Unknown")
        end
    | _ => ("?", "Unknown")
    end in
  {| label := fst meta ++ " – " ++ snd meta;
     intClass := intClass;
     valueStr := toFixed 1 mmi |}.

(** [identifyLandslideAt(map, latlng)]: the promise rejects with the
    provider's error and resolves with the label; when the parser throws
    in the callback of [run], neither [resolve] nor [reject] is called. *)
Definition identifyLandslideAt : prog (option string) :=
  Await IdentifyLandslide (fun res =>
    match err res with
    | Some error => Throw (Rejected error)
    | None =>
        match Landslide.parseLandslideLabelFromIdentify (raw res) (fc res) with
        | Ok label => Ret label
        | Raise e => Uncaught e
        end
    end).

(** [typeof v !== "undefined"]. *)
Definition defined (v : jsval) : bool :=
  match v with JUndefined => false | _ => true end.

(** The value [val] that [identifyMMIAt] reads from an answer without
    error; [None] is [null]. *)
Definition mmi_val (res : response) : option jsnum :=
  let raw_pixel := match raw res with Some rw => pixel rw | None => None end in
  let raw_val := match raw res with Some rw => raw_value rw | None => JUndefined end in
  let res_val := match fc res with Some c => res_value c | None => JUndefined end in
  match raw_pixel with
  | Some px =>
      if defined (pixel_value px) then Some (ToNumber (pixel_value px))
      else if defined raw_val then Some (ToNumber raw_val)
      else if defined res_val then Some (ToNumber res_val)
      else None
  | None =>
      if defined raw_val then Some (ToNumber raw_val)
      else if defined res_val then Some (ToNumber res_val)
      else None
  end.

(** [identifyMMIAt(latlng)]: the promise has no [reject]. *)
Definition identifyMMIAt : prog (option jsnum) :=
  Await IdentifyMMI (fun res =>
    match err res with
    | Some _ => Ret None                       (* console.warn; resolve(null) *)
    | None =>
        match mmi_val res with
        | Some v => Ret (if isFinite v then Some v else None)
        | None => Ret None
        end
    end).

(** *** Fire: LRA contains, then SRA contains, then nearest across both *)

Definition queryContains (l : layer) : prog response :=
  Await (Contains l) (fun res => Ret res).

Definition featuresOf (res : response) : list Feature :=
  match fc res with
  | Some c => match features c with Some fs => fs | None => [] end
  | None => []
  end.

(** The loop of [nearestByEdgeDistanceAcross] over [layersArr]; every
    round awaits [queryNearby(lyr, latlng, UI.NEARBY_METERS)]. *)
Fixpoint nearestAcross_loop (layersArr : list layer) (label fieldName : string)
  (best : option Best) : prog (option Best) :=
  match layersArr with
  | [] => Ret best
  | lyr :: rest =>
      Await (Nearby lyr NEARBY_METERS) (fun res =>
        match err res, featuresOf res with
        | Some _, _ | _, [] => nearestAcross_loop rest label fieldName best
        | None, fs =>
            match across_loop latlng label fieldName fs best with
            | Ok best' => nearestAcross_loop rest label fieldName best'
            | Raise e => Throw e
            end
        end)
  end.

Definition nearestByEdgeDistanceAcross (layersArr : list layer)
  (label fieldName : string) : prog string :=
  best <- nearestAcross_loop layersArr label fieldName None ;;
  Ret (match best with
       | Some b => text b
       | None => notFoundText label
       end).

Definition fireNote : string :=
  "<br><em>Note: Zones are designated by CAL FIRE for planning and mitigation guidance.</em>".

Definition fire_task : prog unit :=
  try_finally
    (try_catch
       (lraRes <- queryContains fireHazardLRA ;;
        if contained lraRes then
          zone <- lift (first_property lraRes "FHSZ_Description") ;;
          setResult fire (fmtFireInside zone "LRA")
        else
          sraRes <- queryContains fireHazardSRA ;;
          if contained sraRes then
            zone <- lift (first_property sraRes "FHSZ_Description") ;;
            setResult fire (fmtFireInside zone "SRA")
          else
            nearestText <- nearestByEdgeDistanceAcross
                             [fireHazardLRA; fireHazardSRA]
                             "Fire Hazard Zone" "FHSZ_Description" ;;
            setResult fire (nearestText ++ fireNote))
       (fun ex => setResult fire (errorText fire)))
    callCheckDone.

(** *** Flood: contains, then nearest *)

(** [getClosestFeatureByEdgeDistance(layer, clickLatLng, label, fieldName,
    _unused, callback)]: the body runs in the callback of [run]. *)
Definition getClosestFeatureByEdgeDistance (l : layer) (label fieldName : string)
  (callback : string -> prog unit) : prog unit :=
  Run (Nearby l NEARBY_METERS) (fun res =>
    found <- lift (has_features res) ;;
    if found then
      fs <- lift (response_features res) ;;
      r <- lift (closest_loop latlng fs PInf None) ;;
      match snd r with
      | Some bestFeature =>
          props <- lift (member (properties bestFeature)) ;;
          callback (nearestText label (get props fieldName) (fst r))
      | None => callback (notFoundText label)
      end
    else callback (notFoundText label))
    (Ret tt).

Definition floodNote : string :=
  "<br><em>Note: FEMA flood zones guide insurance and floodplain decisions.</em>".

(** The callback of the flood containment query.  The [try] block yields
    [false] where the source returns early. *)
Definition flood_callback (res : response) : prog unit :=
  goes_on <-
    try_catch
      (found <- lift (has_features res) ;;
       if found then
         zone <- lift (first_property res "ESRI_SYMBOLOGY") ;;
         setResult flood (fmtFloodInside zone) ;;
         Ret true
       else
         getClosestFeatureByEdgeDistance floodLayer
           "Flood Hazard Zone" "ESRI_SYMBOLOGY"
           (fun txt => setResult flood (txt ++ floodNote) ;; callCheckDone) ;;
         Ret false)                   (* return: the callback will call checkDone *)
      (fun e2 => setResult flood (errorText flood) ;; Ret true) ;;
  if goes_on : bool then callCheckDone else Ret tt.

(** *** Ozone, PM2.5 and drinking water *)

(** [v?.toFixed(d) ?? "unknown"]. *)
Definition toFixed_or_unknown (d : nat) (v : jsval) : result string :=
  match v with
  | JUndefined | JNull => Ok "unknown"
  | JNum n => Ok (toFixed d n)
  | _ => Raise TypeError
  end.

(** The text of [v !== undefined ? Math.round(v) : "unknown"]. *)
Definition round_or_unknown (v : jsval) : string :=
  match v with
  | JUndefined => "unknown"
  | _ => NumToString (JS.round (ToNumber v))
  end.

Definition ozone_callback (res : response) : prog unit :=
  try_catch
    (found <- lift (has_features res) ;;
     if found then
       p <- lift (first_properties res) ;;
       ppm <- lift (toFixed_or_unknown 3 (get p "ozone")) ;;
       let pct := round_or_unknown (get p "ozoneP") in
       setResult ozone
         (fmtCalEnviro "ozone" "Ozone (Ground-Level)" (ppm ++ " ppm") pct
            "<em>(Data from 2017–2019)</em>")
     else Ret tt)
    (fun e2 => setResult ozone (errorText ozone)) ;;
  callCheckDone.

Definition pm_callback (res : response) : prog unit :=
  try_catch
    (found <- lift (has_features res) ;;
     if found then
       p <- lift (first_properties res) ;;
       value <- lift (toFixed_or_unknown 2 (get p "pm")) ;;
       let pct := round_or_unknown (get p "pmP") in
       setResult pm
         (fmtCalEnviro "pm" "PM2.5 (Fine Particulate Matter)" (value ++ " µg/m³") pct
            "<em>(Data from 2015–2017)</em>")
     else Ret tt)
    (fun e2 => setResult pm (errorText pm)) ;;
  callCheckDone.

Definition drink_callback (res : response) : prog unit :=
  try_catch
    (found <- lift (has_features res) ;;
     if found then
       p <- lift (first_properties res) ;;
       value <- lift (toFixed_or_unknown 2 (get p "drink")) ;;
       let pct := round_or_unknown (get p "drinkP") in
       setResult drink
         (fmtCalEnviro "drink" "Drinking Water Contaminants" value pct
            "<em>(Data from 2011–2019 compliance cycle)</em>")
     else Ret tt)
    (fun e2 => setResult drink (errorText drink)) ;;
  callCheckDone.

(** *** Landslide and shaking *)

Definition landslide_task : prog unit :=
  try_finally
    (try_catch
       (label <- identifyLandslideAt ;;
        match label with
        | Some (String c r) => setResult landslide (fmtLandslide (String c r))
        | _ => Ret tt                               (* null or empty: falsy *)
        end)
       (fun err2 => setResult landslide (errorText landslide)))
    callCheckDone.

Definition shaking_task : prog unit :=
  try_finally
    (try_catch
       (mmi <- identifyMMIAt ;;
        match mmi with
        | Some v => setResult shaking (fmtShaking v (formatMMI v))
        | None => Ret tt
        end)
       (fun err2 => setResult shaking (errorText shaking)))
    callCheckDone.

(** The seven lookups of the handler, in the order it starts them. *)
Definition tasks : list (slot * prog unit) :=
  [(fire, fire_task);
   (flood, Run (Contains floodLayer) flood_callback (Ret tt));
   (ozone, Run (Contains ozoneLayer) ozone_callback (Ret tt));
   (pm, Run (Contains pmLayer) pm_callback (Ret tt));
   (drink, Run (Contains drinkLayer) drink_callback (Ret tt));
   (landslide, landslide_task);
   (shaking, shaking_task)].

End Click.

(* ================================================================== *)
(** ** The event loop of one click *)
(* ================================================================== *)

(** What a lookup does, as the log of a run records it. *)
Inductive action : Type :=
| ASend (r : request)                  (* a query sent to a provider *)
| AWrite (k : slot) (txt : string)     (* results.k = txt *)
| ACheck.                              (* checkDone() *)

(** A query in flight: the lookup it belongs to and the code its answer
    resumes. *)
Record item : Type := {
  owner : slot;
  req : request;
  cont : response -> prog unit
}.

Record sys : Type := {
  st : click_state;
  page : list effect;                  (* what was done to the page, oldest first *)
  pend : list item;                    (* queries in flight *)
  trace : list (slot * action)         (* what each lookup did, oldest first *)
}.

(** One turn of the event loop: [p] runs until it ends, throws or awaits.
    An exception that reaches the top of a turn is only reported by the
    handlers of the window. *)
Fixpoint turn (o : slot) (p : prog unit) (s : sys) : sys :=
  match p with
  | Ret _ => s
  | Throw _ => s
  | Uncaught _ => s
  | Await r k =>
      {| st := st s; page := page s;
         pend := (pend s ++ [{| owner := o; req := r; cont := k |}])%list;
         trace := (trace s ++ [(o, ASend r)])%list |}
  | Run r cb k =>
      turn o k
        {| st := st s; page := page s;
           pend := (pend s ++ [{| owner := o; req := r; cont := cb |}])%list;
           trace := (trace s ++ [(o, ASend r)])%list |}
  | SetResult k txt p' =>
      turn o p'
        {| st := {| results := set_result k txt (results (st s));
                    completed := completed (st s);
                    reportEl := reportEl (st s) |};
           page := page s; pend := pend s;
           trace := (trace s ++ [(o, AWrite k txt)])%list |}
  | CheckDone p' =>
      let '(st', effs) := checkDone (st s) in
      turn o p'
        {| st := st'; page := (page s ++ effs)%list; pend := pend s;
           trace := (trace s ++ [(o, ACheck)])%list |}
  end.

Fixpoint remove_nth {A : Type} (i : nat) (l : list A) : list A :=
  match l, i with
  | [], _ => []
  | _ :: l', O => l'
  | a :: l', S i' => a :: remove_nth i' l'
  end.

(** The provider answers the [i]-th query in flight and its callback
    runs; nothing happens when there is no such query. *)
Definition deliver (env : providers) (i : nat) (s : sys) : sys :=
  match nth_error (pend s) i with
  | None => s
  | Some it =>
      turn (owner it) (cont it (env (req it)))
        {| st := st s; page := page s;
           pend := remove_nth i (pend s); trace := trace s |}
  end.

(** A schedule names, step after step, which query in flight is answered
    next. *)
Fixpoint run (env : providers) (sched : list nat) (s : sys) : sys :=
  match sched with
  | [] => s
  | i :: rest => run env rest (deliver env i s)
  end.

Section Handler.
Context `{RT : Runtime} `{TF : Turf}.
Variable latlng : LatLng.

Definition loadingText : string :=
  "<strong>Location:</strong><br>Lat: " ++ toFixed 5 (Fin (lat latlng))
  ++ ", Lng: " ++ toFixed 5 (Fin (lng latlng))
  ++ "<br><em>Loading hazard information...</em>".

(** The handler up to the first lookup: the spinner, the loading text and
    the fresh [results], [completed] and [reportEl]. *)
Definition click0 (hasReportEl : bool) : sys :=
  {| st := {| results := results0; completed := 0; reportEl := hasReportEl |};
     page := ShowSpinner :: (if hasReportEl then [InnerHTML loadingText] else []);
     pend := [];
     trace := [] |}.

(** The state the click handler leaves when it returns: every lookup has
    run up to its first query. *)
Definition click (hasReportEl : bool) : sys :=
  fold_left (fun s t => turn (fst t) (snd t) s)
            (tasks latlng)
            (click0 hasReportEl).

End Handler.

(** *** One lookup on its own *)

(** Everything [p] does when the providers answer as [env] says, in the
    order it does it; the callback of a [Run] comes after the code that
    registered it. *)
Fixpoint acts (env : providers) (p : prog unit) : list action :=
  match p with
  | Ret _ => []
  | Throw _ => []
  | Uncaught _ => []
  | Await r k => ASend r :: acts env (k (env r))
  | Run r cb k => (ASend r :: acts env k ++ acts env (cb (env r)))%list
  | SetResult k txt p' => AWrite k txt :: acts env p'
  | CheckDone p' => ACheck :: acts env p'
  end.

Definition sends (l : list action) : list request :=
  flat_map (fun a => match a with ASend r => [r] | _ => [] end) l.

Definition writes (l : list action) : list (slot * string) :=
  flat_map (fun a => match a with AWrite k txt => [(k, txt)] | _ => [] end) l.

Definition checks (l : list action) : nat :=
  List.length (filter (fun a => match a with ACheck => true | _ => false end) l).

(** The text the lookup of slot [k] leaves in [results.k]: its last write,
    or the initial text when it writes nothing. *)
Definition last_text (k : slot) (l : list action) (cur : string) : string :=
  fold_left (fun txt a =>
               match a with
               | AWrite k' t => if slot_eqb k' k then t else txt
               | _ => txt
               end) l cur.

Section Outcome.
Context `{RT : Runtime} `{TF : Turf}.
Variable latlng : LatLng.

(** The lookup of slot [k]. *)
Definition task_of (k : slot) : prog unit :=
  match find (fun t => slot_eqb (fst t) k)
             (tasks latlng) with
  | Some t => snd t
  | None => Ret tt
  end.

(** What the lookup of slot [k] does on its own. *)
Definition total (env : providers) (k : slot) : list action :=
  acts env (task_of k).

(** The text of slot [k] for the providers [env]; no schedule enters it. *)
Definition slot_text (env : providers) (k : slot) : string :=
  last_text k (total env k) (results0 k).

(** Whether the lookup of slot [k] ever calls [checkDone]. *)
Definition settles (env : providers) (k : slot) : bool :=
  (0 <? checks (total env k))%nat.

End Outcome.

(* ================================================================== *)
(** ** The EV-charger overlay: [debounce] and [createEvChargersLayer] *)
(* ================================================================== *)

Module EvChargers.

(** [UI.EV_FETCH_DEBOUNCE_MS]. *)
Definition EV_FETCH_DEBOUNCE_MS : Z := 600.

(** [charger.AddressInfo]; a coordinate is a number, a text, a boolean,
    [null], or [undefined] when it is missing. *)
Record AddressInfo : Type := { Latitude : jsval; Longitude : jsval }.

(** [charger.Connections]. *)
Inductive connections : Type :=
| NoConnections                                (* missing, null or another falsy value *)
| ConnectionArray (l : list (option object))   (* an array; an entry is [None] when it
                                                  is null or undefined *)
| NotArray.                                    (* another truthy value: it has no [forEach] *)

(** An entry of the OpenChargeMap answer, as far as the marker loop can
    stop on it; the popup of a marker is a function of its entry.
    [addressInfo] is [None] when [charger.AddressInfo] is falsy or a
    primitive, which has no coordinates; an entry that is itself a
    number, a text or a boolean reads as an entry without members. *)
Record charger : Type := {
  addressInfo : option AddressInfo;
  Connections : connections
}.

(** How a fetch ends. *)
Inductive outcome : Type :=
| Rejected                                   (* fetch rejects, or the body is not JSON *)
| Data (data : option (list (option charger))).
    (* the parsed body: [None] when it is not an array, a [None] entry
       when an element is null *)

(** [map.getBounds()]: south-west and north-east corners. *)
Definition bounds : Type := (Q * Q) * (Q * Q).

(** The variables of one controller and the part of the browser it
    uses. *)
Record state : Type := {
  isLoading : bool;
  hasLayer : bool;                 (* map.hasLayer(layer) *)
  markers : list charger;          (* the content of the layer group *)
  view : bounds;
  t : option nat;                  (* the variable [t] of [debounce] *)
  next_timer : nat;                (* the next timer id the browser hands out *)
  timers : list (nat * Z);         (* active timers: id and due time in ms *)
  inflight : list bounds;          (* fetches started and not yet settled *)
  started : list (Z * bounds)      (* every call of [fetch]: when and for which bounds *)
}.

Definition with_timers (s : state) (t' : option nat) (n : nat) (ts : list (nat * Z))
  : state :=
  {| isLoading := isLoading s; hasLayer := hasLayer s; markers := markers s;
     view := view s; t := t'; next_timer := n; timers := ts;
     inflight := inflight s; started := started s |}.

Section Controller.
Context `{RT : Runtime}.

(** [enabled()]. *)
Definition enabled (s : state) : bool := hasLayer s.

(** [fetchInView()] up to the call of [fetch]; the handlers of the
    promise are [settle]. *)
Definition fetchInView (now : Z) (s : state) : state :=
  if negb (enabled s) then s
  else if isLoading s then s
  else
    {| isLoading := true; hasLayer := hasLayer s; markers := markers s;
       view := view s; t := t s; next_timer := next_timer s; timers := timers s;
       inflight := (inflight s ++ [view s])%list;
       started := (started s ++ [(now, view s)])%list |}.

(** [(charger.Connections || []).forEach((c) => (totalPorts += c.Quantity || 1))],
    as far as it can throw. *)
Definition countPorts (cs : connections) : result unit :=
  match cs with
  | NoConnections => Ok tt
  | ConnectionArray l =>
      if forallb (fun c => match c with Some _ => true | None => false end) l
      then Ok tt else Raise TypeError
  | NotArray => Raise TypeError
  end.

(** [L.marker([lat, lng], ...)]: Leaflet's [LatLng] throws
    [Invalid LatLng object] when [isNaN] holds of a coordinate. *)
Definition marker (lat lng : jsval) : result (jsnum * jsnum) :=
  if isNaN (ToNumber lat) || isNaN (ToNumber lng) then Raise LibraryError
  else Ok (ToNumber lat, ToNumber lng).

(** The body of the loop [data.forEach] for one element: the element
    that gets a marker, [None] when it is skipped.  The equipment list
    maps over the array [forEach] has gone through and throws nowhere
    else. *)
Definition addMarker (c : option charger) : result (option charger) :=
  let* c := member c in
  let ai := match addressInfo c with
            | Some ai => ai
            | None => {| Latitude := JUndefined; Longitude := JUndefined |}
            end in
  if negb (truthy (Latitude ai)) || negb (truthy (Longitude ai)) then Ok None
  else
    let* _ := countPorts (Connections c) in
    let* _ := marker (Latitude ai) (Longitude ai) in
    Ok (Some c).

(** The loop [data.forEach] that adds the markers; [false] when an
    element throws, which ends the loop. *)
Fixpoint addMarkers (data : list (option charger)) (ms : list charger)
  : list charger * bool :=
  match data with
  | [] => (ms, true)
  | c :: rest =>
      match addMarker c with
      | Raise _ => (ms, false)
      | Ok None => addMarkers rest ms
      | Ok (Some m) => addMarkers rest (ms ++ [m])%list
      end
  end.

(** The [then] and [catch] handlers of the fetch that was started first
    among those in flight. *)
Definition settle (o : outcome) (s : state) : state :=
  match inflight s with
  | [] => s
  | _ :: rest =>
      let ms :=
        match o with
        | Rejected => markers s
        | Data None => []                              (* clearLayers(), then TypeError *)
        | Data (Some data) => fst (addMarkers data [])
        end in
      {| isLoading := false; hasLayer := hasLayer s; markers := ms;
         view := view s; t := t s; next_timer := next_timer s; timers := timers s;
         inflight := rest; started := started s |}
  end.

(** [setTimeout(cb, ms)] and [clearTimeout(id)]. *)
Definition setTimeout (ms now : Z) (s : state) : nat * state :=
  (next_timer s,
   with_timers s (t s) (S (next_timer s)) (timers s ++ [(next_timer s, now + ms)%Z]))%list.

Definition clearTimeout (id : nat) (s : state) : state :=
  with_timers s (t s) (next_timer s)
    (filter (fun tm => negb (Nat.eqb (fst tm) id)) (timers s)).

(** [fetchDebounced()], the function [debounce(fetchInView,
    UI.EV_FETCH_DEBOUNCE_MS)] returns. *)
Definition fetchDebounced (now : Z) (s : state) : state :=
  let s1 := match t s with
            | Some id => clearTimeout id s
            | None => s
            end in
  let '(id, s2) := setTimeout EV_FETCH_DEBOUNCE_MS now s1 in
  with_timers s2 (Some id) (next_timer s2) (timers s2).

(** The browser runs the callbacks of the timers that are due. *)
Definition fire_due (now : Z) (s : state) : state :=
  let due := filter (fun tm => (snd tm <=? now)%Z) (timers s) in
  let s' := with_timers s (t s) (next_timer s)
              (filter (fun tm => negb (snd tm <=? now)%Z) (timers s)) in
  fold_left (fun s tm => fetchInView (snd tm) s) due s'.

(** What happens to the controller. *)
Inductive event : Type :=
| Moveend (b : bounds)             (* the viewport changed *)
| OverlayAdd                       (* the user enabled the overlay *)
| OverlayRemove                    (* the user disabled the overlay *)
| Settled (o : outcome).           (* the fetch in flight ended *)

Definition set_layer (s : state) (b : bool) (ms : list charger) : state :=
  {| isLoading := isLoading s; hasLayer := b; markers := ms;
     view := view s; t := t s; next_timer := next_timer s; timers := timers s;
     inflight := inflight s; started := started s |}.

Definition set_view (s : state) (b : bounds) : state :=
  {| isLoading := isLoading s; hasLayer := hasLayer s; markers := markers s;
     view := b; t := t s; next_timer := next_timer s; timers := timers s;
     inflight := inflight s; started := started s |}.

(** The handlers [installHandlers] registers, and the handlers of the
    fetch. *)
Definition handle (now : Z) (e : event) (s : state) : state :=
  match e with
  | Moveend b => fetchDebounced now (set_view s b)
  | OverlayAdd => fetchInView now (set_layer s true (markers s))
  | OverlayRemove => set_layer s false []
  | Settled o => settle o s
  end.

(** The event loop: before an event at time [now] is handled, the timers
    due by then have fired. *)
Fixpoint run_events (evs : list (Z * event)) (s : state) : state :=
  match evs with
  | [] => s
  | (now, e) :: rest => run_events rest (handle now e (fire_due now s))
  end.

(** The controller as [createEvChargersLayer] leaves it. *)
Definition init (b : bounds) (shown : bool) : state :=
  {| isLoading := false; hasLayer := shown; markers := []; view := b;
     t := None; next_timer := 1; timers := []; inflight := []; started := [] |}.

End Controller.

(** A burst: events at non-decreasing times from [from] on, each less than
    [gap] after the one before. *)
Fixpoint burst (gap from : Z) (times : list Z) : Prop :=
  match times with
  | [] => True
  | tm :: rest => (from <= tm < from + gap)%Z /\ burst gap tm rest
  end.

End EvChargers.

(* ================================================================== *)
(** ** Instances for the examples *)
(* ================================================================== *)

Module Examples.

(** A flat stand-in for Turf: positions are pairs of rationals, the
    nearest point of a line is its nearest vertex and the distance is
    the taxicab distance.  A ring with fewer than four positions is
    rejected, as [turf.polygon] does. *)
Definition position (c : coords) : result (Q * Q) :=
  match c with
  | CArr [CNum x; CNum y] => Ok (x, y)
  | _ => Raise LibraryError
  end.

Fixpoint positions (l : list coords) : result (list (Q * Q)) :=
  match l with
  | [] => Ok []
  | c :: l' =>
      let* p := position c in
      let* ps := positions l' in
      Ok (p :: ps)
  end.

Definition ring (c : coords) : result (list (Q * Q)) :=
  match c with
  | CArr l => if (List.length l <? 4)%nat then Raise LibraryError else positions l
  | CNum _ => Raise LibraryError
  end.

Fixpoint rings (l : list coords) : result (list (list (Q * Q))) :=
  match l with
  | [] => Ok []
  | c :: l' =>
      let* r := ring c in
      let* rs := rings l' in
      Ok (r :: rs)
  end.

Definition polygon (c : coords) : result (list (list (Q * Q))) :=
  match c with
  | CArr l => rings l
  | CNum _ => Raise LibraryError
  end.

Fixpoint polygons (l : list coords) : result (list (list (Q * Q))) :=
  match l with
  | [] => Ok []
  | c :: l' =>
      let* r := polygon c in
      let* rs := polygons l' in
      Ok (r ++ rs)%list
  end.

Definition multiPolygon (c : coords) : result (list (list (Q * Q))) :=
  match c with
  | CArr l => polygons l
  | CNum _ => Raise LibraryError
  end.

Definition taxicab (a b : Q * Q) : Q :=
  Qabs (fst a - fst b) + Qabs (snd a - snd b).

Definition nearestVertex (line : list (list (Q * Q))) (p : Q * Q) : result (Q * Q) :=
  match List.concat line with
  | [] => Raise LibraryError
  | v :: vs =>
      Ok (fold_left (fun best w => if Qltb (taxicab p w) (taxicab p best) then w else best)
                    vs v)
  end.

Definition turf : Turf :=
  {| TurfPoint := Q * Q;
     TurfPolygon := list (list (Q * Q));
     TurfLine := list (list (Q * Q));
     turf_point := fun p => p;
     turf_polygon := polygon;
     turf_multiPolygon := multiPolygon;
     turf_polygonToLine := fun p => Ok p;
     turf_nearestPointOnLine := nearestVertex;
     turf_distance_miles := fun a b => Ok (Fin (taxicab a b)) |}.

Definition runtime : Runtime := example_runtime.

(** The point clicked. *)
Definition here : LatLng := {| lat := 0; lng := 0 |}.

(** A square of side 2 whose lower left corner is at [(x, y)]. *)
Definition square (x y : Q) : Geometry :=
  {| type := "Polygon";
     coordinates :=
       CArr [CArr [CArr [CNum x; CNum y]; CArr [CNum (x + 2); CNum y];
                   CArr [CNum (x + 2); CNum (y + 2)]; CArr [CNum x; CNum (y + 2)];
                   CArr [CNum x; CNum y]]] |}.

Definition zone (field name : string) (g : Geometry) : Feature :=
  {| geometry := Some g; properties := Some [(field, JStr name)] |}.

Definition answer (fs : list Feature) : response :=
  {| err := None;
     fc := Some {| features := Some fs; res_value := JUndefined |};
     raw := None |}.

Definition failure : response :=
  {| err := Some "timeout"; fc := None; raw := None |}.

(** An answer without error whose body has no [features] member. *)
Definition malformed : response :=
  {| err := None;
     fc := Some {| features := None; res_value := JUndefined |};
     raw := None |}.

Definition pointFeature : Feature :=
  {| geometry := Some {| type := "Point"; coordinates := CArr [CNum 1; CNum 1] |};
     properties := Some [("ESRI_SYMBOLOGY", JStr "a point")] |}.

(** Providers of a quiet day: the click is outside every hazard zone,
    two flood zones and two fire zones are nearby, the tract has its
    three indicators, and both identify services answer. *)
Definition env_ok : providers := fun r =>
  match r with
  | Contains ozoneLayer | Contains pmLayer | Contains drinkLayer =>
      answer [{| geometry := None;
                 properties := Some [("ozone", JNum (Fin (47 # 1000)));
                                     ("ozoneP", JNum (Fin (613 # 10)));
                                     ("pm", JNum (Fin (8123 # 1000)));
                                     ("drink", JNum (Fin 512)); ("drinkP", JNull)] |}]
  | Contains _ => answer []
  | Nearby floodLayer _ =>
      answer [zone "ESRI_SYMBOLOGY" "Zone A" (square 3 4); pointFeature;
              zone "ESRI_SYMBOLOGY" "Zone B" (square 1 1);
              zone "ESRI_SYMBOLOGY" "Zone C" (square (-1) (-3))]
  | Nearby fireHazardLRA _ => answer [zone "FHSZ_Description" "High" (square 5 5)]
  | Nearby fireHazardSRA _ => answer [zone "FHSZ_Description" "Very High" (square 2 1)]
  | Nearby _ _ => answer []
  | IdentifyLandslide =>
      {| err := None;
         fc := Some {| features := Some []; res_value := JUndefined |};
         raw := Some {| pixel := None; raw_value := JUndefined;
                        raw_results :=
                          Some [Some {| result_value := JStr "7";
                                        attributes :=
                                          AttrsObject [("Pixel Value", JStr "7")] |}] |} |}
  | IdentifyMMI =>
      {| err := None; fc := None;
         raw := Some {| pixel := Some {| pixel_value := JStr "7.46" |};
                        raw_value := JUndefined; raw_results := None |} |}
  end.

(** The same day, but the flood provider answers the proximity query
    with a body that has no [features]. *)
Definition env_flood_malformed : providers := fun r =>
  match r with
  | Nearby floodLayer _ => malformed
  | _ => env_ok r
  end.

(** Every provider reports an error. *)
Definition env_down : providers := fun _ => failure.

(** The click is inside a flood zone and inside an LRA fire zone. *)
Definition floodAE : Feature := zone "ESRI_SYMBOLOGY" "AE" (square (-1) (-1)).
Definition fireVeryHigh : Feature := zone "FHSZ_Description" "Very High" (square (-1) (-1)).
Definition fireModerate : Feature := zone "FHSZ_Description" "Moderate" (square (-1) (-1)).

Definition env_inside : providers := fun r =>
  match r with
  | Contains floodLayer => answer [floodAE; zone "ESRI_SYMBOLOGY" "X" (square (-1) (-1))]
  | Contains fireHazardLRA => answer [fireVeryHigh; fireModerate]
  | _ => env_ok r
  end.

(** The click is inside an SRA fire zone only. *)
Definition env_sra : providers := fun r =>
  match r with
  | Contains fireHazardSRA => answer [fireModerate]
  | _ => env_ok r
  end.

(** Three viewport events 100 ms and 550 ms apart. *)
Definition someBounds : EvChargers.bounds := ((32, -124), (42, -114))%Q.
Definition pans : list (Z * EvChargers.bounds) :=
  [(100%Z, ((33, -124), (43, -114))%Q); (650%Z, ((34, -124), (44, -114))%Q)].

Definition start : sys := @click runtime turf here true.

End Examples.


Open Scope nat_scope.

(* ================================================================== *)
(** ** Vocabulary of the statements *)
(* ================================================================== *)

(** What the lookup of slot [o] has done so far in a run. *)
Definition proj (o : slot) (t : list (slot * action)) : list action :=
  map snd (filter (fun x => slot_eqb (fst x) o) t).

Definition owners (l : list item) : list slot := map owner l.

(** What the queries in flight of slot [o] will still do. *)
Definition fut (env : providers) (l : list item) (o : slot) : list action :=
  flat_map (fun it => if slot_eqb (owner it) o
                      then acts env (cont it (env (req it))) else []) l.

Definition count_all (f : slot -> nat) : nat :=
  f fire + f flood + f ozone + f pm + f drink + f landslide + f shaking.

(** The code ends here: it returns, throws, or is left waiting for a
    promise that stays pending. *)
Definition ends {A : Type} (p : prog A) : Prop :=
  match p with
  | Ret _ | Throw _ | Uncaught _ => True
  | _ => False
  end.

(** [p] only writes slot [o], calls [checkDone] at most once and last,
    and never has two queries in flight. *)
Fixpoint orderly (o : slot) (p : prog unit) : Prop :=
  match p with
  | Ret _ | Throw _ | Uncaught _ => True
  | Await _ k => forall x, orderly o (k x)
  | Run _ cb k => (forall x, orderly o (cb x)) /\ ends k
  | SetResult o' _ k => o' = o /\ orderly o k
  | CheckDone k => ends k
  end.

(** [p] only awaits and writes slot [o], and every promise it awaits
    settles. *)
Fixpoint writer (o : slot) {A : Type} (p : prog A) : Prop :=
  match p with
  | Ret _ | Throw _ => True
  | Uncaught _ => False
  | Await _ k => forall x, writer o (k x)
  | Run _ _ _ => False
  | SetResult o' _ k => o' = o /\ writer o k
  | CheckDone _ => False
  end.

(** [p] returns on every path: no exception leaves it, caught or not. *)
Fixpoint nothrow {A : Type} (p : prog A) : Prop :=
  match p with
  | Ret _ => True
  | Throw _ | Uncaught _ => False
  | Await _ k => forall x, nothrow (k x)
  | Run _ _ k => nothrow k
  | SetResult _ _ k => nothrow k
  | CheckDone k => nothrow k
  end.

(** On every path [p] only writes slot [o] and then calls [checkDone]
    once, as its last act. *)
Fixpoint settling (o : slot) (p : prog unit) : Prop :=
  match p with
  | Ret _ | Throw _ | Uncaught _ => False
  | Await _ k => forall x, settling o (k x)
  | Run _ _ _ => False
  | SetResult o' _ k => o' = o /\ settling o k
  | CheckDone k => ends k
  end.

(** The value a piece of code yields when the providers answer as [env]
    says, or the exception that stops it. *)
Fixpoint value {A : Type} (env : providers) (p : prog A) : result A :=
  match p with
  | Ret a => Ok a
  | Throw e | Uncaught e => Raise e
  | Await r k => value env (k (env r))
  | Run _ _ k => value env k
  | SetResult _ _ k => value env k
  | CheckDone k => value env k
  end.

(** The queries in flight weigh as many answers as they still need. *)
Definition weight (env : providers) (l : list item) : nat :=
  list_sum (map (fun it => S (List.length (sends (acts env (cont it (env (req it))))))) l).

Section RunVocabulary.
Context `{RT : Runtime} `{TF : Turf}.
Variable latlng : LatLng.
Variable env : providers.
Variable hasReportEl : bool.

(** The page before any lookup settles. *)
Definition page0 : list effect := page (click0 latlng hasReportEl).

(** What the seventh [checkDone] adds to the page: the report, every slot
    with the text of its own lookup, in the static order. *)
Definition final_page : list effect :=
  ((if hasReportEl
    then [InnerHTML (report_html (slot_text latlng env))]
    else []) ++ [HideSpinner])%list.

(** How often the lookup of slot [k] has called [checkDone] so far. *)
Definition done_by (s : sys) (k : slot) : nat := checks (proj k (trace s)).

(** What holds of the state between any two steps of any run. *)
Record Common (s : sys) : Prop := {
  c_nodup : NoDup (owners (pend s));
  c_orderly : forall it, In it (pend s) -> forall x, orderly (owner it) (cont it x);
  c_waiting : forall k, In k (owners (pend s)) -> done_by s k = 0;
  c_once : forall k, done_by s k <= 1;
  c_results : forall k,
      results (st s) k = last_text k (proj k (trace s)) (results0 k);
  c_completed : completed (st s) = count_all (done_by s);
  c_reportEl : reportEl (st s) = hasReportEl;
  c_page : page s =
           (page0 ++ (if 7 <=? completed (st s) then final_page else []))%list
}.

Definition Inv (s : sys) : Prop :=
  Common s /\
  forall k, (proj k (trace s) ++ fut env (pend s) k)%list
            = total latlng env k.

(** The same in the middle of a turn of the lookup of slot [o], when [p]
    is the code that is left to run. *)
Definition Mid (o : slot) (p : prog unit) (s : sys) : Prop :=
  Common s /\ orderly o p /\ ~ In o (owners (pend s)) /\ done_by s o = 0 /\
  (proj o (trace s) ++ acts env p)%list
    = total latlng env o /\
  forall k, k <> o ->
            (proj k (trace s) ++ fut env (pend s) k)%list
            = total latlng env k.

End RunVocabulary.

(** *** The nearest feature *)

Section NearestVocabulary.
Variable rank : Feature -> result jsnum.

(** [f], at distance [d], is the first feature of [fs] at the least finite
    distance: every feature before it is strictly farther, none after it
    is strictly nearer. *)
Definition nearest_in (fs : list Feature) (f : Feature) (d : jsnum) : Prop :=
  exists l1 l2,
    fs = (l1 ++ f :: l2)%list /\ rank f = Ok d /\ isFinite d = true /\
    (forall g d', In g l1 -> rank g = Ok d' -> isFinite d' = true -> lt d d' = true) /\
    (forall g d', In g l2 -> rank g = Ok d' -> isFinite d' = true -> lt d' d = false).

(** No feature of [fs] has a finite distance. *)
Definition none_finite (fs : list Feature) : Prop :=
  forall g d', In g fs -> rank g = Ok d' -> isFinite d' = false.

End NearestVocabulary.

Section OutcomeVocabulary.
Context `{RT : Runtime} `{TF : Turf}.

(** The text of a nearest-search over the features [fs]: the not-found
    text when none can be ranked, the text of the nearest one
    otherwise. *)
Definition nearest_outcome (latlng : LatLng) (label fieldName : string)
  (fs : list Feature) (txt : string) : Prop :=
  (none_finite (edgeDistance latlng) fs /\ txt = notFoundText label) \/
  (exists f props d,
     nearest_in (edgeDistance latlng) fs f d /\ properties f = Some props /\
     txt = nearestText label (get props fieldName) d).

(** The features of a proximity answer that [nearestByEdgeDistanceAcross]
    looks at. *)
Definition usable (res : response) : list Feature :=
  match err res with
  | Some _ => []
  | None => featuresOf res
  end.

End OutcomeVocabulary.

(** *** What the lookups compute *)

(** [p] only awaits. *)
Fixpoint quiet {A : Type} (p : prog A) : Prop :=
  match p with
  | Ret _ | Throw _ => True
  | Await _ k => forall x, quiet (k x)
  | _ => False
  end.

(** The queries [p] sends when the providers answer as [env] says. *)
Fixpoint asks {A : Type} (env : providers) (p : prog A) : list request :=
  match p with
  | Ret _ | Throw _ | Uncaught _ => []
  | Await r k => r :: asks env (k (env r))
  | Run r _ k => r :: asks env k
  | SetResult _ _ k => asks env k
  | CheckDone k => asks env k
  end.

Section LookupVocabulary.
Context `{RT : Runtime} `{TF : Turf}.
Variable latlng : LatLng.

(** The text the callback of [getClosestFeatureByEdgeDistance] hands to
    [callback] for the answer [res], when it gets that far. *)
Definition closest_text (label fieldName : string) (res : response) : result string :=
  let* found := has_features res in
  if found : bool then
    let* fs := response_features res in
    let* r := closest_loop latlng fs PInf None in
    match snd r with
    | Some bestFeature =>
        let* props := member (properties bestFeature) in
        Ok (nearestText label (get props fieldName) (fst r))
    | None => Ok (notFoundText label)
    end
  else Ok (notFoundText label).

(** A write of [txt], or of the error text of the [catch] block when the
    text could not be computed, followed by [checkDone]. *)
Definition settle_with (k : slot) (txt : result string) : list action :=
  match txt with
  | Ok t => [AWrite k t; ACheck]
  | Raise _ => [AWrite k (errorText k); ACheck]
  end.

(** The same where nothing is written when there is nothing to show. *)
Definition settle_with_opt (k : slot) (txt : result (option string)) : list action :=
  match txt with
  | Ok (Some t) => [AWrite k t; ACheck]
  | Ok None => [ACheck]
  | Raise _ => [AWrite k (errorText k); ACheck]
  end.

(** The text of a slot whose point is inside a zone. *)
Definition fire_inside (whichArea : string) (res : response) : result string :=
  let* zone := first_property res "FHSZ_Description" in
  Ok (fmtFireInside zone whichArea).

Definition flood_inside (res : response) : result string :=
  let* zone := first_property res "ESRI_SYMBOLOGY" in
  Ok (fmtFloodInside zone).

(** The text of a CalEnviroScreen slot for the answer [res]; [None] when
    the answer has no feature. *)
Definition calenviro_text (indicatorKey title valueKey pctKey unit note : string)
  (digits : nat) (res : response) : result (option string) :=
  let* found := has_features res in
  if found : bool then
    let* p := first_properties res in
    let* v := toFixed_or_unknown digits (get p valueKey) in
    Ok (Some (fmtCalEnviro indicatorKey title (v ++ unit)
                (round_or_unknown (get p pctKey)) note))
  else Ok None.

Definition ozone_text : response -> result (option string) :=
  calenviro_text "ozone" "Ozone (Ground-Level)" "ozone" "ozoneP" " ppm"
    "<em>(Data from 2017–2019)</em>" 3.

Definition pm_text : response -> result (option string) :=
  calenviro_text "pm" "PM2.5 (Fine Particulate Matter)" "pm" "pmP" " µg/m³"
    "<em>(Data from 2015–2017)</em>" 2.

Definition drink_text : response -> result (option string) :=
  calenviro_text "drink" "Drinking Water Contaminants" "drink" "drinkP" EmptyString
    "<em>(Data from 2011–2019 compliance cycle)</em>" 2.

(** The features both fire layers offer to the nearest-search. *)
Definition fire_candidates (env : providers) : list Feature :=
  (usable (env (Nearby fireHazardLRA NEARBY_METERS))
   ++ usable (env (Nearby fireHazardSRA NEARBY_METERS)))%list.

(** Whether [parseLandslideLabelFromIdentify] throws on an answer of the
    landslide identify that came without error. *)
Definition parser_throws (res : response) : bool :=
  match err res with
  | Some _ => false
  | None =>
      match Landslide.parseLandslideLabelFromIdentify (raw res) (fc res) with
      | Ok _ => false
      | Raise _ => true
      end
  end.

End LookupVocabulary.

(** *** The boundary of a geometry *)

Section BoundaryVocabulary.
Context `{TF : Turf}.

(** The line [getDistanceToPolygonEdge] measures to: the boundary of a
    polygon or of a multipolygon, as Turf builds it. *)
Definition boundary (geom : Geometry) : result TurfLine :=
  if String.eqb (type geom) "Polygon" then
    let* p := turf_polygon (coordinates geom) in turf_polygonToLine p
  else
    let* p := turf_multiPolygon (coordinates geom) in turf_polygonToLine p.

End BoundaryVocabulary.

(** Texts made of decimal digits only, and the number such a text writes
    after the digits already read. *)
Fixpoint all_digits (s : string) : bool :=
  match s with
  | String c r => match digit_val c with Some _ => all_digits r | None => false end
  | EmptyString => true
  end.

Fixpoint decimal_from (s : string) (acc : N) : N :=
  match s with
  | String c r =>
      match digit_val c with
      | Some v => decimal_from r (acc * 10 + v)%N
      | None => acc
      end
  | EmptyString => acc
  end.

Module EvVocabulary.
Import EvChargers.

(** The busy flag says whether a fetch is in flight, and there is never
    more than one. *)
Definition calm (s : state) : Prop :=
  (isLoading s = true /\ exists b, inflight s = [b]) \/
  (isLoading s = false /\ inflight s = []).

(** The controller [s] between two events of a burst that began in the
    state [s0] and whose last event came at [now] with the bounds [b]:
    nothing was fetched, and one timer is set, due a quiet period after
    [now]. *)
Definition armed (s0 : state) (now : Z) (b : bounds) (s : state) : Prop :=
  isLoading s = isLoading s0 /\ hasLayer s = hasLayer s0 /\
  inflight s = inflight s0 /\ started s = started s0 /\ view s = b /\
  exists id, t s = Some id /\ timers s = [(id, (now + EV_FETCH_DEBOUNCE_MS)%Z)].

(** The viewport events of a burst. *)
Definition moves (ms : list (Z * bounds)) : list (Z * event) :=
  map (fun m => (fst m, Moveend (snd m))) ms.

(** A charger with a place on the map: both coordinates are truthy. *)
Definition located (c : charger) : bool :=
  match addressInfo c with
  | Some ai => truthy (Latitude ai) && truthy (Longitude ai)
  | None => false
  end.

Section Markers.
Context `{RT : Runtime}.

(** A charger the marker loop can draw: its connections are missing or
    an array without null entries, and its coordinates convert to
    numbers. *)
Definition drawable (c : charger) : bool :=
  match Connections c with
  | NoConnections => true
  | ConnectionArray l =>
      forallb (fun x => match x with Some _ => true | None => false end) l
  | NotArray => false
  end
  && match addressInfo c with
     | Some ai =>
         negb (isNaN (ToNumber (Latitude ai))) && negb (isNaN (ToNumber (Longitude ai)))
     | None => true
     end.

(** The entries of an answer up to the first one that is null or a
    located charger that cannot be drawn. *)
Fixpoint reached (data : list (option charger)) : list charger :=
  match data with
  | [] => []
  | None :: _ => []
  | Some c :: rest =>
      if located c && negb (drawable c) then [] else c :: reached rest
  end.

End Markers.

End EvVocabulary.


(* ================================================================== *)
(** ** Layer styles and the legend *)
(* ================================================================== *)

Module Styles.

(** [a >= b] on numbers: false as soon as one side is [NaN]. *)
Definition ge (a b : jsnum) : bool :=
  match a, b with
  | NaN, _ | _, NaN => false
  | _, _ => negb (JS.lt a b)
  end.

Section Ramp.
Context `{RT : Runtime}.

(** [cesRamp(p)]; the comparison converts [p] to a number. *)
Definition cesRamp (p : jsval) : string :=
  let p := ToNumber p in
  if ge p (Fin 90) then "#08306b"
  else if ge p (Fin 80) then "#08519c"
  else if ge p (Fin 70) then "#2171b5"
  else if ge p (Fin 60) then "#4292c6"
  else if ge p (Fin 50) then "#6baed6"
  else if ge p (Fin 40) then "#9ecae1"
  else if ge p (Fin 30) then "#c6dbef"
  else if ge p (Fin 20) then "#deebf7"
  else if ge p (Fin 10) then "#f7fbff"
  else "#ffffcc".

(** The icon of an active fire, [pointToLayer] of
    [createActiveFiresLayer]: its size and class for
    [geojson.properties.IncidentSize]. *)
Definition fireIcon (incidentSize : jsval) : Z * string :=
  let acres := if truthy incidentSize then ToNumber incidentSize else Fin 0 in
  if ge acres (Fin 10000) then (60, "fire-icon fire-icon-xl")%Z
  else if ge acres (Fin 1000) then (50, "fire-icon fire-icon-lg")%Z
  else if ge acres (Fin 100) then (40, "fire-icon fire-icon-md")%Z
  else (30, "fire-icon fire-icon-sm")%Z.

End Ramp.

(** The swatches of the CalEnviroScreen ramp in the legend panel of
    [addLegendControls], left to right; the ramp is labelled from 0–10
    to 90–100. *)
Definition cesLegend : list string :=
  ["#ffffcc"; "#f7fbff"; "#deebf7"; "#c6dbef"; "#9ecae1";
   "#6baed6"; "#4292c6"; "#2171b5"; "#08519c"; "#08306b"].

End Styles.

(* ================================================================== *)
(** ** Coded domains of the universities layer *)
(* ================================================================== *)

Module Universities.

Record CodedValue : Type := { code : jsval; cv_name : jsval }.

(** [f.domain]: [codedValues] is [None] when it is missing, an entry is
    [None] when it is null. *)
Record Domain : Type := {
  domain_type : jsval;
  codedValues : option (list (option CodedValue))
}.

Record Field : Type := { name : jsval; domain : option Domain }.

(** The metadata of the layer: [fields] is [None] when [md.fields] is
    not an array. *)
Record Metadata : Type := { fields : option (list (option Field)) }.

(** [collegeDomains]: for a field name, the dictionary from the text of
    a code to its name.  Both are objects used as maps of their own
    members: what a plain object inherits ([constructor], [toString],
    ...) is not modelled. *)
Definition domains : Type := list (string * object).

(** [o[k] = v]. *)
Definition put {A : Type} (k : string) (v : A) (o : list (string * A))
  : list (string * A) :=
  (filter (fun kv => negb (String.eqb (fst kv) k)) o ++ [(k, v)])%list.

(** [o[k]], [None] when the key is missing. *)
Definition lookup {A : Type} (o : list (string * A)) (k : string) : option A :=
  match find (fun kv => String.eqb (fst kv) k) o with
  | Some kv => Some (snd kv)
  | None => None
  end.

Section Domains.
Context `{RT : Runtime}.

(** [f.domain.codedValues.forEach((cv) => (dict[String(cv.code)] = cv.name))]. *)
Fixpoint codedValues_loop (cvs : list (option CodedValue)) (dict : object)
  : result object :=
  match cvs with
  | [] => Ok dict
  | None :: _ => Raise TypeError
  | Some cv :: rest =>
      codedValues_loop rest (put (ToString (code cv)) (cv_name cv) dict)
  end.

(** [md.fields.forEach(...)]: the dictionaries stored so far, and the
    exception that stopped the loop when there is one. *)
Fixpoint fields_loop (fs : list (option Field)) (collegeDomains : domains)
  : domains * option exn :=
  match fs with
  | [] => (collegeDomains, None)
  | None :: _ => (collegeDomains, Some TypeError)
  | Some f :: rest =>
      match domain f with
      | Some dom =>
          match domain_type dom with
          | JStr "codedValue" =>
              match codedValues dom with
              | None => (collegeDomains, Some TypeError)
              | Some cvs =>
                  match codedValues_loop cvs [] with
                  | Ok dict =>
                      fields_loop rest (put (ToString (name f)) dict collegeDomains)
                  | Raise e => (collegeDomains, Some e)
                  end
              end
          | _ => fields_loop rest collegeDomains
          end
      | None => fields_loop rest collegeDomains
      end
  end.

(** [buildDomainMaps(md)]. *)
Definition buildDomainMaps (md : option Metadata) (collegeDomains : domains)
  : domains * option exn :=
  match md with
  | None => (collegeDomains, None)
  | Some m =>
      match fields m with
      | None => (collegeDomains, None)
      | Some fs => fields_loop fs collegeDomains
      end
  end.

(** [decodeDomain(fieldName, value)]. *)
Definition decodeDomain (collegeDomains : domains) (fieldName : string)
  (value : jsval) : jsval :=
  match value with
  | JNull | JUndefined => JStr "N/A"
  | _ =>
      match lookup collegeDomains fieldName with
      | None => JStr (ToString value)
      | Some dict =>
          match get dict (ToString value) with
          | JNull | JUndefined => JStr (ToString value)
          | v => v
          end
      end
  end.

End Domains.

End Universities.

(* ================================================================== *)
(** ** Zoom visibility: [toggleAtZoom] and the handlers of [main] *)
(* ================================================================== *)

Module Zoom.

(** The keys of [LAYERS]. *)
Inductive overlay : Type :=
| landslideLayer | shakingLayer | faultsLayer | floodLayer
| fireHazardSRA | fireHazardLRA | fireHazardLayer | activeFires
| ozoneLayer | pmLayer | drinkLayer
| highwayLayer | allRoadsLayer
| schoolsLayer | healthCenters | airports | powerPlants
| stateBridges | localBridges | parks | fireStations | universities
| evChargers.

Definition index (l : overlay) : nat :=
  match l with
  | landslideLayer => 0 | shakingLayer => 1 | faultsLayer => 2 | floodLayer => 3
  | fireHazardSRA => 4 | fireHazardLRA => 5 | fireHazardLayer => 6
  | activeFires => 7 | ozoneLayer => 8 | pmLayer => 9 | drinkLayer => 10
  | highwayLayer => 11 | allRoadsLayer => 12 | schoolsLayer => 13
  | healthCenters => 14 | airports => 15 | powerPlants => 16
  | stateBridges => 17 | localBridges => 18 | parks => 19
  | fireStations => 20 | universities => 21 | evChargers => 22
  end.

(** [a === b] on layers. *)
Definition same (a b : overlay) : bool := Nat.eqb (index a) (index b).

(** The map: its zoom and the layers it shows. *)
Record Map : Type := { zoom : Q; layers : list overlay }.

Definition getZoom (m : Map) : Q := zoom m.

Definition hasLayer (m : Map) (l : overlay) : bool := existsb (same l) (layers m).

(** [map.addLayer(l)] does nothing for a layer the map has. *)
Definition addLayer (m : Map) (l : overlay) : Map :=
  if hasLayer m l then m
  else {| zoom := zoom m; layers := (layers m ++ [l])%list |}.

Definition removeLayer (m : Map) (l : overlay) : Map :=
  {| zoom := zoom m; layers := filter (fun x => negb (same x l)) (layers m) |}.

Definition ZOOM_ROADS_SWITCH : Q := 10.
Definition ZOOM_POI_MIN : Q := 14.

(** The handler [toggleAtZoom(map, layer, minZoom)] registers for
    [zoomend]. *)
Definition toggleAtZoom (layer : overlay) (minZoom : Q) (m : Map) : Map :=
  if Qle_bool minZoom (getZoom m) then
    (if negb (hasLayer m layer) then addLayer m layer else m)
  else
    (if hasLayer m layer then removeLayer m layer else m).

(** The [zoomend] handler of [main] for the roads. *)
Definition roads (m : Map) : Map :=
  let z := getZoom m in
  if Qle_bool z ZOOM_ROADS_SWITCH then
    let m1 := if hasLayer m allRoadsLayer then removeLayer m allRoadsLayer else m in
    if negb (hasLayer m1 highwayLayer) then addLayer m1 highwayLayer else m1
  else
    let m1 := if negb (hasLayer m allRoadsLayer) then addLayer m allRoadsLayer else m in
    if hasLayer m1 highwayLayer then removeLayer m1 highwayLayer else m1.

(** The layers [main] passes to [toggleAtZoom], in its order. *)
Definition pois : list overlay :=
  [schoolsLayer; stateBridges; localBridges; healthCenters; airports;
   powerPlants; evChargers; universities; fireStations; parks].

(** The [zoomend] handlers [main] registers, in the order it registers
    them. *)
Definition handlers : list (Map -> Map) :=
  roads :: List.map (fun l => toggleAtZoom l ZOOM_POI_MIN) pois.

(** A [zoomend] event: the handlers run in the order of registration. *)
Definition zoomend (m : Map) : Map :=
  fold_left (fun m h => h m) handlers m.

(** The zoom changes to [z] and [zoomend] fires. *)
Definition zoomTo (z : Q) (m : Map) : Map :=
  zoomend {| zoom := z; layers := layers m |}.

(** The user ticks or unticks a box of the layers control. *)
Inductive action : Type :=
| Tick (l : overlay)
| Untick (l : overlay)
| ZoomTo (z : Q).

Definition act (a : action) (m : Map) : Map :=
  match a with
  | Tick l => addLayer m l
  | Untick l => removeLayer m l
  | ZoomTo z => zoomTo z m
  end.

(** The map when [main] ends: the default view, no overlay, and
    [map.fire("zoomend")]. *)
Definition DEFAULT_ZOOM : Q := 6.

Definition started : Map := zoomend {| zoom := DEFAULT_ZOOM; layers := [] |}.

End Zoom.

(* ================================================================== *)
(** ** The faults group: [syncToZoom] *)
(* ================================================================== *)

Module Faults.

Inductive source : Type := regional | local.

Definition SWITCH_ZOOM : Q := 11.

(** The group, the part of the map it reads, and how many times
    [syncToZoom] is registered for [zoomend]. *)
Record state : Type := {
  zoom : Q;
  onMap : bool;                    (* map.hasLayer(group) *)
  group : list source;             (* the layers of the group *)
  listening : nat
}.

(** [syncToZoom()]: [bringToFront] changes no variable. *)
Definition syncToZoom (s : state) : state :=
  let wantLocal := Qle_bool SWITCH_ZOOM (zoom s) in
  {| zoom := zoom s; onMap := onMap s;
     group := [if wantLocal then local else regional];
     listening := listening s |}.

(** The handler of [group.on("add")]. *)
Definition onAdd (s : state) : state :=
  let s' := syncToZoom s in
  {| zoom := zoom s'; onMap := onMap s'; group := group s';
     listening := S (listening s') |}.

(** The handler of [group.on("remove")]. *)
Definition onRemove (s : state) : state :=
  {| zoom := zoom s; onMap := onMap s; group := [];
     listening := pred (listening s) |}.

Inductive event : Type :=
| Enable                    (* the group is added to the map *)
| Disable                   (* the group is removed from the map *)
| Zoomend (z : Q).          (* the zoom changed to [z] *)

(** The map fires [add] and [remove] only when the group comes or goes;
    a [zoomend] runs every registered [syncToZoom]. *)
Definition handle (e : event) (s : state) : state :=
  match e with
  | Enable =>
      if onMap s then s
      else onAdd {| zoom := zoom s; onMap := true; group := group s;
                    listening := listening s |}
  | Disable =>
      if onMap s
      then onRemove {| zoom := zoom s; onMap := false; group := group s;
                       listening := listening s |}
      else s
  | Zoomend z =>
      Nat.iter (listening s) syncToZoom
        {| zoom := z; onMap := onMap s; group := group s;
           listening := listening s |}
  end.

Definition run (evs : list event) (s : state) : state :=
  fold_left (fun s e => handle e s) evs s.

(** The group as [createFaultsInteractiveLayer] leaves it. *)
Definition init (z : Q) : state :=
  {| zoom := z; onMap := false; group := []; listening := 0 |}.

End Faults.

(* ================================================================== *)
(** ** The popup of a fault: [normalizeKey], [scoreKey], [pickBestKey] *)
(* ================================================================== *)

Module FaultPopup.

Definition NAME_HINTS : list string :=
  ["fault"; "name"; "faultname"; "fault_name"; "fault_name_";
   "faultnam"; "faultnm"; "faultnm_"; "fault_nm"; "f_name"].

Definition AGE_HINTS : list string :=
  ["age"; "activity"; "recency"; "holocene"; "pleistocene";
   "quaternary"; "time"; "ageclass"; "age_class"; "age_desc";
   "ageofmove"; "age_of_move"; "most_recent"; "last_movement";
   "sliprate"; "slip_rate"].

(** A character that [/[^a-z0-9]/] does not match. *)
Definition alnum (c : ascii) : bool :=
  let n := N_of_ascii c in
  (((97 <=? n) && (n <=? 122)) || ((48 <=? n) && (n <=? 57)))%N.

Fixpoint keep (f : ascii -> bool) (s : string) : string :=
  match s with
  | String c r => if f c then String c (keep f r) else keep f r
  | EmptyString => EmptyString
  end.

(** [String(k).toLowerCase().replace(/[^a-z0-9]/g, "")]. *)
Definition normalizeKey (k : string) : string :=
  keep alnum (Landslide.toLower k).

(** [s.includes(sub)]. *)
Fixpoint includes (s sub : string) : bool :=
  prefix sub s ||
  match s with
  | String _ r => includes r sub
  | EmptyString => false
  end.

(** The loop of [scoreKey] over the hints. *)
Fixpoint hint_score (nk : string) (hints : list string) (score : Z) : Z :=
  match hints with
  | [] => score
  | h :: rest =>
      let nh := normalizeKey h in
      if String.eqb nh EmptyString then hint_score nk rest score
      else if String.eqb nk nh then hint_score nk rest (score + 50)%Z
      else if includes nk nh then hint_score nk rest (score + 20)%Z
      else hint_score nk rest score
  end.

(** [Math.min] and [Math.max] on finite numbers. *)
Definition qmin (a b : Q) : Q := if Qltb b a then b else a.
Definition qmax (a b : Q) : Q := if Qltb a b then b else a.

(** [scoreKey(key, hints)]. *)
Definition scoreKey (key : string) (hints : list string) : Q :=
  let nk := normalizeKey key in
  let score := hint_score nk hints 0 in
  (inject_Z score
   + qmax 0 (10 - qmin 10 (inject_Z (Z.of_nat (String.length nk)) / 6)))%Q.

Record Candidate : Type := { key : string; score : Q }.

(** [v == null || v === ""]. *)
Definition blank (v : jsval) : bool :=
  negb (Landslide.present v) || negb (Landslide.filled v).

(** The first loop of [pickBestKey], threading [best]. *)
Fixpoint best_loop (props : object) (hints : list string) (ks : list string)
  (best : option Candidate) : option Candidate :=
  match ks with
  | [] => best
  | k :: rest =>
      if blank (get props k) then best_loop props hints rest best
      else
        let s := scoreKey k hints in
        match best with
        | None => best_loop props hints rest (Some {| key := k; score := s |})
        | Some b =>
            if Qltb (score b) s
            then best_loop props hints rest (Some {| key := k; score := s |})
            else best_loop props hints rest best
        end
  end.

Fixpoint reverse (s acc : string) : string :=
  match s with
  | String c r => reverse r (String c acc)
  | EmptyString => acc
  end.

(** [v.trim()]. *)
Definition trim (v : string) : string :=
  reverse (skip_space (reverse (skip_space v) EmptyString)) EmptyString.

(** The second loop: the first key whose value is a text of three
    characters or more. *)
Fixpoint fallback_loop (props : object) (ks : list string) : option string :=
  match ks with
  | [] => None
  | k :: rest =>
      match get props k with
      | JStr v =>
          if 3 <=? String.length (trim v) then Some k else fallback_loop props rest
      | _ => fallback_loop props rest
      end
  end.

(** [pickBestKey(props, hints)]; [None] is [null]. *)
Definition pickBestKey (props : option object) (hints : list string) : option string :=
  match props with
  | None => None
  | Some p =>
      let keys := Landslide.keys p in
      match best_loop p hints keys None with
      | Some b =>
          if Qltb (score b) 15 then fallback_loop p keys else Some (key b)
      | None => fallback_loop p keys
      end
  end.

End FaultPopup.

(* ================================================================== *)
(** ** Two clicks whose lookups overlap *)
(* ================================================================== *)

Module TwoClicks.

(** Each click has its own [results], [completed] and [checkDone]; the
    element [report-content] and the spinner are shared. *)
Inductive which : Type := First | Second.

Record session : Type := {
  first : sys;                     (* the state of the first click *)
  second : sys;                    (* the state of the second click *)
  dom : list effect                (* what was done to the page, oldest first *)
}.

(** What a callback of one click did to the page. *)
Definition added (before after : sys) : list effect :=
  skipn (List.length (page before)) (page after).

(** [reportEl.innerHTML] after the effects [d]. *)
Definition innerHTML (d : list effect) : option string :=
  fold_left (fun cur e => match e with InnerHTML html => Some html | _ => cur end)
            d None.

(** Whether the spinner is shown after the effects [d]. *)
Definition spinning (d : list effect) : bool :=
  fold_left (fun cur e =>
               match e with
               | ShowSpinner => true
               | HideSpinner => false
               | _ => cur
               end) d false.

Section Session.
Context `{RT : Runtime} `{TF : Turf}.
Variables latlng1 latlng2 : LatLng.
Variables env1 env2 : providers.

(** The provider answers a query of one of the two clicks. *)
Definition answer (x : which * nat) (ss : session) : session :=
  match fst x with
  | First =>
      let s' := deliver env1 (snd x) (first ss) in
      {| first := s'; second := second ss;
         dom := (dom ss ++ added (first ss) s')%list |}
  | Second =>
      let s' := deliver env2 (snd x) (second ss) in
      {| first := first ss; second := s';
         dom := (dom ss ++ added (second ss) s')%list |}
  end.

Definition answers (sched : list (which * nat)) (ss : session) : session :=
  fold_left (fun ss x => answer x ss) sched ss.

(** The first click at [latlng1], the answers [early] it gets, and then
    the second click at [latlng2]; the page has a report element. *)
Definition clicks (early : list nat) : session :=
  let s1 := run env1 early (click latlng1 true) in
  let s2 := click latlng2 true in
  {| first := s1; second := s2; dom := (page s1 ++ page s2)%list |}.

End Session.

End TwoClicks.

(* ================================================================== *)
(** ** More instances for the examples *)
(* ================================================================== *)

Module MoreExamples.
Import Examples.

(** An identify answer of the landslide service whose [value] is no
    number and whose class is in the attributes. *)
Definition classInAttributes : RawResponse :=
  {| pixel := None; raw_value := JUndefined;
     raw_results :=
       Some [Some {| result_value := JStr "NoData";
                     attributes :=
                       AttrsObject [("OBJECTID", JNum (Fin 0));
                                    ("UniqueValue.Pixel Value", JStr "7")] |}] |}.

(** An identify result with the class as its [value]. *)
Definition classAsValue : IdentifyResult :=
  {| result_value := JStr "7";
     attributes := AttrsObject [("ClassName", JStr "Moderate")] |}.

(** An identify answer whose first result has a text where its
    attributes should be. *)
Definition attributesAsText : RawResponse :=
  {| pixel := None; raw_value := JUndefined;
     raw_results :=
       Some [Some {| result_value := JNull;
                     attributes := AttrsValue (JStr "n/a") |}] |}.

(** Two fields of the colleges layer, one with a coded domain. *)
Definition doctoral : Universities.CodedValue :=
  {| Universities.code := JNum (Fin 9); Universities.cv_name := JStr "Doctor's degree" |}.

Definition bachelor : Universities.CodedValue :=
  {| Universities.code := JNum (Fin 5); Universities.cv_name := JStr "Bachelor's degree" |}.

Definition offerDomain : Universities.Domain :=
  {| Universities.domain_type := JStr "codedValue";
     Universities.codedValues := Some [Some bachelor; Some doctoral] |}.

Definition hloffer : Universities.Field :=
  {| Universities.name := JStr "HLOFFER"; Universities.domain := Some offerDomain |}.

Definition city : Universities.Field :=
  {| Universities.name := JStr "CITY"; Universities.domain := None |}.

Definition collegeFields : list Universities.Field := [hloffer; city].

(** A controller of the EV overlay with a fetch in flight. *)
Definition fetching : EvChargers.state :=
  EvChargers.fetchInView 0 (EvChargers.init someBounds true).

(** Entries of an answer of OpenChargeMap: a charger in Los Angeles
    with two connections, one on the equator, one without address, one
    in Sacramento whose latitude is a text, and one in San Francisco
    whose list of connections has a null entry. *)
Definition losAngeles : EvChargers.charger :=
  {| EvChargers.addressInfo :=
       Some {| EvChargers.Latitude := JNum (Fin 34);
               EvChargers.Longitude := JNum (Fin (-118)) |};
     EvChargers.Connections :=
       EvChargers.ConnectionArray
         [Some [("Quantity", JNum (Fin 2))]; Some [("PowerKW", JNum (Fin 50))]] |}.

Definition equator : EvChargers.charger :=
  {| EvChargers.addressInfo :=
       Some {| EvChargers.Latitude := JNum (Fin 0);
               EvChargers.Longitude := JNum (Fin (-78)) |};
     EvChargers.Connections := EvChargers.NoConnections |}.

Definition noAddress : EvChargers.charger :=
  {| EvChargers.addressInfo := None;
     EvChargers.Connections := EvChargers.NoConnections |}.

Definition sacramento : EvChargers.charger :=
  {| EvChargers.addressInfo :=
       Some {| EvChargers.Latitude := JStr "38.58";
               EvChargers.Longitude := JNum (Fin (-12149 # 100)) |};
     EvChargers.Connections := EvChargers.NoConnections |}.

Definition sanFrancisco : EvChargers.charger :=
  {| EvChargers.addressInfo :=
       Some {| EvChargers.Latitude := JNum (Fin 37);
               EvChargers.Longitude := JNum (Fin (-122)) |};
     EvChargers.Connections := EvChargers.ConnectionArray [None] |}.

Definition chargers : list EvChargers.charger :=
  [losAngeles; equator; noAddress; sacramento].

(** The properties of a fault line. *)
Definition faultProps : object :=
  [("OBJECTID", JNum (Fin 17)); ("NAME_ALT", JNull);
   ("FAULT_NAME", JStr "San Andreas"); ("AGE", JStr "Holocene")].

(** The quiet day, but the landslide service answers with a first
    result whose attributes are a text. *)
Definition env_unparsable : providers := fun r =>
  match r with
  | IdentifyLandslide =>
      {| err := None; fc := None; raw := Some attributesAsText |}
  | _ => env_ok r
  end.

(** A second point to click. *)
Definition there : LatLng := {| lat := 1; lng := 1 |}.

End MoreExamples.

(* ================================================================== *)
(** ** Induction on asynchronous code *)
(* ================================================================== *)

Section ProgInduction.
Variable A : Type.
Variable P : prog A -> Prop.
Hypothesis HRet : forall a, P (Ret a).
Hypothesis HThrow : forall e, P (Throw e).
Hypothesis HUncaught : forall e, P (Uncaught e).
Hypothesis HAwait : forall r k, (forall x, P (k x)) -> P (Await r k).
Hypothesis HRun : forall r cb k, P k -> P (Run r cb k).
Hypothesis HSet : forall s txt k, P k -> P (SetResult s txt k).
Hypothesis HCheck : forall k, P k -> P (CheckDone k).

Fixpoint prog_induction (p : prog A) : P p :=
  match p with
  | Ret a => HRet a
  | Throw e => HThrow e
  | Uncaught e => HUncaught e
  | Await r k => HAwait r k (fun x => prog_induction (k x))
  | Run r cb k => HRun r cb k (prog_induction k)
  | SetResult s txt k => HSet s txt k (prog_induction k)
  | CheckDone k => HCheck k (prog_induction k)
  end.
End ProgInduction.

Section TaskInduction.
Variable P : prog unit -> Prop.
Hypothesis HRet : forall a, P (Ret a).
Hypothesis HThrow : forall e, P (Throw e).
Hypothesis HUncaught : forall e, P (Uncaught e).
Hypothesis HAwait : forall r k, (forall x, P (k x)) -> P (Await r k).
Hypothesis HRun : forall r cb k, (forall x, P (cb x)) -> P k -> P (Run r cb k).
Hypothesis HSet : forall s txt k, P k -> P (SetResult s txt k).
Hypothesis HCheck : forall k, P k -> P (CheckDone k).

Fixpoint task_induction (p : prog unit) : P p :=
  match p with
  | Ret a => HRet a
  | Throw e => HThrow e
  | Uncaught e => HUncaught e
  | Await r k => HAwait r k (fun x => task_induction (k x))
  | Run r cb k => HRun r cb k (fun x => task_induction (cb x)) (task_induction k)
  | SetResult s txt k => HSet s txt k (task_induction k)
  | CheckDone k => HCheck k (task_induction k)
  end.
End TaskInduction.

(* ================================================================== *)
(** ** The number conversions on examples *)
(* ================================================================== *)

Example toFixed_ex1 : @toFixed example_runtime 2 (Fin (12345 # 1000)) = "12.35".
Proof. reflexivity. Qed.
Example toFixed_ex2 : @toFixed example_runtime 2 (Fin (5 # 1000)) = "0.01".
Proof. reflexivity. Qed.
Example toFixed_ex3 : @toFixed example_runtime 2 (Fin (- (1 # 1000))) = "-0.00".
Proof. reflexivity. Qed.
Example toFixed_ex4 : @toFixed example_runtime 5 (Fin (375 # 10)) = "37.50000".
Proof. reflexivity. Qed.
Example toFixed_ex5 : @toFixed example_runtime 0 (Fin (5 # 2)) = "3".
Proof. reflexivity. Qed.
Example parseFloat_ex1 : parseFloatString "12.35" = Fin (1235 # 100).
Proof. reflexivity. Qed.
Example parseFloat_ex2 : parseFloatString "NaN" = NaN.
Proof. reflexivity. Qed.
Example parseFloat_ex3 :
  parseFloatString "  -1.5e2xyz" = Fin (- ((15 # 10) * inject_Z 100)).
Proof. reflexivity. Qed.
Example parseFloat_ex4 : parseFloatString "Infinity" = PInf.
Proof. reflexivity. Qed.

(* ================================================================== *)
(** ** Lists of actions *)
(* ================================================================== *)

Lemma slot_eqb_spec (a b : slot) : reflect (a = b) (slot_eqb a b).
Proof. destruct a, b; simpl; constructor; congruence. Qed.

Lemma proj_app (o : slot) (t1 t2 : list (slot * action)) :
  proj o (t1 ++ t2) = (proj o t1 ++ proj o t2)%list.
Proof. unfold proj. now rewrite filter_app, map_app. Qed.

Lemma proj_one_same (o : slot) (a : action) : proj o [(o, a)] = [a].
Proof. unfold proj. simpl. destruct (slot_eqb_spec o o); [reflexivity | congruence]. Qed.

Lemma proj_one_other (o k : slot) (a : action) : k <> o -> proj k [(o, a)] = [].
Proof.
  intros Hne. unfold proj. simpl.
  destruct (slot_eqb_spec o k); [congruence | reflexivity].
Qed.

Lemma checks_app (l1 l2 : list action) : checks (l1 ++ l2) = checks l1 + checks l2.
Proof. unfold checks. now rewrite filter_app, length_app. Qed.

Lemma sends_app (l1 l2 : list action) : sends (l1 ++ l2) = (sends l1 ++ sends l2)%list.
Proof. unfold sends. now rewrite flat_map_app. Qed.

Lemma last_text_app (k : slot) (l1 l2 : list action) (cur : string) :
  last_text k (l1 ++ l2) cur = last_text k l2 (last_text k l1 cur).
Proof. unfold last_text. now rewrite fold_left_app. Qed.

Lemma fut_app (env : providers) (l1 l2 : list item) (o : slot) :
  fut env (l1 ++ l2) o = (fut env l1 o ++ fut env l2 o)%list.
Proof. unfold fut. now rewrite flat_map_app. Qed.

Lemma fut_absent (env : providers) (l : list item) (o : slot) :
  ~ In o (owners l) -> fut env l o = [].
Proof.
  induction l as [|it l IH]; simpl; intros Hn; [reflexivity|].
  destruct (slot_eqb_spec (owner it) o) as [Heq|Hne].
  - exfalso. apply Hn. now left.
  - apply IH. intros Hin. apply Hn. now right.
Qed.

Lemma fut_one_same (env : providers) (it : item) :
  fut env [it] (owner it) = acts env (cont it (env (req it))).
Proof.
  unfold fut. simpl.
  destruct (slot_eqb_spec (owner it) (owner it)); [apply app_nil_r | congruence].
Qed.

Lemma fut_one_other (env : providers) (it : item) (k : slot) :
  k <> owner it -> fut env [it] k = [].
Proof.
  intros Hne. unfold fut. simpl.
  destruct (slot_eqb_spec (owner it) k); [congruence | reflexivity].
Qed.

Lemma nth_error_remove {A : Type} (i : nat) (l : list A) (a : A) :
  nth_error l i = Some a ->
  exists l1 l2, l = (l1 ++ a :: l2)%list /\ remove_nth i l = (l1 ++ l2)%list.
Proof.
  revert l. induction i as [|i IH]; intros [|b l] H; simpl in H; try discriminate.
  - injection H as ->. exists [], l. split; reflexivity.
  - destruct (IH l H) as (l1 & l2 & -> & Hr).
    exists (b :: l1), l2. simpl. now rewrite Hr.
Qed.

Lemma ends_acts (env : providers) (p : prog unit) : ends p -> acts env p = [].
Proof. destruct p; simpl; intros H; now try destruct H. Qed.

Lemma ends_turn (o : slot) (p : prog unit) (s : sys) : ends p -> turn o p s = s.
Proof. destruct p; simpl; intros H; now try destruct H. Qed.

(** *** The combinators keep the shape of a lookup *)

Lemma writer_lift (o : slot) {A : Type} (m : result A) : writer o (lift m).
Proof. destruct m; exact I. Qed.

Lemma writer_bind (o : slot) {A B : Type} (p : prog A) (f : A -> prog B) :
  writer o p -> (forall a, writer o (f a)) -> writer o (bind p f).
Proof.
  intros Hp Hf.
  induction p as [a|e|e0|r k IH|r cb k IH|s txt k IH|k IH] using prog_induction;
    simpl in *; intuition auto.
Qed.

Lemma writer_try_catch (o : slot) {A : Type} (p : prog A) (h : exn -> prog A) :
  writer o p -> (forall e, writer o (h e)) -> writer o (try_catch p h).
Proof.
  intros Hp Hh.
  induction p as [a|e|e0|r k IH|r cb k IH|s txt k IH|k IH] using prog_induction;
    simpl in *; intuition auto.
Qed.

Lemma writer_setResult (o : slot) (txt : string) : writer o (setResult o txt).
Proof. simpl. auto. Qed.

Lemma nothrow_try_catch (o : slot) {A : Type} (p : prog A) (h : exn -> prog A) :
  writer o p -> (forall e, nothrow (h e)) -> nothrow (try_catch p h).
Proof.
  intros Hp Hh.
  induction p as [a|e|e0|r k IH|r cb k IH|s txt k IH|k IH] using prog_induction;
    simpl in *; intuition auto.
Qed.

Lemma settling_finally (o : slot) (p : prog unit) :
  writer o p -> settling o (try_finally p callCheckDone).
Proof.
  intros Hp.
  induction p as [a|e|e0|r k IH|r cb k IH|s txt k IH|k IH] using prog_induction;
    simpl in *; intuition auto.
Qed.

Lemma settling_then_check (o : slot) {A : Type} (p : prog A) :
  writer o p -> nothrow p -> settling o (p ;; callCheckDone).
Proof.
  intros Hp Hn.
  induction p as [a|e|e0|r k IH|r cb k IH|s txt k IH|k IH] using prog_induction;
    simpl in *; intuition auto.
Qed.

Lemma settling_guarded (o : slot) {A : Type} (p : prog A) (h : exn -> prog A) :
  writer o p -> (forall e, writer o (h e)) -> (forall e, nothrow (h e)) ->
  settling o (try_catch p h ;; callCheckDone).
Proof.
  intros Hp Hw Hn. apply settling_then_check.
  - now apply writer_try_catch.
  - now apply (nothrow_try_catch o).
Qed.

Lemma settling_orderly (o : slot) (p : prog unit) : settling o p -> orderly o p.
Proof.
  induction p as [a|e|e0|r k IH|r cb k IH|s txt k IH|k IH] using prog_induction;
    simpl in *; intuition auto.
Qed.

Lemma settling_checks (env : providers) (o : slot) (p : prog unit) :
  settling o p -> checks (acts env p) = 1.
Proof.
  induction p as [a|e|e0|r k IH|r cb k IH|s txt k IH|k IH] using prog_induction;
    simpl; try tauto.
  - intros H. apply (IH (env r)), H.
  - intros He. now rewrite (ends_acts env k He).
Qed.

Lemma orderly_checks (env : providers) (o : slot) (p : prog unit) :
  orderly o p -> checks (acts env p) <= 1.
Proof.
  induction p as [a|e|e0|r k IH|r cb k IHcb IH|s txt k IH|k IH] using task_induction;
    simpl; auto; try tauto.
  - intros H. apply (IH (env r)), H.
  - intros [Hcb He]. rewrite (ends_acts env k He). apply (IHcb (env r)), Hcb.
  - intros He. now rewrite (ends_acts env k He).
Qed.

(* ================================================================== *)
(** ** The shape of the seven lookups *)
(* ================================================================== *)

Section Shapes.
Context `{RT : Runtime} `{TF : Turf}.
Variable latlng : LatLng.

Lemma writer_queryContains (o : slot) (l : layer) : writer o (queryContains l).
Proof. simpl. auto. Qed.

Lemma writer_identifyMMIAt (o : slot) : writer o identifyMMIAt.
Proof.
  simpl. intros x. destruct (err x); [exact I|].
  destruct (mmi_val x); exact I.
Qed.

Lemma writer_nearestAcross_loop (o : slot) (layersArr : list layer)
  (label fieldName : string) (best : option Best) :
  writer o (nearestAcross_loop latlng layersArr label fieldName best).
Proof.
  revert best.
  induction layersArr as [|lyr rest IH]; intros best;
    cbn [nearestAcross_loop writer]; [exact I|].
  intros x. destruct (err x); [apply IH|].
  destruct (featuresOf x) as [|f fs]; [apply IH|].
  destruct (across_loop latlng label fieldName (f :: fs) best); [apply IH | exact I].
Qed.

Lemma writer_nearestByEdgeDistanceAcross (o : slot) (layersArr : list layer)
  (label fieldName : string) :
  writer o (nearestByEdgeDistanceAcross latlng layersArr label fieldName).
Proof.
  unfold nearestByEdgeDistanceAcross. apply writer_bind.
  - apply writer_nearestAcross_loop.
  - intros a. exact I.
Qed.

Lemma fire_task_settling : settling fire (fire_task latlng).
Proof.
  unfold fire_task. apply settling_finally. apply writer_try_catch.
  2: { intros e. apply writer_setResult. }
  apply writer_bind; [apply writer_queryContains|]. intros lraRes.
  destruct (contained lraRes).
  { apply writer_bind; [apply writer_lift|]. intros zone. apply writer_setResult. }
  apply writer_bind; [apply writer_queryContains|]. intros sraRes.
  destruct (contained sraRes).
  { apply writer_bind; [apply writer_lift|]. intros zone. apply writer_setResult. }
  apply writer_bind; [apply writer_nearestByEdgeDistanceAcross|].
  intros txt. apply writer_setResult.
Qed.

Lemma ozone_callback_settling (res : response) : settling ozone (ozone_callback res).
Proof.
  unfold ozone_callback.
  apply settling_guarded; [|intros e; apply writer_setResult | intros e; exact I].
  apply writer_bind; [apply writer_lift|]. intros [|]; [|exact I].
  apply writer_bind; [apply writer_lift|]. intros p.
  apply writer_bind; [apply writer_lift|]. intros ppm. apply writer_setResult.
Qed.

Lemma pm_callback_settling (res : response) : settling pm (pm_callback res).
Proof.
  unfold pm_callback.
  apply settling_guarded; [|intros e; apply writer_setResult | intros e; exact I].
  apply writer_bind; [apply writer_lift|]. intros [|]; [|exact I].
  apply writer_bind; [apply writer_lift|]. intros p.
  apply writer_bind; [apply writer_lift|]. intros v. apply writer_setResult.
Qed.

Lemma drink_callback_settling (res : response) : settling drink (drink_callback res).
Proof.
  unfold drink_callback.
  apply settling_guarded; [|intros e; apply writer_setResult | intros e; exact I].
  apply writer_bind; [apply writer_lift|]. intros [|]; [|exact I].
  apply writer_bind; [apply writer_lift|]. intros p.
  apply writer_bind; [apply writer_lift|]. intros v. apply writer_setResult.
Qed.

(** The landslide lookup calls [checkDone] last and once, or not at all
    when the parser throws in the callback of the identify. *)
Lemma landslide_task_orderly : orderly landslide landslide_task.
Proof.
  unfold landslide_task, identifyLandslideAt. cbn. intros x.
  destruct (err x); cbn; [auto|].
  destruct (Landslide.parseLandslideLabelFromIdentify (raw x) (fc x))
    as [[[|c r]|]|e]; cbn; auto.
Qed.

Lemma landslide_checks (env : providers) :
  checks (acts env landslide_task)
  = if parser_throws (env IdentifyLandslide) then 0 else 1.
Proof.
  unfold landslide_task, identifyLandslideAt, parser_throws. cbn.
  destruct (err (env IdentifyLandslide)); cbn; [reflexivity|].
  destruct (Landslide.parseLandslideLabelFromIdentify _ _) as [[[|c r]|]|e];
    reflexivity.
Qed.

Lemma shaking_task_settling : settling shaking shaking_task.
Proof.
  unfold shaking_task. apply settling_finally.
  apply writer_try_catch; [|intros e; apply writer_setResult].
  apply writer_bind; [apply writer_identifyMMIAt|].
  intros [v|]; [apply writer_setResult | exact I].
Qed.

(** The callback of the flood proximity query: it may throw before it
    reaches [callback]. *)
Lemma getClosest_callback_orderly (label fieldName : string) (note : string) (res : response) :
  orderly flood
    (found <- lift (has_features res) ;;
     if found then
       fs <- lift (response_features res) ;;
       r <- lift (closest_loop latlng fs PInf None) ;;
       match snd r with
       | Some bestFeature =>
           props <- lift (member (properties bestFeature)) ;;
           (setResult flood (nearestText label (get props fieldName) (fst r) ++ note) ;;
            callCheckDone)
       | None => setResult flood (notFoundText label ++ note) ;; callCheckDone
       end
     else setResult flood (notFoundText label ++ note) ;; callCheckDone).
Proof.
  destruct (has_features res) as [[|]|e]; simpl; auto.
  destruct (response_features res) as [fs|e]; simpl; auto.
  destruct (closest_loop latlng fs PInf None) as [[m [b|]]|e]; simpl; auto.
  destruct (properties b); simpl; auto.
Qed.

Lemma flood_callback_orderly (res : response) : orderly flood (flood_callback latlng res).
Proof.
  unfold flood_callback.
  destruct (has_features res) as [[|]|e]; simpl; auto.
  - destruct (first_property res "ESRI_SYMBOLOGY"); simpl; auto.
  - split; [|exact I]. intros x.
    apply (getClosest_callback_orderly "Flood Hazard Zone" "ESRI_SYMBOLOGY" floodNote x).
Qed.

Lemma task_orderly (k : slot) :
  orderly k (task_of latlng k).
Proof.
  destruct k; unfold task_of; simpl find; cbv beta iota; unfold snd.
  - apply settling_orderly, fire_task_settling.
  - split; [apply flood_callback_orderly | exact I].
  - split; [intros x; apply settling_orderly, ozone_callback_settling | exact I].
  - split; [intros x; apply settling_orderly, pm_callback_settling | exact I].
  - split; [intros x; apply settling_orderly, drink_callback_settling | exact I].
  - apply landslide_task_orderly.
  - apply settling_orderly, shaking_task_settling.
Qed.

(** Every lookup but the flood and the landslide one calls [checkDone]
    exactly once, whatever the providers answer. *)
Lemma settles_once (env : providers) (k : slot) :
  k <> flood -> k <> landslide -> checks (total latlng env k) = 1.
Proof.
  intros Hk Hl. destruct k; try congruence; unfold total, task_of;
    simpl find; cbv beta iota; unfold snd.
  - apply (settling_checks env fire), fire_task_settling.
  - apply (settling_checks env ozone (ozone_callback (env (Contains ozoneLayer)))),
      ozone_callback_settling.
  - apply (settling_checks env pm (pm_callback (env (Contains pmLayer)))),
      pm_callback_settling.
  - apply (settling_checks env drink (drink_callback (env (Contains drinkLayer)))),
      drink_callback_settling.
  - apply (settling_checks env shaking), shaking_task_settling.
Qed.

(** The landslide lookup calls [checkDone] once unless the parser throws,
    and then never. *)
Lemma landslide_settles (env : providers) :
  settles latlng env landslide = negb (parser_throws (env IdentifyLandslide)).
Proof.
  unfold settles, total, task_of; simpl find; cbv beta iota; unfold snd.
  rewrite landslide_checks. now destruct (parser_throws _).
Qed.

Lemma settles_at_most_once (env : providers) (k : slot) :
  checks (total latlng env k) <= 1.
Proof. apply (orderly_checks env k), task_orderly. Qed.

End Shapes.

(* ================================================================== *)
(** ** What every run keeps true *)
(* ================================================================== *)

Lemma slot_eqb_refl (k : slot) : slot_eqb k k = true.
Proof. now destruct k. Qed.

Lemma slot_eqb_neq (a b : slot) : a <> b -> slot_eqb a b = false.
Proof. destruct (slot_eqb_spec a b); congruence. Qed.

Lemma checks_proj_snoc (k o : slot) (a : action) (t : list (slot * action)) :
  checks (proj k (t ++ [(o, a)])) =
  checks (proj k t) + (if slot_eqb o k then checks [a] else 0).
Proof.
  rewrite proj_app, checks_app. f_equal.
  unfold proj. simpl. destruct (slot_eqb o k); reflexivity.
Qed.

Lemma checks_send (k o : slot) (r : request) (t : list (slot * action)) :
  checks (proj k (t ++ [(o, ASend r)])) = checks (proj k t).
Proof.
  rewrite checks_proj_snoc. destruct (slot_eqb o k); apply Nat.add_0_r.
Qed.

Lemma checks_write (k o j : slot) (txt : string) (t : list (slot * action)) :
  checks (proj k (t ++ [(o, AWrite j txt)])) = checks (proj k t).
Proof.
  rewrite checks_proj_snoc. destruct (slot_eqb o k); apply Nat.add_0_r.
Qed.

Lemma checks_check_same (o : slot) (t : list (slot * action)) :
  checks (proj o (t ++ [(o, ACheck)])) = S (checks (proj o t)).
Proof. rewrite checks_proj_snoc, slot_eqb_refl. apply Nat.add_1_r. Qed.

Lemma checks_check_other (k o : slot) (t : list (slot * action)) :
  k <> o -> checks (proj k (t ++ [(o, ACheck)])) = checks (proj k t).
Proof.
  intros Hne. rewrite checks_proj_snoc, slot_eqb_neq by congruence.
  apply Nat.add_0_r.
Qed.

Lemma proj_snoc_other (k o : slot) (a : action) (t : list (slot * action)) :
  k <> o -> proj k (t ++ [(o, a)]) = proj k t.
Proof. intros Hne. now rewrite proj_app, proj_one_other, app_nil_r. Qed.

Lemma proj_snoc_same (o : slot) (a : action) (t : list (slot * action)) :
  proj o (t ++ [(o, a)]) = (proj o t ++ [a])%list.
Proof. now rewrite proj_app, proj_one_same. Qed.

Lemma count_all_bump (f g : slot -> nat) (o : slot) :
  g o = S (f o) -> (forall k, k <> o -> g k = f k) -> count_all g = S (count_all f).
Proof.
  intros Ho Hk. unfold count_all.
  destruct o; rewrite Ho;
    repeat match goal with
           | |- context [g ?k] => rewrite (Hk k) by discriminate
           end; lia.
Qed.

Lemma count_all_ext (f g : slot -> nat) :
  (forall k, g k = f k) -> count_all g = count_all f.
Proof. intros H. unfold count_all. now rewrite !H. Qed.

Lemma count_all_full (f : slot -> nat) (o : slot) :
  (forall k, f k <= 1) -> f o = 0 -> count_all f = 6 -> forall k, k <> o -> f k = 1.
Proof.
  intros Hle Ho Hsum k Hk. unfold count_all in Hsum.
  pose proof (Hle fire). pose proof (Hle flood). pose proof (Hle ozone).
  pose proof (Hle pm). pose proof (Hle drink). pose proof (Hle landslide).
  pose proof (Hle shaking).
  destruct o, k; try congruence; lia.
Qed.

Lemma report_html_ext (r1 r2 : slot -> string) :
  (forall k, r1 k = r2 k) -> report_html r1 = report_html r2.
Proof. intros H. unfold report_html, ordered. now rewrite !H. Qed.

Section Invariant.
Context `{RT : Runtime} `{TF : Turf}.
Variable latlng : LatLng.
Variable env : providers.
Variable hasReportEl : bool.

Local Abbreviation Inv' := (Inv latlng env hasReportEl).
Local Abbreviation Mid' := (Mid latlng env hasReportEl).
Local Abbreviation Common' := (Common latlng env hasReportEl).
Local Abbreviation total' := (total latlng env).
Local Abbreviation slot_text' := (slot_text latlng env).

(** A query joins those in flight. *)
Lemma Mid_send (o : slot) (r : request) (k : response -> prog unit)
  (p : prog unit) (s : sys) :
  Common' s -> (forall x, orderly o (k x)) -> ~ In o (owners (pend s)) ->
  done_by s o = 0 ->
  (proj o (trace s) ++ ASend r :: acts env (k (env r)))%list = total' o ->
  (forall j, j <> o -> (proj j (trace s) ++ fut env (pend s) j)%list = total' j) ->
  Inv' {| st := st s; page := page s;
         pend := (pend s ++ [{| owner := o; req := r; cont := k |}])%list;
         trace := (trace s ++ [(o, ASend r)])%list |}.
Proof.
  intros HC Hk Habs Hdone Ho Hothers.
  assert (Hd : forall j, done_by {| st := st s; page := page s;
         pend := (pend s ++ [{| owner := o; req := r; cont := k |}])%list;
         trace := (trace s ++ [(o, ASend r)])%list |} j = done_by s j).
  { intros j. apply checks_send. }
  split.
  - constructor; simpl.
    + unfold owners. rewrite map_app. simpl.
      apply NoDup_app; [apply HC | repeat constructor; simpl; tauto |].
      intros x Hx [<-|[]]. now apply Habs.
    + intros it Hin x. apply in_app_or in Hin as [Hin|[<-|[]]].
      * now apply (c_orderly _ _ _ _ HC).
      * simpl. apply Hk.
    + intros j Hin. rewrite Hd. unfold owners in Hin. rewrite map_app in Hin.
      apply in_app_or in Hin as [Hin|[<-|[]]]; [now apply (c_waiting _ _ _ _ HC) | exact Hdone].
    + intros j. rewrite Hd. apply (c_once _ _ _ _ HC).
    + intros j. rewrite (c_results _ _ _ _ HC).
      destruct (slot_eqb_spec j o) as [->|Hne].
      * now rewrite proj_snoc_same, last_text_app.
      * now rewrite proj_snoc_other.
    + rewrite (c_completed _ _ _ _ HC). symmetry. now apply count_all_ext.
    + apply HC.
    + apply HC.
  - intros j. simpl. rewrite fut_app.
    destruct (slot_eqb_spec j o) as [->|Hne].
    + rewrite proj_snoc_same, (fut_absent env (pend s) o Habs).
      change o with (owner {| owner := o; req := r; cont := k |}) at 2.
      rewrite fut_one_same. simpl. rewrite <- app_assoc. exact Ho.
    + rewrite proj_snoc_other by exact Hne.
      rewrite fut_one_other by exact Hne. rewrite app_nil_r. now apply Hothers.
Qed.

Lemma Mid_end (o : slot) (p : prog unit) (s : sys) :
  ends p -> Mid' o p s -> Inv' s.
Proof.
  intros He (HC & _ & Habs & _ & Ho & Hothers). split; [exact HC|].
  intros j. destruct (slot_eqb_spec j o) as [->|Hne]; [|now apply Hothers].
  rewrite (fut_absent env (pend s) o Habs).
  now rewrite (ends_acts env p He) in Ho.
Qed.

(** A turn of an orderly lookup keeps everything in order. *)
Lemma turn_Inv (o : slot) (p : prog unit) :
  forall s, Mid' o p s -> Inv' (turn o p s).
Proof.
  induction p as [a|e|e0|r k IH|r cb k IHcb IH|x txt k IH|k IH] using task_induction;
    intros s HM.
  - apply (Mid_end o (Ret a)); [exact I | exact HM].
  - apply (Mid_end o (Throw e)); [exact I | exact HM].
  - apply (Mid_end o (Uncaught e0)); [exact I | exact HM].
  - destruct HM as (HC & Hord & Habs & Hdone & Ho & Hothers).
    simpl. apply Mid_send; auto.
  - destruct HM as (HC & [Hord He] & Habs & Hdone & Ho & Hothers).
    simpl. rewrite (ends_turn o k _ He).
    apply Mid_send; auto.
    simpl in Ho. now rewrite (ends_acts env k He) in Ho.
  - destruct HM as (HC & [-> Hord] & Habs & Hdone & Ho & Hothers).
    simpl. apply IH.
    assert (Hd : forall j, done_by
              {| st := {| results := set_result o txt (results (st s));
                          completed := completed (st s);
                          reportEl := reportEl (st s) |};
                 page := page s; pend := pend s;
                 trace := (trace s ++ [(o, AWrite o txt)])%list |} j = done_by s j).
    { intros j. apply checks_write. }
    split; [|split; [exact Hord | split; [exact Habs | split; [|split]]]].
    + constructor; simpl; try apply HC.
      * intros j Hin. rewrite Hd. now apply (c_waiting _ _ _ _ HC).
      * intros j. rewrite Hd. apply (c_once _ _ _ _ HC).
      * intros j. unfold set_result.
        destruct (slot_eqb_spec j o) as [->|Hne].
        -- rewrite proj_snoc_same, last_text_app. simpl.
           now rewrite slot_eqb_refl.
        -- rewrite proj_snoc_other by exact Hne. apply (c_results _ _ _ _ HC).
      * rewrite (c_completed _ _ _ _ HC). symmetry. now apply count_all_ext.
    + rewrite Hd. exact Hdone.
    + simpl. rewrite proj_snoc_same, <- app_assoc. exact Ho.
    + intros j Hne. simpl. rewrite proj_snoc_other by exact Hne. now apply Hothers.
  - destruct HM as (HC & He & Habs & Hdone & Ho & Hothers).
    simpl in Ho. rewrite (ends_acts env k He) in Ho.
    assert (Hfin : forall j, j <> o -> done_by s j = 1 ->
                   results (st s) j = slot_text' j).
    { intros j Hne Hj. rewrite (c_results _ _ _ _ HC). unfold slot_text.
      rewrite <- (Hothers j Hne), fut_absent; [now rewrite app_nil_r|].
      intros Hin. apply (c_waiting _ _ _ _ HC) in Hin. lia. }
    assert (Hown : results (st s) o = slot_text' o).
    { rewrite (c_results _ _ _ _ HC). unfold slot_text.
      rewrite <- Ho, last_text_app. reflexivity. }
    simpl. destruct (checkDone (st s)) as [st' effs] eqn:Hcd.
    rewrite (ends_turn o k _ He).
    assert (Hst' : st' = {| results := results (st s);
                            completed := S (completed (st s));
                            reportEl := reportEl (st s) |}).
    { unfold checkDone in Hcd. destruct (_ =? _) in Hcd; now inversion Hcd. }
    assert (Heffs : effs =
              if S (completed (st s)) =? 7
              then ((if reportEl (st s)
                     then [InnerHTML (report_html (results (st s)))] else [])
                    ++ [HideSpinner])%list
              else []).
    { unfold checkDone in Hcd. cbn [completed] in Hcd.
      change totalTasks with 7 in Hcd.
      destruct (_ =? _) in Hcd |- *; now inversion Hcd. }
    clear Hcd. subst st'.
    split.
    + constructor; cbn [st page pend trace results completed reportEl]; unfold done_by;
        cbn [trace].
      * apply HC.
      * apply HC.
      * intros j Hin.
        rewrite checks_check_other; [now apply (c_waiting _ _ _ _ HC)|].
        intros ->. now apply Habs.
      * intros j. destruct (slot_eqb_spec j o) as [->|Hne].
        -- rewrite checks_check_same. unfold done_by in Hdone. rewrite Hdone. lia.
        -- rewrite checks_check_other by exact Hne. apply (c_once _ _ _ _ HC).
      * intros j. rewrite (c_results _ _ _ _ HC).
        destruct (slot_eqb_spec j o) as [->|Hne].
        -- now rewrite proj_snoc_same, last_text_app.
        -- now rewrite proj_snoc_other.
      * rewrite (c_completed _ _ _ _ HC).
        symmetry. apply count_all_bump with (o := o).
        -- apply checks_check_same.
        -- intros j Hne. now apply checks_check_other.
      * apply HC.
      * rewrite Heffs.
        destruct (Nat.eqb_spec (S (completed (st s))) 7) as [H7|H7].
        -- assert (H6 : completed (st s) = 6) by lia.
           assert (Hrep : report_html (results (st s)) = report_html slot_text').
           { apply report_html_ext. intros j.
             destruct (slot_eqb_spec j o) as [->|Hne]; [exact Hown|].
             apply Hfin; [exact Hne|].
             apply (count_all_full (done_by s) o); auto.
             - apply (c_once _ _ _ _ HC).
             - rewrite <- (c_completed _ _ _ _ HC). exact H6. }
           rewrite (c_page _ _ _ _ HC), H6, Hrep, (c_reportEl _ _ _ _ HC).
           simpl. rewrite app_nil_r. reflexivity.
        -- rewrite app_nil_r, (c_page _ _ _ _ HC).
           destruct (Nat.leb_spec 7 (completed (st s)));
             destruct (Nat.leb_spec 7 (S (completed (st s)))); try reflexivity; lia.
    + intros j. cbn [pend trace].
      destruct (slot_eqb_spec j o) as [->|Hne].
      * rewrite proj_snoc_same, (fut_absent env (pend s) o Habs), app_nil_r. exact Ho.
      * rewrite proj_snoc_other by exact Hne. now apply Hothers.
Qed.

End Invariant.

Section Runs.
Context `{RT : Runtime} `{TF : Turf}.
Variable latlng : LatLng.
Variable env : providers.
Variable hasReportEl : bool.

Local Abbreviation Inv' := (Inv latlng env hasReportEl).
Local Abbreviation Common' := (Common latlng env hasReportEl).
Local Abbreviation total' := (total latlng env).
Local Abbreviation click' := (click latlng hasReportEl).

Lemma deliver_Inv (i : nat) (s : sys) : Inv' s -> Inv' (deliver env i s).
Proof.
  intros [HC Htot]. unfold deliver.
  destruct (nth_error (pend s) i) as [it|] eqn:Hnth; [|now split].
  destruct (nth_error_remove i (pend s) it Hnth) as (l1 & l2 & Hp & Hr).
  rewrite Hr. clear Hr Hnth.
  pose proof (c_nodup _ _ _ _ HC) as Hnd.
  unfold owners in Hnd. rewrite Hp, map_app in Hnd. simpl in Hnd.
  assert (Habs : ~ In (owner it) (owners (l1 ++ l2))).
  { unfold owners. rewrite map_app. now apply NoDup_remove_2. }
  assert (Hin : forall x, In x (l1 ++ l2) -> In x (pend s)).
  { intros x Hx. rewrite Hp. apply in_app_or in Hx as [Hx|Hx];
      apply in_or_app; [now left | right; now right]. }
  assert (Hino : forall k, In k (owners (l1 ++ l2)) -> In k (owners (pend s))).
  { intros k Hk. unfold owners in *. apply in_map_iff in Hk as (x & <- & Hx).
    apply in_map. now apply Hin. }
  apply turn_Inv. split; [|split; [|split; [|split; [|split]]]].
  - constructor; cbn [st page pend trace]; try apply HC.
    + unfold owners. rewrite map_app. now apply NoDup_remove_1 in Hnd.
    + intros x Hx. apply (c_orderly _ _ _ _ HC). now apply Hin.
    + intros k Hk. apply (c_waiting _ _ _ _ HC). now apply Hino.
  - apply (c_orderly _ _ _ _ HC). rewrite Hp. apply in_or_app. right. now left.
  - exact Habs.
  - apply (c_waiting _ _ _ _ HC). unfold owners. rewrite Hp, map_app.
    apply in_or_app. right. now left.
  - cbn [trace]. rewrite <- (Htot (owner it)), Hp.
    change (it :: l2) with ([it] ++ l2)%list. rewrite !fut_app, fut_one_same.
    assert (H1 : fut env l1 (owner it) = []).
    { apply fut_absent. intros H. apply Habs. unfold owners in *.
      rewrite map_app. apply in_or_app. now left. }
    assert (H2 : fut env l2 (owner it) = []).
    { apply fut_absent. intros H. apply Habs. unfold owners in *.
      rewrite map_app. apply in_or_app. now right. }
    now rewrite H1, H2, app_nil_r.
  - intros k Hne. cbn [trace pend]. rewrite <- (Htot k), Hp.
    change (it :: l2) with ([it] ++ l2)%list. rewrite !fut_app.
    now rewrite (fut_one_other env it k Hne).
Qed.

Lemma click_Inv : Inv' click'.
Proof.
  split.
  - constructor; simpl.
    + repeat constructor; simpl; intuition discriminate.
    + intros it Hin x.
      pose proof (task_orderly latlng) as Hord.
      repeat destruct Hin as [<-|Hin]; try destruct Hin; cbn [owner cont].
      * apply (Hord fire).
      * apply (Hord flood).
      * apply (Hord ozone).
      * apply (Hord pm).
      * apply (Hord drink).
      * apply (Hord landslide).
      * apply (Hord shaking).
    + intros k _. now destruct k.
    + intros k. destruct k; cbv; lia.
    + intros k. now destruct k.
    + reflexivity.
    + reflexivity.
    + now destruct hasReportEl.
  - intros k. destruct k; unfold click, proj, fut; cbn -[acts total];
      rewrite ?app_nil_r; reflexivity.
Qed.

Lemma run_Inv (sched : list nat) : forall s, Inv' s -> Inv' (run env sched s).
Proof.
  induction sched as [|i rest IH]; intros s Hs; simpl; [exact Hs|].
  apply IH, deliver_Inv, Hs.
Qed.

End Runs.

(* ================================================================== *)
(** ** Every run can be completed *)
(* ================================================================== *)

Lemma weight_app (env : providers) (l1 l2 : list item) :
  weight env (l1 ++ l2) = weight env l1 + weight env l2.
Proof. unfold weight. now rewrite map_app, list_sum_app. Qed.

Lemma turn_weight (env : providers) (o : slot) (p : prog unit) :
  forall s, weight env (pend (turn o p s))
            <= weight env (pend s) + List.length (sends (acts env p)).
Proof.
  induction p as [a|e|e0|r k IH|r cb k IHcb IH|x txt k IH|k IH] using task_induction;
    intros s; simpl.
  - lia.
  - lia.
  - lia.
  - rewrite weight_app. unfold weight at 2. simpl. lia.
  - etransitivity; [apply IH|]. simpl. rewrite weight_app.
    unfold weight at 2. simpl. rewrite sends_app, length_app. lia.
  - etransitivity; [apply IH|]. simpl. lia.
  - destruct (checkDone (st s)) as [st' effs].
    etransitivity; [apply IH|]. simpl. lia.
Qed.

Lemma deliver_weight (env : providers) (s : sys) :
  pend s <> [] -> weight env (pend (deliver env 0 s)) < weight env (pend s).
Proof.
  intros Hne. unfold deliver. destruct (pend s) as [|it l] eqn:Hp; [congruence|].
  simpl nth_error. cbv iota.
  eapply Nat.le_lt_trans; [apply turn_weight|].
  simpl. unfold weight at 2. simpl. fold (weight env l). lia.
Qed.

Lemma deliver_nothing (env : providers) (i : nat) (s : sys) :
  pend s = [] -> deliver env i s = s.
Proof. intros Hp. unfold deliver. rewrite Hp. now destruct i. Qed.

Lemma drain (env : providers) (n : nat) :
  forall s, weight env (pend s) <= n -> pend (run env (repeat 0 n) s) = [].
Proof.
  induction n as [|n IH]; intros s Hw; simpl.
  - destruct (pend s) as [|it l]; [reflexivity|].
    unfold weight in Hw. simpl in Hw. lia.
  - apply IH. destruct (pend s) as [|it l] eqn:Hp.
    + rewrite deliver_nothing by exact Hp. rewrite Hp. unfold weight. simpl. lia.
    + assert (Hne : pend s <> []) by congruence.
      pose proof (deliver_weight env s Hne). rewrite Hp in *. lia.
Qed.

Lemma run_app (env : providers) (s1 s2 : list nat) (s : sys) :
  run env (s1 ++ s2) s = run env s2 (run env s1 s).
Proof. revert s. induction s1 as [|i s1 IH]; intros s; simpl; auto. Qed.

(* ================================================================== *)
(** ** The page after a run *)
(* ================================================================== *)

Section Reports.
Context `{RT : Runtime} `{TF : Turf}.
Variable latlng : LatLng.
Variable env : providers.
Variable hasReportEl : bool.

Local Abbreviation Inv' := (Inv latlng env hasReportEl).
Local Abbreviation total' := (total latlng env).
Local Abbreviation settles' := (settles latlng env).
Local Abbreviation click' := (click latlng hasReportEl).
Local Abbreviation final_page' := (final_page latlng env hasReportEl).

(** Any run can be continued until no query is in flight. *)
Lemma run_completes (sched : list nat) :
  exists more, pend (run env (sched ++ more) click') = [].
Proof.
  exists (repeat 0 (weight env (pend (run env sched click')))).
  rewrite run_app. now apply drain.
Qed.

(** What a lookup has done so far is the beginning of what it does on
    its own. *)
Lemma run_prefix (sched : list nat) (k : slot) :
  exists rest, (proj k (trace (run env sched click')) ++ rest)%list = total' k.
Proof.
  destruct (run_Inv latlng env hasReportEl sched click')
    as [_ Htot]; [apply click_Inv|].
  eexists. apply Htot.
Qed.

Lemma run_done_le (sched : list nat) (k : slot) :
  done_by (run env sched click') k <= checks (total' k).
Proof.
  destruct (run_prefix sched k) as [rest <-]. unfold done_by.
  rewrite checks_app. lia.
Qed.

(** With no query in flight every lookup has done all it does. *)
Lemma run_quiescent (sched : list nat) (k : slot) :
  pend (run env sched click') = [] ->
  proj k (trace (run env sched click')) = total' k.
Proof.
  intros Hp.
  destruct (run_Inv latlng env hasReportEl sched click')
    as [_ Htot]; [apply click_Inv|].
  rewrite <- (Htot k), Hp. simpl. now rewrite app_nil_r.
Qed.

(** The page is the initial page, followed by the report once
    [completed] has reached seven. *)
Lemma run_page (sched : list nat) :
  page (run env sched click') =
  (page0 latlng hasReportEl
   ++ (if 7 <=? completed (st (run env sched click')) then final_page' else []))%list.
Proof.
  destruct (run_Inv latlng env hasReportEl sched click')
    as [HC _]; [apply click_Inv|].
  apply HC.
Qed.

Lemma run_completed (sched : list nat) :
  completed (st (run env sched click')) = count_all (done_by (run env sched click')).
Proof.
  destruct (run_Inv latlng env hasReportEl sched click')
    as [HC _]; [apply click_Inv|].
  apply HC.
Qed.

Lemma settles_checks (k : slot) : settles' k = true -> checks (total' k) = 1.
Proof.
  unfold settles. intros H. apply Nat.ltb_lt in H.
  pose proof (settles_at_most_once latlng env k). lia.
Qed.

(** When the flood and the landslide lookup settle, a run that has
    answered every query has counted seven and shows the report. *)
Lemma quiescent_report (sched : list nat) :
  settles' flood = true ->
  settles' landslide = true ->
  pend (run env sched click') = [] ->
  completed (st (run env sched click')) = 7 /\
  page (run env sched click') = (page0 latlng hasReportEl ++ final_page')%list.
Proof.
  intros Hfl Hla Hp.
  assert (H7 : completed (st (run env sched click')) = 7).
  { rewrite run_completed. unfold count_all, done_by.
    rewrite !(run_quiescent sched _ Hp).
    rewrite (settles_checks flood Hfl), (settles_checks landslide Hla).
    rewrite !(settles_once latlng env) by discriminate.
    reflexivity. }
  split; [exact H7|]. now rewrite run_page, H7.
Qed.

(** When a lookup never calls [checkDone], no run ever shows the
    report. *)
Lemma stuck_report (k : slot) (sched : list nat) :
  settles' k = false ->
  completed (st (run env sched click')) <= 6 /\
  page (run env sched click') = page0 latlng hasReportEl.
Proof.
  intros Hk.
  assert (H6 : completed (st (run env sched click')) <= 6).
  { rewrite run_completed. unfold count_all.
    unfold settles in Hk. apply Nat.ltb_ge in Hk.
    pose proof (run_done_le sched k) as Hd.
    pose proof (fun j => Nat.le_trans _ _ _ (run_done_le sched j)
                           (settles_at_most_once latlng env j)) as Hj.
    pose proof (Hj fire). pose proof (Hj flood). pose proof (Hj ozone).
    pose proof (Hj pm). pose proof (Hj drink). pose proof (Hj landslide).
    pose proof (Hj shaking).
    destruct k; lia. }
  split; [exact H6|]. rewrite run_page.
  destruct (Nat.leb_spec 7 (completed (st (run env sched click')))); [lia|].
  apply app_nil_r.
Qed.

(** With every query answered, the report is on the page exactly when
    the flood and the landslide lookup have settled. *)
Lemma quiescent_report_iff (sched : list nat) :
  pend (run env sched click') = [] ->
  page (run env sched click') = (page0 latlng hasReportEl ++ final_page')%list
  <-> settles' flood = true /\ settles' landslide = true.
Proof.
  intros Hp. split.
  - intros Hpage.
    assert (Hno : forall k, settles' k = false -> False).
    { intros k Hk. destruct (stuck_report k sched Hk) as [_ H0].
      rewrite H0 in Hpage. rewrite <- (app_nil_r (page0 latlng hasReportEl)) in Hpage at 1.
      apply app_inv_head in Hpage. unfold final_page in Hpage.
      destruct hasReportEl; discriminate. }
    split.
    + destruct (settles' flood) eqn:E; [reflexivity | destruct (Hno flood E)].
    + destruct (settles' landslide) eqn:E; [reflexivity | destruct (Hno landslide E)].
  - intros [Hfl Hla]. now destruct (quiescent_report sched Hfl Hla Hp).
Qed.

End Reports.

(* ================================================================== *)
(** ** Comparing numbers *)
(* ================================================================== *)

Lemma Qltb_lt (x y : Q) : Qltb x y = true <-> (x < y)%Q.
Proof.
  unfold Qltb. rewrite negb_true_iff. split.
  - intros H. apply Qnot_le_lt. intros Hle.
    apply Qle_bool_iff in Hle. congruence.
  - intros H. destruct (Qle_bool y x) eqn:E; [|reflexivity].
    apply Qle_bool_iff in E. exfalso. now apply (Qlt_not_le x y).
Qed.

Lemma Qltb_ge (x y : Q) : Qltb x y = false <-> (y <= x)%Q.
Proof.
  unfold Qltb. rewrite negb_false_iff. apply Qle_bool_iff.
Qed.

Lemma lt_trans (a b c : jsnum) : lt a b = true -> lt b c = true -> lt a c = true.
Proof.
  destruct a as [| | |x], b as [| | |y], c as [| | |z]; simpl; try congruence.
  rewrite !Qltb_lt. intros H1 H2. exact (Qlt_trans _ _ _ H1 H2).
Qed.

(** [a < b <= c] gives [a < c] when [c] is a number. *)
Lemma lt_le_trans (a b c : jsnum) :
  lt a b = true -> lt c b = false -> isNaN c = false -> lt a c = true.
Proof.
  destruct a as [| | |x], b as [| | |y], c as [| | |z]; simpl; try congruence.
  rewrite Qltb_lt, Qltb_ge, Qltb_lt. intros H1 H2 _. exact (Qlt_le_trans _ _ _ H1 H2).
Qed.

Lemma lt_asym (a b : jsnum) : lt a b = true -> lt b a = false.
Proof.
  destruct a as [| | |x], b as [| | |y]; simpl; try congruence.
  rewrite Qltb_lt, Qltb_ge. intros H. exact (Qlt_le_weak _ _ H).
Qed.

Lemma finite_not_NaN (d : jsnum) : isFinite d = true -> isNaN d = false.
Proof. now destruct d. Qed.

(* ================================================================== *)
(** ** The two nearest-search loops *)
(* ================================================================== *)

Section Loops.
Context `{RT : Runtime} `{TF : Turf}.
Variable latlng : LatLng.

Local Abbreviation rank := (edgeDistance latlng).

Lemma closest_loop_total (fs : list Feature) :
  (forall f, In f fs -> exists d, rank f = Ok d) ->
  forall m b, exists r, closest_loop latlng fs m b = Ok r.
Proof.
  induction fs as [|f fs IH]; intros Hall m b; simpl; [eauto|].
  destruct (Hall f (or_introl eq_refl)) as [d Hd]. rewrite Hd. simpl.
  assert (Hrest : forall g, In g fs -> exists d, rank g = Ok d)
    by (intros g Hg; apply Hall; now right).
  destruct (negb (isNaN d) && lt d m); now apply IH.
Qed.

(** Either the loop keeps what it started with, and no feature that can
    be ranked is below [minDist]; or it ends on the first feature at the
    least distance below [minDist]. *)
Lemma closest_loop_spec (fs : list Feature) :
  forall m b m' b',
    closest_loop latlng fs m b = Ok (m', b') ->
    (m' = m /\ b' = b /\
     forall g d', In g fs -> rank g = Ok d' -> isNaN d' = false -> lt d' m = false)
    \/
    (exists l1 f l2,
        fs = (l1 ++ f :: l2)%list /\ b' = Some f /\ rank f = Ok m' /\
        isNaN m' = false /\ lt m' m = true /\
        (forall g d', In g l1 -> rank g = Ok d' -> isNaN d' = false -> lt m' d' = true) /\
        (forall g d', In g l2 -> rank g = Ok d' -> isNaN d' = false -> lt d' m' = false)).
Proof.
  induction fs as [|f fs IH]; intros m b m' b' H; simpl in H.
  - injection H as <- <-. left. repeat split. intros g d' [].
  - destruct (rank f) as [d|e] eqn:Hd; simpl in H; [|discriminate].
    destruct (negb (isNaN d) && lt d m) eqn:Hc.
    + apply andb_true_iff in Hc as [Hn Hlt]. apply negb_true_iff in Hn.
      destruct (IH _ _ _ _ H) as [(-> & -> & Hall)|(l1 & f' & l2 & -> & -> & Hr & Hn' & Hlt' & H1 & H2)].
      * right. exists [], f, fs. repeat split; auto; intros g d' [].
      * right. exists (f :: l1), f', l2. repeat split; auto.
        -- now apply lt_trans with d.
        -- intros g d' [<-|Hg] Hg' Hnn; [|eauto].
           rewrite Hd in Hg'. now injection Hg' as <-.
    + assert (Hskip : isNaN d = false -> lt d m = false).
      { intros Hn. rewrite Hn in Hc. simpl in Hc. exact Hc. }
      destruct (IH _ _ _ _ H) as [(-> & -> & Hall)|(l1 & f' & l2 & -> & -> & Hr & Hn' & Hlt' & H1 & H2)].
      * left. repeat split. intros g d' [<-|Hg] Hg' Hnn; [|eauto].
        rewrite Hd in Hg'. injection Hg' as <-. auto.
      * right. exists (f :: l1), f', l2. repeat split; auto.
        intros g d' [<-|Hg] Hg' Hnn; [|eauto].
        rewrite Hd in Hg'. injection Hg' as <-.
        apply lt_le_trans with m; auto.
Qed.

Variables label fieldName : string.

Lemma across_loop_total (fs : list Feature) :
  (forall f, In f fs -> exists d, rank f = Ok d) ->
  (forall f, In f fs -> properties f <> None) ->
  forall best, exists r, across_loop latlng label fieldName fs best = Ok r.
Proof.
  induction fs as [|f fs IH]; intros Hall Hprops best; simpl; [eauto|].
  destruct (Hall f (or_introl eq_refl)) as [d Hd]. rewrite Hd. simpl.
  assert (Hrest : forall g, In g fs -> exists d, rank g = Ok d)
    by (intros g Hg; apply Hall; now right).
  assert (Hrest' : forall g, In g fs -> properties g <> None)
    by (intros g Hg; apply Hprops; now right).
  destruct (negb (isFinite d)); [now apply IH|].
  destruct (improves best d); [|now apply IH].
  destruct (properties f) as [props|] eqn:Hp.
  - simpl. now apply IH.
  - exfalso. now apply (Hprops f (or_introl eq_refl)).
Qed.

Lemma across_loop_spec (fs : list Feature) :
  forall best r,
    across_loop latlng label fieldName fs best = Ok r ->
    (r = best /\
     forall g d', In g fs -> rank g = Ok d' -> isFinite d' = true ->
                  improves best d' = false)
    \/
    (exists l1 f l2 props d,
        fs = (l1 ++ f :: l2)%list /\ rank f = Ok d /\ isFinite d = true /\
        properties f = Some props /\
        r = Some {| dist := d; text := nearestText label (get props fieldName) d |} /\
        improves best d = true /\
        (forall g d', In g l1 -> rank g = Ok d' -> isFinite d' = true -> lt d d' = true) /\
        (forall g d', In g l2 -> rank g = Ok d' -> isFinite d' = true -> lt d' d = false)).
Proof.
  induction fs as [|f fs IH]; intros best r H; simpl in H.
  - injection H as <-. left. split; [reflexivity|]. intros g d' [].
  - destruct (rank f) as [d|e] eqn:Hd; simpl in H; [|discriminate].
    destruct (isFinite d) eqn:Hfin; simpl in H.
    2: { destruct (IH _ _ H) as [(-> & Hall)|(l1 & f' & l2 & props & d0 & -> & Hr & Hf & Hp & -> & Hi & H1 & H2)].
         - left. split; [reflexivity|]. intros g d' [<-|Hg] Hg' Hf'; [|eauto].
           rewrite Hd in Hg'. injection Hg' as <-. congruence.
         - right. exists (f :: l1), f', l2, props, d0. repeat split; auto.
           intros g d' [<-|Hg] Hg' Hf'; [|eauto].
           rewrite Hd in Hg'. injection Hg' as <-. congruence. }
    destruct (improves best d) eqn:Himp.
    + destruct (properties f) as [props|] eqn:Hp; simpl in H; [|discriminate].
      destruct (IH _ _ H) as [(-> & Hall)|(l1 & f' & l2 & props' & d0 & -> & Hr & Hf & Hp' & -> & Hi & H1 & H2)].
      * right. exists [], f, fs, props, d. repeat split; auto; intros g d' [].
      * right. exists (f :: l1), f', l2, props', d0. simpl in Hi. repeat split; auto.
        -- destruct best as [b0|]; [|reflexivity]. simpl in *.
           now apply lt_trans with d.
        -- intros g d' [<-|Hg] Hg' Hf'; [|eauto].
           rewrite Hd in Hg'. now injection Hg' as <-.
    + destruct best as [b0|]; [|discriminate]. simpl in Himp.
      destruct (IH _ _ H) as [(-> & Hall)|(l1 & f' & l2 & props' & d0 & -> & Hr & Hf & Hp' & -> & Hi & H1 & H2)].
      * left. split; [reflexivity|]. intros g d' [<-|Hg] Hg' Hf'; [|eauto].
        rewrite Hd in Hg'. now injection Hg' as <-.
      * right. exists (f :: l1), f', l2, props', d0. repeat split; auto.
        intros g d' [<-|Hg] Hg' Hf'; [|eauto].
        rewrite Hd in Hg'. injection Hg' as <-. simpl in Hi.
        apply lt_le_trans with (dist b0); auto using finite_not_NaN.
Qed.

Lemma across_loop_app (fs1 fs2 : list Feature) :
  forall best,
    across_loop latlng label fieldName (fs1 ++ fs2) best =
    (let* b := across_loop latlng label fieldName fs1 best in
     across_loop latlng label fieldName fs2 b).
Proof.
  induction fs1 as [|f fs1 IH]; intros best; simpl; [reflexivity|].
  destruct (rank f) as [d|e]; simpl; [|reflexivity].
  destruct (negb (isFinite d)); [apply IH|].
  destruct (improves best d); [|apply IH].
  destruct (member (properties f)); simpl; [apply IH | reflexivity].
Qed.

(** The loop over the layers is the loop over the features of all the
    layers. *)
Lemma nearestAcross_loop_value (env : providers) (layersArr : list layer) :
  forall best,
    value env (nearestAcross_loop latlng layersArr label fieldName best) =
    across_loop latlng label fieldName
      (flat_map (fun l => usable (env (Nearby l NEARBY_METERS))) layersArr) best.
Proof.
  induction layersArr as [|lyr rest IH]; intros best;
    cbn [nearestAcross_loop value flat_map]; [reflexivity|].
  rewrite across_loop_app. unfold usable at 1.
  destruct (err (env (Nearby lyr NEARBY_METERS))); [apply IH|].
  destruct (featuresOf (env (Nearby lyr NEARBY_METERS))) as [|f fs]; [apply IH|].
  destruct (across_loop latlng label fieldName (f :: fs) best); [apply IH | reflexivity].
Qed.

End Loops.
(* ================================================================== *)
(** ** Decimal text: printing and reading back *)
(* ================================================================== *)

Lemma digit_val_digit_of (d : N) : (d < 10)%N -> digit_val (digit_of d) = Some d.
Proof.
  intros H.
  destruct d as [|p]; [reflexivity|].
  do 4 (try destruct p as [p|p|]; try reflexivity; try lia).
Qed.

Lemma all_digits_app (s t : string) :
  all_digits (s ++ t) = all_digits s && all_digits t.
Proof.
  induction s as [|c s IH]; simpl; [reflexivity|].
  destruct (digit_val c); [exact IH | reflexivity].
Qed.

Lemma decimal_from_app (s t : string) (a : N) :
  all_digits s = true -> decimal_from (s ++ t) a = decimal_from t (decimal_from s a).
Proof.
  revert a. induction s as [|c s IH]; simpl; intros a H; [reflexivity|].
  destruct (digit_val c); [apply IH, H | discriminate].
Qed.

Lemma string_length_app (s t : string) :
  String.length (s ++ t) = String.length s + String.length t.
Proof. induction s; simpl; congruence. Qed.

Lemma read_digits_app (s rest : string) (a : N) (c : nat) :
  all_digits s = true ->
  read_digits (s ++ rest) a c = read_digits rest (decimal_from s a) (c + String.length s).
Proof.
  revert a c. induction s as [|x s IH]; simpl; intros a c H.
  - now rewrite Nat.add_0_r.
  - destruct (digit_val x); [|discriminate].
    rewrite IH by assumption. f_equal. lia.
Qed.

Lemma digits_fuel_spec (fuel : nat) :
  forall (n : N) (acc : string),
    (n < 10 ^ N.of_nat fuel)%N ->
    exists D, digits_fuel fuel n acc = D ++ acc /\ all_digits D = true /\
              decimal_from D 0 = n.
Proof.
  induction fuel as [|f IH]; intros n acc Hn.
  - exists EmptyString. simpl in *. repeat split. lia.
  - cbn [digits_fuel].
    assert (Hd : digit_val (digit_of (n mod 10)) = Some (n mod 10)%N)
      by (apply digit_val_digit_of, N.mod_lt; lia).
    destruct (N.ltb_spec n 10) as [Hlt|Hge].
    + exists (String (digit_of (n mod 10)) EmptyString). simpl.
      rewrite Hd. repeat split. rewrite N.mod_small by assumption. reflexivity.
    + assert (Hq : (n / 10 < 10 ^ N.of_nat f)%N).
      { apply N.Div0.div_lt_upper_bound.
        replace (N.of_nat (S f)) with (N.succ (N.of_nat f)) in Hn by lia.
        rewrite N.pow_succ_r' in Hn. exact Hn. }
      destruct (IH (n / 10)%N (String (digit_of (n mod 10)) acc) Hq)
        as (D & HD & Hall & Hval).
      exists (D ++ String (digit_of (n mod 10)) EmptyString).
      split; [|split].
      * rewrite HD. clear. induction D; simpl; congruence.
      * rewrite all_digits_app, Hall. simpl. now rewrite Hd.
      * rewrite decimal_from_app by assumption. rewrite Hval. simpl.
        rewrite Hd. rewrite (N.div_mod n 10) at 3 by lia. lia.
Qed.

Lemma digits_spec (n : N) : all_digits (digits n) = true /\ decimal_from (digits n) 0 = n.
Proof.
  unfold digits.
  destruct (digits_fuel_spec (S (N.to_nat (N.log2 n))) n EmptyString) as (D & HD & Hall & Hval).
  - replace (N.of_nat (S (N.to_nat (N.log2 n)))) with (N.succ (N.log2 n)) by lia.
    destruct n as [|p]; [reflexivity|].
    apply N.lt_le_trans with (2 ^ N.succ (N.log2 (N.pos p)))%N.
    + apply N.log2_spec. lia.
    + apply N.pow_le_mono_l. lia.
  - rewrite HD.
    assert (E : D ++ EmptyString = D) by (clear; induction D; simpl; congruence).
    rewrite E. tauto.
Qed.

Lemma zeros_spec (k : nat) :
  all_digits (zeros k) = true /\ String.length (zeros k) = k /\
  decimal_from (zeros k) 0 = 0%N.
Proof.
  induction k as [|k (IH1 & IH2 & IH3)]; simpl; [tauto|].
  change (digit_val "0") with (Some 0%N). cbn.
  rewrite IH1, IH2, IH3. tauto.
Qed.

Lemma substring_split (s : string) :
  forall k, k <= String.length s ->
    s = substring 0 k s ++ substring k (String.length s - k) s
    /\ String.length (substring 0 k s) = k.
Proof.
  induction s as [|c s IH]; intros k Hk; simpl in *.
  - assert (k = 0) by lia. subst. simpl. tauto.
  - destruct k as [|k].
    + simpl. split; [|reflexivity].
      f_equal. clear. induction s as [|c s IH]; simpl; [reflexivity|].
      f_equal. exact IH.
    + destruct (IH k ltac:(lia)) as [E L]. simpl. split; [f_equal; exact E | now rewrite L].
Qed.

Lemma parseFloatString_digit (c : ascii) (r : string) (v : N) :
  digit_val c = Some v ->
  parseFloatString (String c r) = read_literal false (String c r)
  /\ prefix "Infinity" (String c r) = false.
Proof.
  intros H.
  destruct c as [[] [] [] [] [] [] [] []]; vm_compute in H; try discriminate;
    split; reflexivity.
Qed.

Lemma string_app_nil_r (s : string) : s ++ EmptyString = s.
Proof. induction s; simpl; congruence. Qed.

Section Decimal.
Context {RT : Runtime}.

(** The text of [toFixed] for a value below 1e21 reads back, digit by
    digit, as the rounded numerator over the power of ten. *)
Lemma toFixed_read (d : nat) (q : Q) :
  d <> 0 -> (Qabs q < inject_Z (pow10 21))%Q ->
  parseFloatString (toFixed d (Fin q)) =
  Fin (let v := ((Qfloor (Qabs q * inject_Z (pow10 d) + (1 # 2))
                  # Pos.of_nat (Z.to_nat (pow10 d))) * inject_Z 1)%Q in
       if Qltb q 0 then (- v)%Q else v).
Proof.
  intros Hd Hq. unfold toFixed.
  assert (Hbig : Qle_bool (inject_Z (pow10 21)) (Qabs q) = false).
  { destruct (Qle_bool _ _) eqn:E; [|reflexivity].
    apply Qle_bool_iff in E. exfalso. exact (Qlt_not_le _ _ Hq E). }
  rewrite Hbig.
  set (z := Qfloor (Qabs q * inject_Z (pow10 d) + (1 # 2))%Q).
  assert (Hz : (0 <= z)%Z).
  { unfold z. change 0%Z with (Qfloor 0). apply Qfloor_resp_le.
    assert (0 <= Qabs q * inject_Z (pow10 d))%Q.
    { apply Qmult_le_0_compat; [apply Qabs_nonneg|].
      change 0%Q with (inject_Z 0). rewrite <- Zle_Qle. unfold pow10. lia. }
    apply Qle_trans with (Qabs q * inject_Z (pow10 d) + 0)%Q.
    - now rewrite Qplus_0_r.
    - apply Qplus_le_r. discriminate. }
  destruct (digits_spec (Z.to_N z)) as [Hall Hval].
  set (m0 := digits (Z.to_N z)) in *.
  set (m := if String.length m0 <=? d
            then zeros (S d - String.length m0) ++ m0 else m0).
  assert (Hm : all_digits m = true /\ decimal_from m 0 = Z.to_N z
               /\ S d <= String.length m).
  { unfold m. destruct (Nat.leb_spec (String.length m0) d) as [H|H].
    - destruct (zeros_spec (S d - String.length m0)) as (Z1 & Z2 & Z3).
      rewrite all_digits_app, Z1, Hall, decimal_from_app, Z3, Hval, string_length_app, Z2
        by assumption.
      repeat split; lia.
    - repeat split; try assumption; lia. }
  destruct Hm as (Hm1 & Hm2 & Hm3). clearbody m.
  destruct d as [|d']; [congruence|]. clear Hd.
  destruct (substring_split m (String.length m - S d') ltac:(lia)) as [Hsplit Hlen].
  replace (String.length m - (String.length m - S d')) with (S d') in Hsplit by lia.
  set (A := substring 0 (String.length m - S d') m) in *.
  set (B := substring (String.length m - S d') (S d') m) in *.
  assert (HlenB : String.length B = S d').
  { apply (f_equal String.length) in Hsplit. rewrite string_length_app in Hsplit. lia. }
  assert (HA : all_digits A = true /\ all_digits B = true).
  { rewrite Hsplit, all_digits_app in Hm1. now apply andb_true_iff in Hm1. }
  destruct HA as [HA HB].
  assert (Hn : decimal_from B (decimal_from A 0) = Z.to_N z).
  { rewrite <- decimal_from_app by assumption. now rewrite <- Hsplit. }
  destruct A as [|c A']; [simpl in Hlen; lia|].
  assert (Hc : exists v, digit_val c = Some v).
  { simpl in HA. destruct (digit_val c) as [v|]; [now exists v | discriminate]. }
  destruct Hc as [v Hc].
  assert (Hread : forall neg,
             read_literal neg (String c A' ++ "." ++ B) =
             Fin (let v := ((z # Pos.of_nat (Z.to_nat (pow10 (S d')))) * inject_Z 1)%Q in
                  if neg then (- v)%Q else v)).
  { intros neg. unfold read_literal.
    destruct (parseFloatString_digit c (A' ++ "." ++ B) v Hc) as [_ Hpre].
    change (String c A' ++ "." ++ B) with (String c (A' ++ "." ++ B)) at 1.
    rewrite Hpre.
    rewrite (read_digits_app (String c A') ("." ++ B) 0 0 HA).
    change (read_digits ("." ++ B) (decimal_from (String c A') 0)
              (0 + String.length (String c A')))
      with (decimal_from (String c A') 0, 0 + String.length (String c A'),
            String "." B).
    cbv iota beta.
    rewrite <- (string_app_nil_r B) at 1.
    rewrite (read_digits_app B EmptyString _ 0 HB).
    cbn [read_digits]. rewrite Hn, HlenB. cbn [String.length Nat.add].
    rewrite Z2N.id by assumption. reflexivity. }
  destruct (Qltb q 0).
  - change ("-" ++ String c A' ++ "." ++ B)
      with (String "-" (String c A' ++ "." ++ B)).
    change (parseFloatString (String "-" (String c A' ++ "." ++ B)))
      with (read_literal true (String c A' ++ "." ++ B)).
    apply Hread.
  - change (String c A' ++ "." ++ B) with (String c (A' ++ "." ++ B)).
    rewrite (proj1 (parseFloatString_digit c (A' ++ "." ++ B) v Hc)).
    apply Hread.
Qed.

(** Printing with [toFixed] and reading the text back: the value rounded
    to [d] decimals, half away from zero. *)
Lemma parseFloat_toFixed (d : nat) (q : Q) :
  d <> 0 -> (Qabs q < inject_Z (pow10 21))%Q ->
  exists q', parseFloatString (toFixed d (Fin q)) = Fin q' /\
    (q' == (if Qltb q 0 then - (1) else 1) *
           (inject_Z (Qfloor (Qabs q * inject_Z (pow10 d) + (1 # 2)))
            / inject_Z (pow10 d)))%Q.
Proof.
  intros Hd Hq. rewrite (toFixed_read d q Hd Hq). eexists. split; [reflexivity|].
  cbv zeta.
  assert (Hp : exists p, pow10 d = Zpos p).
  { unfold pow10. destruct (10 ^ Z.of_nat d)%Z as [|p|p] eqn:E.
    - exfalso. assert (0 < 10 ^ Z.of_nat d)%Z by (apply Z.pow_pos_nonneg; lia). lia.
    - now exists p.
    - exfalso. assert (0 < 10 ^ Z.of_nat d)%Z by (apply Z.pow_pos_nonneg; lia). lia. }
  destruct Hp as [p Hp]. rewrite Hp.
  change (Z.to_nat (Z.pos p)) with (Pos.to_nat p). rewrite Pos2Nat.id.
  change (inject_Z 1) with 1%Q.
  destruct (Qltb q 0); rewrite Qmake_Qdiv; ring.
Qed.

End Decimal.


(* ================================================================== *)
(** ** What each lookup does on its own *)
(* ================================================================== *)

Lemma append_empty (s : string) : s ++ EmptyString = s.
Proof. induction s as [|c s IH]; simpl; [reflexivity | now rewrite IH]. Qed.

(** Code that only awaits, inside [try], [catch] and [finally]: its
    queries come first, then what follows its value. *)
Lemma acts_quiet_in_try (env : providers) {A : Type} (p : prog A)
  (f : A -> prog unit) (h : exn -> prog unit) (c : prog unit) :
  quiet p ->
  acts env (try_finally (try_catch (bind p f) h) c) =
  (map ASend (asks env p)
   ++ acts env (try_finally
                  (try_catch (match value env p with
                              | Ok a => f a
                              | Raise e => Throw e
                              end) h) c))%list.
Proof.
  induction p as [a|e|e0|r k IH|r cb k IH|s txt k IH|k IH] using prog_induction;
    simpl; try tauto.
  intros Hq. f_equal. apply IH, Hq.
Qed.

Section Totals.
Context `{RT : Runtime} `{TF : Turf}.
Variable latlng : LatLng.
Variable env : providers.

Local Abbreviation total' := (total latlng env).
Local Abbreviation slot_text' := (slot_text latlng env).

Lemma quiet_nearestAcross_loop (layersArr : list layer) (label fieldName : string) :
  forall best, quiet (nearestAcross_loop latlng layersArr label fieldName best).
Proof.
  induction layersArr as [|lyr rest IH]; intros best;
    cbn [nearestAcross_loop quiet]; [exact I|].
  intros x. destruct (err x); [apply IH|].
  destruct (featuresOf x) as [|f fs]; [apply IH|].
  destruct (across_loop latlng label fieldName (f :: fs) best); [apply IH | exact I].
Qed.

Lemma quiet_bind {A B : Type} (p : prog A) (f : A -> prog B) :
  quiet p -> (forall a, quiet (f a)) -> quiet (bind p f).
Proof.
  intros Hp Hf.
  induction p as [a|e|e0|r k IH|r cb k IH|s txt k IH|k IH] using prog_induction;
    simpl in *; auto; tauto.
Qed.

Lemma value_bind {A B : Type} (p : prog A) (f : A -> prog B) :
  value env (bind p f) =
  match value env p with
  | Ok a => value env (f a)
  | Raise e => Raise e
  end.
Proof.
  induction p as [a|e|e0|r k IH|r cb k IH|s txt k IH|k IH] using prog_induction;
    simpl; auto.
Qed.

Lemma asks_bind_ret {A B : Type} (p : prog A) (g : A -> B) :
  asks env (bind p (fun a => Ret (g a))) = asks env p.
Proof.
  induction p as [a|e|e0|r k IH|r cb k IH|s txt k IH|k IH] using prog_induction;
    simpl; auto; now f_equal.
Qed.

Lemma asks_nearestAcross_cons (lyr : layer) (rest : list layer)
  (label fieldName : string) (best : option Best) :
  asks env (nearestAcross_loop latlng (lyr :: rest) label fieldName best) =
  Nearby lyr NEARBY_METERS ::
  match across_loop latlng label fieldName
          (usable (env (Nearby lyr NEARBY_METERS))) best with
  | Ok best' => asks env (nearestAcross_loop latlng rest label fieldName best')
  | Raise _ => []
  end.
Proof.
  cbn [nearestAcross_loop asks]. f_equal. unfold usable.
  destruct (err (env (Nearby lyr NEARBY_METERS))); [reflexivity|].
  destruct (featuresOf (env (Nearby lyr NEARBY_METERS))) as [|f fs]; [reflexivity|].
  now destruct (across_loop latlng label fieldName (f :: fs) best).
Qed.

(** The queries of the nearest-search across both fire layers: the SRA
    layer is asked unless the features of the LRA layer made the loop
    throw. *)
Lemma asks_nearest_fire (label fieldName : string) :
  asks env (nearestByEdgeDistanceAcross latlng [fireHazardLRA; fireHazardSRA]
              label fieldName) =
  Nearby fireHazardLRA NEARBY_METERS ::
  match across_loop latlng label fieldName
          (usable (env (Nearby fireHazardLRA NEARBY_METERS))) None with
  | Ok _ => [Nearby fireHazardSRA NEARBY_METERS]
  | Raise _ => []
  end.
Proof.
  unfold nearestByEdgeDistanceAcross.
  rewrite asks_bind_ret, asks_nearestAcross_cons. f_equal.
  destruct (across_loop latlng label fieldName
              (usable (env (Nearby fireHazardLRA NEARBY_METERS))) None) as [b|e];
    [|reflexivity].
  rewrite asks_nearestAcross_cons. f_equal.
  now destruct (across_loop _ _ _ _ _).
Qed.

(** The value of the nearest-search across both fire layers. *)
Lemma value_nearest_fire (label fieldName : string) :
  value env (nearestByEdgeDistanceAcross latlng [fireHazardLRA; fireHazardSRA]
               label fieldName) =
  (let* best := across_loop latlng label fieldName (fire_candidates env) None in
   Ok (match best with
       | Some b => text b
       | None => notFoundText label
       end)).
Proof.
  unfold nearestByEdgeDistanceAcross. rewrite value_bind, nearestAcross_loop_value.
  unfold fire_candidates. cbn [flat_map]. rewrite app_nil_r.
  now destruct (across_loop _ _ _ _ _).
Qed.

(** The fire lookup, step by step. *)
Lemma fire_total :
  total' fire =
  ASend (Contains fireHazardLRA) ::
  (if contained (env (Contains fireHazardLRA))
   then settle_with fire (fire_inside "LRA" (env (Contains fireHazardLRA)))
   else
     ASend (Contains fireHazardSRA) ::
     (if contained (env (Contains fireHazardSRA))
      then settle_with fire (fire_inside "SRA" (env (Contains fireHazardSRA)))
      else
        (map ASend
           (asks env (nearestByEdgeDistanceAcross latlng
                        [fireHazardLRA; fireHazardSRA]
                        "Fire Hazard Zone" "FHSZ_Description"))
         ++ settle_with fire
              (let* txt := value env (nearestByEdgeDistanceAcross latlng
                                        [fireHazardLRA; fireHazardSRA]
                                        "Fire Hazard Zone" "FHSZ_Description") in
               Ok (txt ++ fireNote)%string))%list)).
Proof.
  unfold total, task_of. simpl find. cbv beta iota. unfold snd, fire_task.
  cbn [queryContains bind try_catch try_finally acts]. f_equal.
  destruct (contained (env (Contains fireHazardLRA))).
  { unfold fire_inside. now destruct (first_property _ _). }
  cbn [queryContains bind try_catch try_finally acts]. f_equal.
  destruct (contained (env (Contains fireHazardSRA))).
  { unfold fire_inside. now destruct (first_property _ _). }
  rewrite acts_quiet_in_try.
  2: { unfold nearestByEdgeDistanceAcross. apply quiet_bind;
       [apply quiet_nearestAcross_loop | intros a; exact I]. }
  f_equal. now destruct (value env _).
Qed.

(** [getClosestFeatureByEdgeDistance] sends the proximity query and, if
    the callback of [run] gets that far, calls [callback] once. *)
Lemma getClosest_acts (l : layer) (label fieldName : string)
  (callback : string -> prog unit) :
  acts env (getClosestFeatureByEdgeDistance latlng l label fieldName callback) =
  ASend (Nearby l NEARBY_METERS) ::
  match closest_text latlng label fieldName (env (Nearby l NEARBY_METERS)) with
  | Ok txt => acts env (callback txt)
  | Raise _ => []
  end.
Proof.
  unfold getClosestFeatureByEdgeDistance, closest_text. cbn [acts app]. f_equal.
  destruct (has_features (env (Nearby l NEARBY_METERS))) as [[|]|e]; cbn; auto.
  destruct (response_features (env (Nearby l NEARBY_METERS))) as [fs|e]; cbn; auto.
  destruct (closest_loop latlng fs PInf None) as [[m [b|]]|e]; cbn; auto.
  destruct (properties b); cbn; auto.
Qed.

(** The flood lookup, step by step: nothing settles the slot when the
    callback of the proximity query throws. *)
Lemma flood_total :
  total' flood =
  ASend (Contains floodLayer) ::
  match has_features (env (Contains floodLayer)) with
  | Ok true => settle_with flood (flood_inside (env (Contains floodLayer)))
  | Ok false =>
      ASend (Nearby floodLayer NEARBY_METERS) ::
      match closest_text latlng "Flood Hazard Zone" "ESRI_SYMBOLOGY"
              (env (Nearby floodLayer NEARBY_METERS)) with
      | Ok txt => [AWrite flood (txt ++ floodNote); ACheck]
      | Raise _ => []
      end
  | Raise _ => [AWrite flood (errorText flood); ACheck]
  end.
Proof.
  unfold total, task_of. simpl find. cbv beta iota. unfold snd.
  cbn [acts app]. f_equal. unfold flood_callback.
  destruct (has_features (env (Contains floodLayer))) as [[|]|e]; cbn [lift bind try_catch].
  - unfold flood_inside. now destruct (first_property _ _).
  - transitivity
      (acts env (getClosestFeatureByEdgeDistance latlng floodLayer
                   "Flood Hazard Zone" "ESRI_SYMBOLOGY"
                   (fun txt => setResult flood (txt ++ floodNote) ;; callCheckDone)));
      [reflexivity|].
    now rewrite getClosest_acts.
  - reflexivity.
Qed.

Lemma calenviro_total (k : slot) (l : layer) (cb : response -> prog unit)
  (txt : response -> result (option string)) :
  task_of latlng k = Run (Contains l) cb (Ret tt) ->
  (forall res, acts env (cb res) = settle_with_opt k (txt res)) ->
  total' k = ASend (Contains l) :: settle_with_opt k (txt (env (Contains l))).
Proof.
  intros Ht Hcb. unfold total. rewrite Ht. cbn [acts app]. now rewrite Hcb.
Qed.

Lemma ozone_total :
  total' ozone =
  ASend (Contains ozoneLayer) :: settle_with_opt ozone (ozone_text (env (Contains ozoneLayer))).
Proof.
  apply (calenviro_total ozone ozoneLayer ozone_callback); [reflexivity|].
  intros res. unfold ozone_callback, ozone_text, calenviro_text.
  destruct (has_features res) as [[|]|e]; cbn; auto.
  destruct (first_properties res) as [p|e]; cbn; auto.
  destruct (toFixed_or_unknown 3 (get p "ozone")); cbn; auto.
Qed.

Lemma pm_total :
  total' pm =
  ASend (Contains pmLayer) :: settle_with_opt pm (pm_text (env (Contains pmLayer))).
Proof.
  apply (calenviro_total pm pmLayer pm_callback); [reflexivity|].
  intros res. unfold pm_callback, pm_text, calenviro_text.
  destruct (has_features res) as [[|]|e]; cbn; auto.
  destruct (first_properties res) as [p|e]; cbn; auto.
  destruct (toFixed_or_unknown 2 (get p "pm")); cbn; auto.
Qed.

Lemma drink_total :
  total' drink =
  ASend (Contains drinkLayer) :: settle_with_opt drink (drink_text (env (Contains drinkLayer))).
Proof.
  apply (calenviro_total drink drinkLayer drink_callback); [reflexivity|].
  intros res. unfold drink_callback, drink_text, calenviro_text.
  destruct (has_features res) as [[|]|e]; cbn; auto.
  destruct (first_properties res) as [p|e]; cbn; auto.
  destruct (toFixed_or_unknown 2 (get p "drink")); cbn; auto.
  now rewrite append_empty.
Qed.

(** The landslide lookup: a provider error rejects the promise and the
    [catch] block writes the error text; when the parser throws, the
    lookup does nothing more. *)
Lemma landslide_total :
  total' landslide =
  ASend IdentifyLandslide ::
  match err (env IdentifyLandslide) with
  | Some _ => [AWrite landslide (errorText landslide); ACheck]
  | None =>
      match Landslide.parseLandslideLabelFromIdentify
              (raw (env IdentifyLandslide)) (fc (env IdentifyLandslide)) with
      | Ok (Some (String c r)) => [AWrite landslide (fmtLandslide (String c r)); ACheck]
      | Ok _ => [ACheck]
      | Raise _ => []
      end
  end.
Proof.
  unfold total, task_of. simpl find. cbv beta iota. unfold snd, landslide_task.
  cbn [identifyLandslideAt bind try_catch try_finally acts]. f_equal.
  destruct (err (env IdentifyLandslide)); [reflexivity|].
  now destruct (Landslide.parseLandslideLabelFromIdentify _ _) as [[[|c r]|]|e].
Qed.

(** The shaking lookup: the promise of [identifyMMIAt] always resolves. *)
Lemma shaking_total :
  total' shaking =
  ASend IdentifyMMI ::
  match value env identifyMMIAt with
  | Ok (Some v) => [AWrite shaking (fmtShaking v (formatMMI v)); ACheck]
  | _ => [ACheck]
  end.
Proof.
  unfold total, task_of. simpl find. cbv beta iota. unfold snd, shaking_task.
  cbn [identifyMMIAt bind try_catch try_finally acts value]. f_equal.
  destruct (err (env IdentifyMMI)); [reflexivity|].
  destruct (mmi_val (env IdentifyMMI)) as [v|]; [|reflexivity].
  now destruct (isFinite v).
Qed.

End Totals.

(* ================================================================== *)
(** ** Reading a lookup's own log *)
(* ================================================================== *)

Lemma sends_map_ASend (l : list request) : sends (map ASend l) = l.
Proof. induction l as [|r l IH]; simpl; [reflexivity | now rewrite IH]. Qed.

Lemma sends_settle_with (k : slot) (txt : result string) : sends (settle_with k txt) = [].
Proof. now destruct txt. Qed.

Lemma sends_settle_with_opt (k : slot) (txt : result (option string)) :
  sends (settle_with_opt k txt) = [].
Proof. now destruct txt as [[t|]|e]. Qed.

Lemma last_text_send (k : slot) (r : request) (l : list action) (cur : string) :
  last_text k (ASend r :: l) cur = last_text k l cur.
Proof. reflexivity. Qed.

Lemma last_text_check (k : slot) (cur : string) : last_text k [ACheck] cur = cur.
Proof. reflexivity. Qed.

Lemma last_text_sends (k : slot) (l : list request) (cur : string) :
  last_text k (map ASend l) cur = cur.
Proof. induction l as [|r l IH]; simpl; auto. Qed.

Lemma last_text_settle_with (k : slot) (txt : result string) (cur : string) :
  last_text k (settle_with k txt) cur =
  match txt with
  | Ok t => t
  | Raise _ => errorText k
  end.
Proof. destruct txt; simpl; now rewrite slot_eqb_refl. Qed.

Lemma last_text_settle_with_opt (k : slot) (txt : result (option string)) (cur : string) :
  last_text k (settle_with_opt k txt) cur =
  match txt with
  | Ok (Some t) => t
  | Ok None => cur
  | Raise _ => errorText k
  end.
Proof. destruct txt as [[t|]|e]; simpl; now rewrite ?slot_eqb_refl. Qed.

Lemma append_not_empty (s : string) (c : ascii) (r : string) :
  s ++ String c r <> EmptyString.
Proof. destruct s; discriminate. Qed.

Section SlotTexts.
Context `{RT : Runtime} `{TF : Turf}.
Variable latlng : LatLng.
Variable env : providers.

Local Abbreviation total' := (total latlng env).
Local Abbreviation slot_text' := (slot_text latlng env).
Local Abbreviation settles' := (settles latlng env).

(** The text of the fire slot. *)
Lemma fire_text :
  slot_text' fire =
  if contained (env (Contains fireHazardLRA)) then
    match fire_inside "LRA" (env (Contains fireHazardLRA)) with
    | Ok t => t
    | Raise _ => errorText fire
    end
  else if contained (env (Contains fireHazardSRA)) then
    match fire_inside "SRA" (env (Contains fireHazardSRA)) with
    | Ok t => t
    | Raise _ => errorText fire
    end
  else
    match across_loop latlng "Fire Hazard Zone" "FHSZ_Description"
            (fire_candidates env) None with
    | Ok (Some b) => text b ++ fireNote
    | Ok None => notFoundText "Fire Hazard Zone" ++ fireNote
    | Raise _ => errorText fire
    end.
Proof.
  unfold slot_text. rewrite fire_total, last_text_send.
  destruct (contained (env (Contains fireHazardLRA))).
  { apply last_text_settle_with. }
  rewrite last_text_send.
  destruct (contained (env (Contains fireHazardSRA))).
  { apply last_text_settle_with. }
  rewrite last_text_app, last_text_sends, last_text_settle_with.
  rewrite value_nearest_fire.
  now destruct (across_loop latlng "Fire Hazard Zone" "FHSZ_Description"
                  (fire_candidates env) None) as [[b|]|e].
Qed.

(** The text of the flood slot. *)
Lemma flood_text :
  slot_text' flood =
  match has_features (env (Contains floodLayer)) with
  | Ok true =>
      match flood_inside (env (Contains floodLayer)) with
      | Ok t => t
      | Raise _ => errorText flood
      end
  | Ok false =>
      match closest_text latlng "Flood Hazard Zone" "ESRI_SYMBOLOGY"
              (env (Nearby floodLayer NEARBY_METERS)) with
      | Ok txt => txt ++ floodNote
      | Raise _ => results0 flood
      end
  | Raise _ => errorText flood
  end.
Proof.
  unfold slot_text. rewrite flood_total, last_text_send.
  destruct (has_features (env (Contains floodLayer))) as [[|]|e].
  - apply last_text_settle_with.
  - rewrite last_text_send. now destruct (closest_text _ _ _ _).
  - reflexivity.
Qed.

(** Whether the flood lookup settles. *)
Lemma flood_settles :
  settles' flood =
  match has_features (env (Contains floodLayer)) with
  | Ok false =>
      match closest_text latlng "Flood Hazard Zone" "ESRI_SYMBOLOGY"
              (env (Nearby floodLayer NEARBY_METERS)) with
      | Ok _ => true
      | Raise _ => false
      end
  | _ => true
  end.
Proof.
  unfold settles. rewrite flood_total.
  destruct (has_features (env (Contains floodLayer))) as [[|]|e].
  - unfold flood_inside. now destruct (first_property _ _).
  - now destruct (closest_text _ _ _ _).
  - reflexivity.
Qed.

Lemma calenviro_slot_text (k : slot) (l : layer) (txt : result (option string)) :
  total' k = ASend (Contains l) :: settle_with_opt k txt ->
  slot_text' k =
  match txt with
  | Ok (Some t) => t
  | Ok None => results0 k
  | Raise _ => errorText k
  end.
Proof.
  intros Ht. unfold slot_text. rewrite Ht, last_text_send.
  apply last_text_settle_with_opt.
Qed.

Lemma landslide_text :
  slot_text' landslide =
  match err (env IdentifyLandslide) with
  | Some _ => errorText landslide
  | None =>
      match Landslide.parseLandslideLabelFromIdentify
              (raw (env IdentifyLandslide)) (fc (env IdentifyLandslide)) with
      | Ok (Some (String c r)) => fmtLandslide (String c r)
      | _ => results0 landslide
      end
  end.
Proof.
  unfold slot_text. rewrite landslide_total, last_text_send.
  destruct (err (env IdentifyLandslide)); [reflexivity|].
  now destruct (Landslide.parseLandslideLabelFromIdentify _ _) as [[[|c r]|]|e].
Qed.

Lemma shaking_text :
  slot_text' shaking =
  match value env identifyMMIAt with
  | Ok (Some v) => fmtShaking v (formatMMI v)
  | _ => results0 shaking
  end.
Proof.
  unfold slot_text. rewrite shaking_total, last_text_send.
  now destruct (value env identifyMMIAt) as [[v|]|e].
Qed.

(** [identifyMMIAt] resolves, with a finite number or with [null]. *)
Lemma identifyMMIAt_value :
  value env identifyMMIAt =
  Ok (match err (env IdentifyMMI), mmi_val (env IdentifyMMI) with
      | None, Some v => if isFinite v then Some v else None
      | _, _ => None
      end).
Proof.
  cbn [identifyMMIAt value].
  destruct (err (env IdentifyMMI)); [reflexivity|].
  now destruct (mmi_val (env IdentifyMMI)).
Qed.

(** An answer with an error offers no feature. *)
Lemma failed_has_features (res : response) :
  err res <> None -> has_features res = Ok false.
Proof. unfold has_features. destruct (err res); congruence. Qed.

Lemma failed_contained (res : response) : err res <> None -> contained res = false.
Proof. unfold contained. destruct (err res); congruence. Qed.

Lemma failed_usable (res : response) : err res <> None -> usable res = [].
Proof. unfold usable. destruct (err res); congruence. Qed.

Lemma failed_closest_text (label fieldName : string) (res : response) :
  err res <> None -> closest_text latlng label fieldName res = Ok (notFoundText label).
Proof. intros H. unfold closest_text. now rewrite (failed_has_features res H). Qed.

Lemma failed_calenviro_text (a b c d e f : string) (n : nat) (res : response) :
  err res <> None -> calenviro_text a b c d e f n res = Ok None.
Proof. intros H. unfold calenviro_text. now rewrite (failed_has_features res H). Qed.

Lemma thrown_calenviro_text (a b c d e f : string) (n : nat) (res : response) (x : exn) :
  has_features res = Raise x -> calenviro_text a b c d e f n res = Raise x.
Proof. intros H. unfold calenviro_text. now rewrite H. Qed.

End SlotTexts.

(* ================================================================== *)
(** ** The click report: the properties *)
(* ================================================================== *)

Section ClickReport.
Context `{RT : Runtime} `{TF : Turf}.
Variable latlng : LatLng.
Variable env : providers.

Local Abbreviation total' := (total latlng env).
Local Abbreviation slot_text' := (slot_text latlng env).
Local Abbreviation settles' := (settles latlng env).
Local Abbreviation click' := (click latlng).

(** C1. Whatever the order in which the providers answer, what a click
    puts on the page after the loading text is nothing, or one report
    that lists the seven slots in the order fire, flood, ozone, pm,
    drink, landslide, shaking, every slot with the text of its own
    lookup; that text depends on the providers' answers only, not on the
    schedule.  Every run can be continued until all queries are
    answered, and the report is then on the page exactly when the flood
    and the landslide lookup have both called [checkDone]. *)
Theorem report_order_is_static (hasReportEl : bool) (sched : list nat) :
  let report :=
    String.concat "<br><br>"
      [slot_text' fire; slot_text' flood; slot_text' ozone; slot_text' pm;
       slot_text' drink; slot_text' landslide; slot_text' shaking] in
  let shown :=
    (page0 latlng hasReportEl
     ++ (if hasReportEl then [InnerHTML report] else [])
     ++ [HideSpinner])%list in
  let s := run env sched (click' hasReportEl) in
  (page s = page0 latlng hasReportEl \/ page s = shown)
  /\ (exists more, pend (run env (sched ++ more) (click' hasReportEl)) = [])
  /\ (pend s = [] ->
      (page s = shown <-> settles' flood = true /\ settles' landslide = true)).
Proof.
  intros report shown s. split; [|split].
  - unfold s. rewrite run_page.
    destruct (7 <=? _); [right; reflexivity | left; apply app_nil_r].
  - apply run_completes.
  - intros Hp. apply (quiescent_report_iff latlng env hasReportEl sched Hp).
Qed.


(** C4. When a containment query answers without error and with at least
    one feature, the lookup sends no proximity query and the slot is
    built from the first feature of the answer alone: its zone text, or
    the error text of the [catch] block when that feature has no
    properties.  This holds for the flood layer, for the LRA fire layer,
    and for the SRA fire layer whenever it is asked. *)
Theorem containment_skips_nearest_search (f : Feature) (rest : list Feature) :
  let inside (res : response) :=
    err res = None /\
    exists c, fc res = Some c /\ features c = Some (f :: rest) in
  (inside (env (Contains floodLayer)) ->
   sends (total' flood) = [Contains floodLayer] /\
   slot_text' flood =
     match properties f with
     | Some p => fmtFloodInside (get p "ESRI_SYMBOLOGY")
     | None => errorText flood
     end)
  /\
  (inside (env (Contains fireHazardLRA)) ->
   sends (total' fire) = [Contains fireHazardLRA] /\
   slot_text' fire =
     match properties f with
     | Some p => fmtFireInside (get p "FHSZ_Description") "LRA"
     | None => errorText fire
     end)
  /\
  (contained (env (Contains fireHazardLRA)) = false ->
   inside (env (Contains fireHazardSRA)) ->
   sends (total' fire) = [Contains fireHazardLRA; Contains fireHazardSRA] /\
   slot_text' fire =
     match properties f with
     | Some p => fmtFireInside (get p "FHSZ_Description") "SRA"
     | None => errorText fire
     end).
Proof.
  intros inside.
  assert (Hc : forall res, inside res -> contained res = true).
  { intros res (He & c & Hfc & Hf). unfold contained. now rewrite He, Hfc, Hf. }
  assert (Hh : forall res, inside res -> has_features res = Ok true).
  { intros res (He & c & Hfc & Hf). unfold has_features, response_features.
    rewrite He, Hfc. cbn [member rbind]. now rewrite Hf. }
  assert (Hp : forall res k, inside res ->
             first_property res k =
             match properties f with Some p => Ok (get p k) | None => Raise TypeError end).
  { intros res k (He & c & Hfc & Hf).
    unfold first_property, first_properties, response_features.
    rewrite Hfc. cbn [member rbind]. rewrite Hf. simpl. now destruct (properties f). }
  split; [|split].
  - intros Hin. split.
    + rewrite flood_total, (Hh _ Hin). cbn [sends flat_map app].
      now rewrite sends_settle_with.
    + rewrite flood_text, (Hh _ Hin). unfold flood_inside. rewrite (Hp _ _ Hin).
      now destruct (properties f).
  - intros Hin. split.
    + rewrite fire_total, (Hc _ Hin). cbn [sends flat_map app].
      now rewrite sends_settle_with.
    + rewrite fire_text, (Hc _ Hin). unfold fire_inside. rewrite (Hp _ _ Hin).
      now destruct (properties f).
  - intros Hl Hin. split.
    + rewrite fire_total, Hl, (Hc _ Hin). cbn [sends flat_map app].
      now rewrite sends_settle_with.
    + rewrite fire_text, Hl, (Hc _ Hin). unfold fire_inside. rewrite (Hp _ _ Hin).
      now destruct (properties f).
Qed.

(** C5. For a proximity answer without error whose features all have a
    distance (never [-Infinity]) and properties, both nearest-searches
    end on the same kind of outcome: the first feature at the least
    finite edge distance (a later feature replaces it only when strictly
    nearer; a feature whose distance is [NaN], or is not finite, is
    never ranked), or, when the answer has no feature or none with a
    finite distance, the text [No nearby zones found].
    [getClosestFeatureByEdgeDistance] hands that text to its callback,
    [nearestByEdgeDistanceAcross] returns it. *)
Theorem nearest_search_picks_first_minimum
  (l : layer) (label fieldName : string) (c : FeatureCollection) (fs : list Feature) :
  err (env (Nearby l NEARBY_METERS)) = None ->
  fc (env (Nearby l NEARBY_METERS)) = Some c ->
  features c = Some fs ->
  (forall f, In f fs -> exists d, edgeDistance latlng f = Ok d /\ d <> NInf) ->
  (forall f, In f fs -> properties f <> None) ->
  (exists txt,
      nearest_outcome latlng label fieldName fs txt /\
      forall callback,
        acts env (getClosestFeatureByEdgeDistance latlng l label fieldName callback)
        = ASend (Nearby l NEARBY_METERS) :: acts env (callback txt))
  /\
  (exists txt,
      nearest_outcome latlng label fieldName fs txt /\
      value env (nearestByEdgeDistanceAcross latlng [l] label fieldName) = Ok txt)
  /\
  notFoundText label = "❌ <strong>" ++ label ++ ":</strong> No nearby zones found".
Proof.
  intros He Hc Hf Hd Hp.
  assert (Hd' : forall f, In f fs -> exists d, edgeDistance latlng f = Ok d).
  { intros f Hin. destruct (Hd f Hin) as (d & Hd1 & _). eauto. }
  split; [|split; [|reflexivity]].
  - (* getClosestFeatureByEdgeDistance *)
    assert (Hct : exists txt,
               nearest_outcome latlng label fieldName fs txt /\
               closest_text latlng label fieldName (env (Nearby l NEARBY_METERS)) = Ok txt).
    { unfold closest_text, has_features, response_features.
      rewrite He, Hc. cbn [member rbind]. rewrite Hf. cbn [member rbind].
      destruct fs as [|f0 fs0] eqn:Efs.
      { exists (notFoundText label). split; [|reflexivity]. left. split; [|reflexivity].
        intros g d' []. }
      rewrite <- Efs in *. replace (0 <? List.length fs) with true by now rewrite Efs.
      destruct (closest_loop_total latlng fs Hd' PInf None) as [[m b] Hr].
      rewrite Hr. simpl.
      destruct (closest_loop_spec latlng fs _ _ _ _ Hr)
        as [(-> & -> & Hall)|(l1 & f & l2 & Hfs & -> & Hrk & Hn & Hlt & H1 & H2)].
      - exists (notFoundText label). split; [|reflexivity]. left. split; [|reflexivity].
        intros g d' Hg Hg'. specialize (Hall g d' Hg Hg').
        destruct d'; try reflexivity. now specialize (Hall eq_refl).
      - assert (Hin : In f fs) by (rewrite Hfs; apply in_or_app; right; now left).
        assert (Hfin : isFinite m = true).
        { destruct (Hd f Hin) as (d & Hd1 & Hd2). rewrite Hrk in Hd1.
          injection Hd1 as <-. destruct m; simpl in *; congruence. }
        destruct (properties f) as [props|] eqn:Hprops; [|now destruct (Hp f Hin)].
        simpl. exists (nearestText label (get props fieldName) m). split; [|reflexivity].
        right. exists f, props, m. repeat split; auto.
        exists l1, l2. repeat split; auto.
        + intros g d' Hg Hg' Hf'. apply (H1 g d' Hg Hg'). now apply finite_not_NaN.
        + intros g d' Hg Hg' Hf'. apply (H2 g d' Hg Hg'). now apply finite_not_NaN. }
    destruct Hct as (txt & Hout & Hct). exists txt. split; [exact Hout|].
    intros callback. now rewrite getClosest_acts, Hct.
  - (* nearestByEdgeDistanceAcross *)
    unfold nearestByEdgeDistanceAcross. rewrite value_bind, nearestAcross_loop_value.
    cbn [flat_map]. rewrite app_nil_r. unfold usable, featuresOf. rewrite He, Hc, Hf.
    destruct (across_loop_total latlng label fieldName fs Hd' Hp None) as [r Hr].
    rewrite Hr. cbn [value].
    destruct (across_loop_spec latlng label fieldName _ _ _ Hr)
      as [(-> & Hall)|(l1 & f & l2 & props & d & Hfs & Hrk & Hfin & Hpr & -> & _ & H1 & H2)].
    + exists (notFoundText label). split; [|reflexivity]. left. split; [|reflexivity].
      intros g d' Hg Hg'. destruct (isFinite d') eqn:E; [|reflexivity].
      now apply (Hall g d' Hg Hg').
    + exists (nearestText label (get props fieldName) d). split; [|reflexivity].
      right. exists f, props, d. repeat split; auto.
      exists l1, l2. repeat split; auto.
Qed.

(** C7, as the code has it.  A provider that reports an error leaves its
    slot with a text, in its place: the error text for landslide, whose
    promise rejects; the initial [No data.] text for ozone, PM2.5,
    drinking water and shaking; for flood and fire a failed containment
    query is read as no zone here and the lookup goes on to its
    proximity queries, and the slot shows the not-found text when these
    fail too.  The error text of a [catch] block appears when the
    handler throws while it reads an answer without error.  No slot is
    ever empty.  A provider error stops no lookup: the landslide lookup
    settles when its identify fails, the flood lookup when its proximity
    query fails, the five other lookups always; a lookup that never
    calls [checkDone] was stopped by an exception on an answer without
    error, in the flood proximity callback or in the landslide parser.
    With every query answered the report is on the page exactly when
    the flood and the landslide lookup have settled, so it is whenever
    the flood proximity query and the landslide identify fail. *)
Theorem provider_error_keeps_slot :
  let failed (r : request) := err (env r) <> None in
  let shown (hasReportEl : bool) :=
    (page0 latlng hasReportEl
     ++ (if hasReportEl then [InnerHTML (report_html slot_text')] else [])
     ++ [HideSpinner])%list in
  (failed IdentifyLandslide -> slot_text' landslide = errorText landslide)
  /\ (failed (Contains ozoneLayer) -> slot_text' ozone = results0 ozone)
  /\ (failed (Contains pmLayer) -> slot_text' pm = results0 pm)
  /\ (failed (Contains drinkLayer) -> slot_text' drink = results0 drink)
  /\ (failed IdentifyMMI -> slot_text' shaking = results0 shaking)
  /\ (failed (Contains floodLayer) ->
      sends (total' flood) = [Contains floodLayer; Nearby floodLayer NEARBY_METERS]
      /\ (failed (Nearby floodLayer NEARBY_METERS) ->
          slot_text' flood = notFoundText "Flood Hazard Zone" ++ floodNote))
  /\ (failed (Contains fireHazardLRA) -> failed (Contains fireHazardSRA) ->
      (exists rest,
         sends (total' fire) =
         Contains fireHazardLRA :: Contains fireHazardSRA ::
         Nearby fireHazardLRA NEARBY_METERS :: rest)
      /\ (failed (Nearby fireHazardLRA NEARBY_METERS) ->
          failed (Nearby fireHazardSRA NEARBY_METERS) ->
          slot_text' fire = notFoundText "Fire Hazard Zone" ++ fireNote))
  /\ (forall x, has_features (env (Contains ozoneLayer)) = Raise x ->
                slot_text' ozone = errorText ozone)
  /\ (forall x, has_features (env (Contains pmLayer)) = Raise x ->
                slot_text' pm = errorText pm)
  /\ (forall x, has_features (env (Contains drinkLayer)) = Raise x ->
                slot_text' drink = errorText drink)
  /\ (forall x, has_features (env (Contains floodLayer)) = Raise x ->
                slot_text' flood = errorText flood)
  /\ (forall k, slot_text' k <> EmptyString)
  /\ (forall k, k <> flood -> k <> landslide -> settles' k = true)
  /\ (failed IdentifyLandslide -> settles' landslide = true)
  /\ (failed (Nearby floodLayer NEARBY_METERS) -> settles' flood = true)
  /\ (settles' flood = false ->
      err (env (Nearby floodLayer NEARBY_METERS)) = None
      /\ exists x, closest_text latlng "Flood Hazard Zone" "ESRI_SYMBOLOGY"
                     (env (Nearby floodLayer NEARBY_METERS)) = Raise x)
  /\ (settles' landslide = false ->
      err (env IdentifyLandslide) = None
      /\ exists x, Landslide.parseLandslideLabelFromIdentify
                     (raw (env IdentifyLandslide)) (fc (env IdentifyLandslide))
                   = Raise x)
  /\ (forall hasReportEl sched,
        pend (run env sched (click' hasReportEl)) = [] ->
        (page (run env sched (click' hasReportEl)) = shown hasReportEl
         <-> settles' flood = true /\ settles' landslide = true))
  /\ (forall hasReportEl sched,
        failed (Nearby floodLayer NEARBY_METERS) -> failed IdentifyLandslide ->
        pend (run env sched (click' hasReportEl)) = [] ->
        page (run env sched (click' hasReportEl)) = shown hasReportEl).
Proof.
  intros failed shown. unfold failed.
  assert (Hland : err (env IdentifyLandslide) <> None -> settles' landslide = true).
  { intros H. rewrite landslide_settles. unfold parser_throws.
    now destruct (err (env IdentifyLandslide)). }
  assert (Hflood : err (env (Nearby floodLayer NEARBY_METERS)) <> None ->
                   settles' flood = true).
  { intros H. rewrite flood_settles.
    destruct (has_features (env (Contains floodLayer))) as [[|]|e]; try reflexivity.
    now rewrite (failed_closest_text latlng _ _ _ H). }
  repeat match goal with |- _ /\ _ => split end.
  - intros H. rewrite landslide_text. now destruct (err (env IdentifyLandslide)).
  - intros H. rewrite (calenviro_slot_text _ _ _ _ _ (ozone_total _ _)).
    unfold ozone_text. now rewrite failed_calenviro_text.
  - intros H. rewrite (calenviro_slot_text _ _ _ _ _ (pm_total _ _)).
    unfold pm_text. now rewrite failed_calenviro_text.
  - intros H. rewrite (calenviro_slot_text _ _ _ _ _ (drink_total _ _)).
    unfold drink_text. now rewrite failed_calenviro_text.
  - intros H. rewrite shaking_text, identifyMMIAt_value.
    now destruct (err (env IdentifyMMI)).
  - intros H1. split.
    + rewrite flood_total, (failed_has_features _ H1). cbn [sends flat_map app].
      now destruct (closest_text _ _ _ _).
    + intros H2. rewrite flood_text, (failed_has_features _ H1).
      now rewrite (failed_closest_text latlng _ _ _ H2).
  - intros H1 H2. split.
    + rewrite fire_total, (failed_contained _ H1), (failed_contained _ H2).
      rewrite asks_nearest_fire. cbn [map app sends flat_map].
      eexists. reflexivity.
    + intros H3 H4. rewrite fire_text.
      rewrite (failed_contained _ H1), (failed_contained _ H2).
      unfold fire_candidates. now rewrite (failed_usable _ H3), (failed_usable _ H4).
  - intros x H. rewrite (calenviro_slot_text _ _ _ _ _ (ozone_total _ _)).
    unfold ozone_text. now rewrite (thrown_calenviro_text _ _ _ _ _ _ _ _ x H).
  - intros x H. rewrite (calenviro_slot_text _ _ _ _ _ (pm_total _ _)).
    unfold pm_text. now rewrite (thrown_calenviro_text _ _ _ _ _ _ _ _ x H).
  - intros x H. rewrite (calenviro_slot_text _ _ _ _ _ (drink_total _ _)).
    unfold drink_text. now rewrite (thrown_calenviro_text _ _ _ _ _ _ _ _ x H).
  - intros x H. rewrite flood_text. now rewrite H.
  - intros k. destruct k.
    + rewrite fire_text. unfold fire_inside.
      destruct (contained _); [destruct (first_property _ _); discriminate|].
      destruct (contained _); [destruct (first_property _ _); discriminate|].
      destruct (across_loop _ _ _ _ _) as [[b|]|e]; try discriminate;
        apply append_not_empty.
    + rewrite flood_text. unfold flood_inside.
      destruct (has_features _) as [[|]|e]; try discriminate.
      * destruct (first_property _ _); discriminate.
      * destruct (closest_text _ _ _ _); [apply append_not_empty | discriminate].
    + rewrite (calenviro_slot_text _ _ _ _ _ (ozone_total _ _)).
      destruct (ozone_text _) as [[t|]|e] eqn:E; try discriminate.
      unfold ozone_text, calenviro_text in E.
      destruct (has_features _) as [[|]|]; simpl in E; try discriminate.
      destruct (first_properties _); simpl in E; try discriminate.
      destruct (toFixed_or_unknown _ _); simpl in E; try discriminate.
      injection E as <-. discriminate.
    + rewrite (calenviro_slot_text _ _ _ _ _ (pm_total _ _)).
      destruct (pm_text _) as [[t|]|e] eqn:E; try discriminate.
      unfold pm_text, calenviro_text in E.
      destruct (has_features _) as [[|]|]; simpl in E; try discriminate.
      destruct (first_properties _); simpl in E; try discriminate.
      destruct (toFixed_or_unknown _ _); simpl in E; try discriminate.
      injection E as <-. discriminate.
    + rewrite (calenviro_slot_text _ _ _ _ _ (drink_total _ _)).
      destruct (drink_text _) as [[t|]|e] eqn:E; try discriminate.
      unfold drink_text, calenviro_text in E.
      destruct (has_features _) as [[|]|]; simpl in E; try discriminate.
      destruct (first_properties _); simpl in E; try discriminate.
      destruct (toFixed_or_unknown _ _); simpl in E; try discriminate.
      injection E as <-. discriminate.
    + rewrite landslide_text. destruct (err _); [discriminate|].
      destruct (Landslide.parseLandslideLabelFromIdentify _ _) as [[[|c r]|]|e];
        discriminate.
    + rewrite shaking_text. destruct (value env identifyMMIAt) as [[v|]|e]; discriminate.
  - intros k Hk Hl. unfold settles.
    now rewrite (settles_once latlng env k Hk Hl).
  - exact Hland.
  - exact Hflood.
  - intros Hs.
    destruct (err (env (Nearby floodLayer NEARBY_METERS))) as [e|] eqn:E.
    + rewrite Hflood in Hs; [discriminate | congruence].
    + split; [reflexivity|]. rewrite flood_settles in Hs.
      destruct (has_features (env (Contains floodLayer))) as [[|]|e]; try discriminate.
      destruct (closest_text _ _ _ _) as [t|x]; [discriminate | now exists x].
  - intros Hs. rewrite landslide_settles in Hs. unfold parser_throws in Hs.
    destruct (err (env IdentifyLandslide)); [discriminate|].
    split; [reflexivity|].
    destruct (Landslide.parseLandslideLabelFromIdentify _ _) as [l|x];
      [discriminate | now exists x].
  - intros hasReportEl sched Hp.
    apply (quiescent_report_iff latlng env hasReportEl sched Hp).
  - intros hasReportEl sched H1 H2 Hp.
    apply (quiescent_report_iff latlng env hasReportEl sched Hp).
    split; [now apply Hflood | now apply Hland].
Qed.

(** C10. The promise of [identifyMMIAt] always resolves: with [null]
    when the provider reports an error, when the answer has no value
    member and when the value is not a finite number.  A shaking slot
    whose identify resolved with [null] keeps the initial text
    [No data.], and the error text of the shaking lookup is never
    written.  [identifyLandslideAt] rejects on a provider error, and the
    landslide slot then shows its error text. *)
Theorem identifyMMIAt_never_rejects :
  (exists v, value env identifyMMIAt = Ok v)
  /\ (err (env IdentifyMMI) <> None -> value env identifyMMIAt = Ok None)
  /\ (mmi_val (env IdentifyMMI) = None -> value env identifyMMIAt = Ok None)
  /\ (forall v, mmi_val (env IdentifyMMI) = Some v -> isFinite v = false ->
                value env identifyMMIAt = Ok None)
  /\ (value env identifyMMIAt = Ok None ->
      slot_text' shaking = "❌ Shaking Potential: No data.")
  /\ ~ In (AWrite shaking (errorText shaking)) (total' shaking)
  /\ (forall e, err (env IdentifyLandslide) = Some e ->
        value env identifyLandslideAt = Raise (Rejected e)
        /\ slot_text' landslide = errorText landslide).
Proof.
  repeat match goal with |- _ /\ _ => split end.
  - rewrite identifyMMIAt_value. eauto.
  - intros H. rewrite identifyMMIAt_value. now destruct (err (env IdentifyMMI)).
  - intros H. rewrite identifyMMIAt_value, H. now destruct (err (env IdentifyMMI)).
  - intros v H Hf. rewrite identifyMMIAt_value, H, Hf.
    now destruct (err (env IdentifyMMI)).
  - intros H. now rewrite shaking_text, H.
  - rewrite shaking_total. intros [H|H]; [discriminate|].
    destruct (value env identifyMMIAt) as [[v|]|e]; simpl in H;
      repeat match goal with
             | H : _ \/ _ |- _ => destruct H as [H|H]
             | H : False |- _ => destruct H
             end; discriminate.
  - intros e He. split.
    + cbn [identifyLandslideAt value]. now rewrite He.
    + rewrite landslide_text. now rewrite He.
Qed.

End ClickReport.

(* ================================================================== *)
(** ** The edge distance *)
(* ================================================================== *)

Section EdgeDistance.
Context `{RT : Runtime} `{TF : Turf}.

(** C6, as the code has it.  For a polygon or multipolygon whose
    boundary Turf builds, [getDistanceToPolygonEdge] returns the distance
    in miles from the point to the nearest point of the boundary, as
    [turf.distance] measures it, rounded to two decimals by [toFixed(2)]:
    a text, not a number, which both callers read back with
    [parseFloat]; what they read, for a distance below 1e21, is the
    distance rounded to a whole number of hundredths, the upper one on a
    tie.  For any other type of geometry it returns the number [NaN],
    which [parseFloat] leaves [NaN]. *)
Theorem distance_is_two_decimal_text
  (clickLatLng : LatLng) (feature : Feature) (geom : Geometry) :
  geometry feature = Some geom ->
  let point := turf_point (lng clickLatLng, lat clickLatLng) in
  (type geom = "Polygon" \/ type geom = "MultiPolygon" ->
   forall line nearestPoint distance,
     boundary geom = Ok line ->
     turf_nearestPointOnLine line point = Ok nearestPoint ->
     turf_distance_miles point nearestPoint = Ok distance ->
     getDistanceToPolygonEdge clickLatLng feature = Ok (JStr (toFixed 2 distance)) /\
     edgeDistance clickLatLng feature = Ok (parseFloatString (toFixed 2 distance)) /\
     (forall q, distance = Fin q -> (0 <= q)%Q -> (q < inject_Z (10 ^ 21))%Q ->
        exists q', edgeDistance clickLatLng feature = Ok (Fin q') /\
          (q' == inject_Z (Qfloor (q * inject_Z 100 + (1 # 2))) / inject_Z 100)%Q))
  /\
  (type geom <> "Polygon" -> type geom <> "MultiPolygon" ->
   getDistanceToPolygonEdge clickLatLng feature = Ok (JNum NaN) /\
   edgeDistance clickLatLng feature = Ok NaN).
Proof.
  intros Hg point. split.
  - intros Ht line np d Hb Hn Hd.
    assert (H : getDistanceToPolygonEdge clickLatLng feature = Ok (JStr (toFixed 2 d))).
    { unfold getDistanceToPolygonEdge, boundary in *. rewrite Hg. cbn [member rbind].
      destruct Ht as [Ht|Ht]; rewrite Ht in *; cbn [String.eqb Ascii.eqb Bool.eqb] in *.
      - rewrite Hb. cbn [rbind]. fold point. rewrite Hn. cbn [rbind].
        now rewrite Hd.
      - rewrite Hb. cbn [rbind]. fold point. rewrite Hn. cbn [rbind].
        now rewrite Hd. }
    split; [exact H|].
    assert (H' : edgeDistance clickLatLng feature = Ok (parseFloatString (toFixed 2 d)))
      by (unfold edgeDistance; now rewrite H).
    split; [exact H'|].
    intros q -> Hq0 Hq1. rewrite H'.
    assert (Ha : (Qabs q == q)%Q) by now apply Qabs_pos.
    destruct (parseFloat_toFixed 2 q) as (q' & E & Hq'); [discriminate | |].
    { rewrite Ha. exact Hq1. }
    exists q'. split; [now rewrite E|].
    rewrite Hq'. change (pow10 2) with 100%Z.
    assert (Hs : Qltb q 0 = false).
    { unfold Qltb. apply negb_false_iff, Qle_bool_iff, Hq0. }
    rewrite Hs, Ha. ring.
  - intros H1 H2.
    assert (H : getDistanceToPolygonEdge clickLatLng feature = Ok (JNum NaN)).
    { unfold getDistanceToPolygonEdge. rewrite Hg. cbn [member rbind].
      destruct (String.eqb_spec (type geom) "Polygon"); [congruence|].
      destruct (String.eqb_spec (type geom) "MultiPolygon"); [congruence|].
      reflexivity. }
    split; [exact H|]. unfold edgeDistance. now rewrite H.
Qed.

End EdgeDistance.

(* ================================================================== *)
(** ** The EV-charger overlay: the properties *)
(* ================================================================== *)

Module EvTheory.
Import EvChargers EvVocabulary.

Section Controller.
Context `{RT : Runtime}.



Lemma calm_timers (s : state) (t' : option nat) (n : nat) (ts : list (nat * Z)) :
  calm s -> calm (with_timers s t' n ts).
Proof. intros H. exact H. Qed.








Lemma last_cons {A : Type} (l : list A) :
  forall a d, List.last (a :: l) d = List.last l a.
Proof.
  induction l as [|x l IH]; intros a d; [reflexivity|].
  change (List.last (a :: x :: l) d) with (List.last (x :: l) d).
  now rewrite !IH.
Qed.

Lemma armed_step (s0 : state) (now now' : Z) (b b' : bounds) (s : state) :
  armed s0 now b s -> (now <= now' < now + EV_FETCH_DEBOUNCE_MS)%Z ->
  armed s0 now' b' (handle now' (Moveend b') (fire_due now' s)).
Proof.
  intros (Hl & Hh & Hi & Hs & Hv & id & Ht & Htm) Hgap.
  unfold fire_due. rewrite Htm. simpl.
  destruct (Z.leb_spec (now + EV_FETCH_DEBOUNCE_MS) now'); [lia|].
  simpl. unfold fetchDebounced. simpl. rewrite Ht. simpl.
  rewrite Nat.eqb_refl. simpl.
  repeat split; auto. eexists. split; reflexivity.
Qed.

Lemma armed_run (s0 : state) (ms : list (Z * bounds)) :
  forall now b s,
    armed s0 now b s ->
    burst EV_FETCH_DEBOUNCE_MS now (map fst ms) ->
    armed s0 (fst (List.last ms (now, b))) (snd (List.last ms (now, b)))
          (run_events (moves ms) s).
Proof.
  induction ms as [|[now' b'] ms IH]; intros now b s Ha Hb.
  - exact Ha.
  - destruct Hb as [Hgap Hb]. simpl in Hgap.
    change (run_events (moves ((now', b') :: ms)) s)
      with (run_events (moves ms) (handle now' (Moveend b') (fire_due now' s))).
    rewrite last_cons. apply IH; [|exact Hb].
    now apply armed_step with (now := now) (b := b).
Qed.

Lemma armed_first (s0 : state) (now : Z) (b : bounds) :
  timers s0 = [] ->
  armed s0 now b (handle now (Moveend b) (fire_due now s0)).
Proof.
  intros Htm.
  unfold armed, handle, fire_due, fetchDebounced, clearTimeout, setTimeout.
  rewrite Htm. simpl. destruct (t s0) as [id|]; simpl;
    repeat split; eexists; split; reflexivity.
Qed.

Lemma armed_fire (s0 : state) (now : Z) (b : bounds) (s : state) (T : Z) :
  armed s0 now b s ->
  started (fire_due T s) =
  if (T <? now + EV_FETCH_DEBOUNCE_MS)%Z then started s0
  else if hasLayer s0 && negb (isLoading s0)
       then (started s0 ++ [((now + EV_FETCH_DEBOUNCE_MS)%Z, b)])%list
       else started s0.
Proof.
  intros (Hl & Hh & Hi & Hs & Hv & id & Ht & Htm).
  unfold fire_due. rewrite Htm. simpl.
  destruct (Z.leb_spec (now + EV_FETCH_DEBOUNCE_MS) T);
    destruct (Z.ltb_spec T (now + EV_FETCH_DEBOUNCE_MS)); try lia; simpl.
  - unfold fetchInView, enabled. simpl. rewrite Hh, Hl.
    destruct (hasLayer s0); simpl; [|exact Hs].
    destruct (isLoading s0); simpl; [exact Hs|]. now rewrite Hs, Hv.
  - exact Hs.
Qed.

(** C8. A burst of viewport events, each less than the quiet period of
    600 ms after the one before, on a controller with no timer set,
    starts no fetch while it lasts and leaves one timer, due 600 ms
    after its last event: every event has replaced the timer of the one
    before.  After the burst that timer calls [fetchInView] once, not
    before the 600 ms have passed: with the overlay shown and no fetch
    in flight it starts exactly one fetch, for the bounds of the last
    event; in no case is more than one fetch started. *)
Theorem moveend_burst_fetches_once
  (s0 : state) (first : Z * bounds) (rest : list (Z * bounds)) :
  timers s0 = [] ->
  burst EV_FETCH_DEBOUNCE_MS (fst first) (map fst rest) ->
  let s := run_events (moves (first :: rest)) s0 in
  let final := List.last rest first in
  EV_FETCH_DEBOUNCE_MS = 600%Z
  /\ started s = started s0
  /\ (exists id, timers s = [(id, (fst final + 600)%Z)])
  /\ (forall T, (T < fst final + 600)%Z -> started (fire_due T s) = started s0)
  /\ (forall T, (fst final + 600 <= T)%Z ->
                hasLayer s0 = true -> isLoading s0 = false ->
                started (fire_due T s) =
                (started s0 ++ [((fst final + 600)%Z, snd final)])%list)
  /\ (forall T, List.length (started (fire_due T s)) <= S (List.length (started s0))).
Proof.
  intros Htm Hb s final. destruct first as [now b].
  assert (Ha : armed s0 (fst final) (snd final) s).
  { unfold s, final.
    change (run_events (moves ((now, b) :: rest)) s0)
      with (run_events (moves rest) (handle now (Moveend b) (fire_due now s0))).
    apply armed_run; [now apply armed_first | exact Hb]. }
  split; [reflexivity|]. split; [apply Ha|]. split; [|split; [|split]].
  - destruct Ha as (_ & _ & _ & _ & _ & id & _ & Ht). now exists id.
  - intros T HT. rewrite (armed_fire _ _ _ _ T Ha).
    change EV_FETCH_DEBOUNCE_MS with 600%Z.
    destruct (Z.ltb_spec T (fst final + 600)); [reflexivity | lia].
  - intros T HT Hh Hl. rewrite (armed_fire _ _ _ _ T Ha), Hh, Hl.
    change EV_FETCH_DEBOUNCE_MS with 600%Z.
    destruct (Z.ltb_spec T (fst final + 600)); [lia | reflexivity].
  - intros T. rewrite (armed_fire _ _ _ _ T Ha).
    destruct (T <? _)%Z; [lia|].
    destruct (hasLayer s0 && negb (isLoading s0)); [|lia].
    rewrite length_app. simpl. lia.
Qed.

End Controller.

End EvTheory.

(* ================================================================== *)
(** ** The properties on the examples *)
(* ================================================================== *)

Module OnExamples.
Import Examples.

#[local] Existing Instance runtime.
#[local] Existing Instance turf.

(** Two schedules of the quiet day, one answering the queries in the
    order they were sent, one starting from the last: the same page. *)
Example same_report_for_two_schedules :
  page (run env_ok [0; 0; 0; 0; 0; 0; 0; 0; 0; 0; 0] start) =
  page (run env_ok [6; 5; 4; 3; 2; 1; 0; 0; 0; 0; 0] start)
  /\ pend (run env_ok [6; 5; 4; 3; 2; 1; 0; 0; 0; 0; 0] start) = []
  /\ completed (st (run env_ok [6; 5; 4; 3; 2; 1; 0; 0; 0; 0; 0] start)) = 7.
Proof. vm_compute. repeat split. Qed.

Example quiet_day_flood_text :
  slot_text here env_ok flood =
  "■ <strong>Nearest Flood Hazard Zone:</strong> Zone B<br>📏 Distance: 2.00 mi<br><em>Note: FEMA flood zones guide insurance and floodplain decisions.</em>".
Proof. vm_compute. reflexivity. Qed.

Lemma report_order_is_static_witness :
  settles here env_ok flood = true
  /\ settles here env_ok landslide = true
  /\ pend (run env_ok [6; 5; 4; 3; 2; 1; 0; 0; 0; 0; 0] start) = []
  /\ page (run env_ok [6; 5; 4; 3; 2; 1; 0; 0; 0; 0; 0] start) =
     (page0 here true
      ++ [InnerHTML
            (String.concat "<br><br>"
               [slot_text here env_ok fire;
                slot_text here env_ok flood;
                slot_text here env_ok ozone;
                slot_text here env_ok pm;
                slot_text here env_ok drink;
                slot_text here env_ok landslide;
                slot_text here env_ok shaking])]
      ++ [HideSpinner])%list.
Proof.
  assert (Hs : settles here env_ok flood = true) by (vm_compute; reflexivity).
  assert (Hl : settles here env_ok landslide = true) by (vm_compute; reflexivity).
  assert (Hp : pend (run env_ok [6; 5; 4; 3; 2; 1; 0; 0; 0; 0; 0] start) = [])
    by (vm_compute; reflexivity).
  split; [exact Hs|]. split; [exact Hl|]. split; [exact Hp|].
  apply (proj2 (proj2 (@report_order_is_static runtime turf here env_ok
                         true [6; 5; 4; 3; 2; 1; 0; 0; 0; 0; 0])) Hp).
  split; [exact Hs | exact Hl].
Defined.

(** C2 on the flood provider's malformed proximity answer.  The
    containment query finds no feature, the proximity query answers
    without error and without [features]: the callback of the proximity
    query throws, [checkDone] is never called for the flood slot, and in
    no run does [completed] pass six or the report reach the page, even
    when every query has been answered. *)
Theorem flood_proximity_throw_blocks_report :
  has_features (env_flood_malformed (Contains floodLayer)) = Ok false
  /\ closest_text here "Flood Hazard Zone" "ESRI_SYMBOLOGY"
       (env_flood_malformed (Nearby floodLayer NEARBY_METERS)) = Raise TypeError
  /\ checks (total here env_flood_malformed flood) = 0
  /\ (forall sched,
        completed (st (run env_flood_malformed sched start)) <= 6 /\
        page (run env_flood_malformed sched start) = page0 here true)
  /\ pend (run env_flood_malformed [6; 5; 4; 3; 2; 1; 0; 0; 0; 0; 0] start) = []
  /\ completed (st (run env_flood_malformed [6; 5; 4; 3; 2; 1; 0; 0; 0; 0; 0] start)) = 6.
Proof.
  split; [vm_compute; reflexivity|]. split; [vm_compute; reflexivity|].
  split; [vm_compute; reflexivity|].
  split; [|split; vm_compute; reflexivity].
  intros sched. unfold start.
  apply (stuck_report here env_flood_malformed true flood sched).
  vm_compute. reflexivity.
Qed.

(** C6 as stated fails: for a polygon the function returns a text where
    the claim has a float. *)
Lemma distance_is_text_counterexample :
  getDistanceToPolygonEdge here (zone "ESRI_SYMBOLOGY" "Zone B" (square 1 1))
  = Ok (JStr "2.00")
  /\ ~ (exists x : jsnum,
          getDistanceToPolygonEdge here (zone "ESRI_SYMBOLOGY" "Zone B" (square 1 1))
          = Ok (JNum x)).
Proof.
  split; [vm_compute; reflexivity|].
  intros [x Hx]. vm_compute in Hx. discriminate.
Qed.

Lemma distance_is_two_decimal_text_witness :
  geometry (zone "ESRI_SYMBOLOGY" "Zone B" (square 1 1)) = Some (square 1 1)
  /\ type (square 1 1) = "Polygon"
  /\ boundary (square 1 1)
     = Ok [[(1, 1); (1 + 2, 1); (1 + 2, 1 + 2); (1, 1 + 2); (1, 1)]%Q]
  /\ getDistanceToPolygonEdge here (zone "ESRI_SYMBOLOGY" "Zone B" (square 1 1))
     = Ok (JStr (toFixed 2 (Fin (taxicab (0, 0)%Q (1, 1)%Q))))
  /\ getDistanceToPolygonEdge here pointFeature = Ok (JNum NaN).
Proof.
  assert (Hb : boundary (square 1 1)
               = Ok [[(1, 1); (1 + 2, 1); (1 + 2, 1 + 2); (1, 1 + 2); (1, 1)]%Q])
    by reflexivity.
  split; [reflexivity|]. split; [reflexivity|]. split; [exact Hb|]. split.
  - apply (proj1 (@distance_is_two_decimal_text runtime turf here
                    (zone "ESRI_SYMBOLOGY" "Zone B" (square 1 1)) (square 1 1)
                    eq_refl)
             (or_introl eq_refl) _ (1, 1)%Q (Fin (taxicab (0, 0)%Q (1, 1)%Q)) Hb);
      reflexivity.
  - apply (proj2 (@distance_is_two_decimal_text runtime turf here pointFeature
                    {| type := "Point"; coordinates := CArr [CNum 1; CNum 1] |}
                    eq_refl)); discriminate.
Defined.

(** C7 as stated fails: every provider reports an error, and the ozone
    slot shows [No data.], not an error message. *)
Lemma provider_error_shows_no_data_counterexample :
  err (env_down (Contains ozoneLayer)) = Some "timeout"
  /\ slot_text here env_down ozone = "❌ Ozone: No data."
  /\ slot_text here env_down ozone <> errorText ozone
  /\ page (run env_down [0; 0; 0; 0; 0; 0; 0; 0; 0; 0; 0; 0] start) =
     (page start ++
      [InnerHTML
         "❌ <strong>Fire Hazard Zone:</strong> No nearby zones found<br><em>Note: Zones are designated by CAL FIRE for planning and mitigation guidance.</em><br><br>❌ <strong>Flood Hazard Zone:</strong> No nearby zones found<br><em>Note: FEMA flood zones guide insurance and floodplain decisions.</em><br><br>❌ Ozone: No data.<br><br>❌ PM2.5: No data.<br><br>❌ Drinking Water: No data.<br><br>■ <strong>Landslide Susceptibility:</strong> Error fetching value.<br><br>❌ Shaking Potential: No data.";
       HideSpinner])%list.
Proof.
  split; [reflexivity|]. split; [vm_compute; reflexivity|].
  split; [vm_compute; discriminate|]. vm_compute. reflexivity.
Qed.

Lemma provider_error_keeps_slot_witness :
  err (env_down IdentifyLandslide) <> None
  /\ err (env_down (Contains ozoneLayer)) <> None
  /\ err (env_down (Contains floodLayer)) <> None
  /\ err (env_down (Nearby floodLayer NEARBY_METERS)) <> None
  /\ pend (run env_down [0; 0; 0; 0; 0; 0; 0; 0; 0; 0; 0; 0] start) = []
  /\ slot_text here env_down landslide = errorText landslide
  /\ slot_text here env_down ozone = results0 ozone
  /\ sends (total here env_down flood)
     = [Contains floodLayer; Nearby floodLayer NEARBY_METERS]
  /\ slot_text here env_down flood
     = notFoundText "Flood Hazard Zone" ++ floodNote
  /\ settles here env_down landslide = true
  /\ settles here env_down flood = true
  /\ page (run env_down [0; 0; 0; 0; 0; 0; 0; 0; 0; 0; 0; 0] start)
     = (page0 here true
        ++ [InnerHTML (report_html (slot_text here env_down))]
        ++ [HideSpinner])%list.
Proof.
  assert (H : forall r, err (env_down r) <> None) by (intros r; discriminate).
  assert (Hp : pend (run env_down [0; 0; 0; 0; 0; 0; 0; 0; 0; 0; 0; 0] start) = [])
    by (vm_compute; reflexivity).
  pose proof (@provider_error_keeps_slot runtime turf here env_down)
    as (H1 & H2 & _ & _ & _ & H6 & _ & _ & _ & _ & _ & _ & _ & H14 & H15 & _ & _ & _ & H19).
  split; [apply H|]. split; [apply H|]. split; [apply H|]. split; [apply H|].
  split; [exact Hp|].
  split; [apply H1, H|]. split; [apply H2, H|].
  split; [apply (proj1 (H6 (H _)))|].
  split; [apply (proj2 (H6 (H _))), H|].
  split; [apply H14, H|]. split; [apply H15, H|].
  apply (H19 true _ (H _) (H _) Hp).
Defined.


Lemma containment_skips_nearest_search_witness :
  (err (env_inside (Contains floodLayer)) = None /\
   exists c, fc (env_inside (Contains floodLayer)) = Some c /\
             features c = Some [floodAE; zone "ESRI_SYMBOLOGY" "X" (square (-1) (-1))])
  /\ sends (total here env_inside flood) = [Contains floodLayer]
  /\ slot_text here env_inside flood = fmtFloodInside (JStr "AE")
  /\ sends (total here env_inside fire) = [Contains fireHazardLRA]
  /\ slot_text here env_inside fire = fmtFireInside (JStr "Very High") "LRA"
  /\ sends (total here env_sra fire)
     = [Contains fireHazardLRA; Contains fireHazardSRA]
  /\ slot_text here env_sra fire = fmtFireInside (JStr "Moderate") "SRA".
Proof.
  assert (Hflood : err (env_inside (Contains floodLayer)) = None /\
            exists c, fc (env_inside (Contains floodLayer)) = Some c /\
              features c = Some [floodAE; zone "ESRI_SYMBOLOGY" "X" (square (-1) (-1))]).
  { split; [reflexivity|]. eexists. split; reflexivity. }
  assert (Hlra : err (env_inside (Contains fireHazardLRA)) = None /\
            exists c, fc (env_inside (Contains fireHazardLRA)) = Some c /\
              features c = Some [fireVeryHigh; fireModerate]).
  { split; [reflexivity|]. eexists. split; reflexivity. }
  assert (Hsra : err (env_sra (Contains fireHazardSRA)) = None /\
            exists c, fc (env_sra (Contains fireHazardSRA)) = Some c /\
              features c = Some [fireModerate]).
  { split; [reflexivity|]. eexists. split; reflexivity. }
  destruct (proj1 (@containment_skips_nearest_search runtime turf here
                     env_inside floodAE _) Hflood) as [F1 F2].
  destruct (proj1 (proj2 (@containment_skips_nearest_search runtime turf here
                            env_inside fireVeryHigh _)) Hlra) as [L1 L2].
  destruct (proj2 (proj2 (@containment_skips_nearest_search runtime turf here
                            env_sra fireModerate _)) eq_refl Hsra) as [S1 S2].
  repeat split; try assumption.
  eexists. split; reflexivity.
Defined.

Lemma nearest_search_picks_first_minimum_witness :
  let fs := [zone "ESRI_SYMBOLOGY" "Zone A" (square 3 4); pointFeature;
             zone "ESRI_SYMBOLOGY" "Zone B" (square 1 1);
             zone "ESRI_SYMBOLOGY" "Zone C" (square (-1) (-3))] in
  err (env_ok (Nearby floodLayer NEARBY_METERS)) = None
  /\ (forall f, In f fs -> exists d, edgeDistance here f = Ok d /\ d <> NInf)
  /\ (forall f, In f fs -> properties f <> None)
  /\ edgeDistance here pointFeature = Ok NaN
  /\ edgeDistance here (zone "ESRI_SYMBOLOGY" "Zone B" (square 1 1)) = Ok (Fin (200 # 100))
  /\ edgeDistance here (zone "ESRI_SYMBOLOGY" "Zone C" (square (-1) (-3))) = Ok (Fin (200 # 100))
  /\ (exists txt,
        nearest_outcome here "Flood Hazard Zone" "ESRI_SYMBOLOGY" fs txt /\
        forall callback,
          acts env_ok (getClosestFeatureByEdgeDistance here floodLayer
                         "Flood Hazard Zone" "ESRI_SYMBOLOGY" callback)
          = ASend (Nearby floodLayer NEARBY_METERS) :: acts env_ok (callback txt)).
Proof.
  intros fs.
  assert (Hd : forall f, In f fs -> exists d, edgeDistance here f = Ok d /\ d <> NInf).
  { intros f [<-|[<-|[<-|[<-|[]]]]]; eexists; (split; [vm_compute; reflexivity | discriminate]). }
  assert (Hp : forall f, In f fs -> properties f <> None).
  { intros f [<-|[<-|[<-|[<-|[]]]]]; discriminate. }
  split; [reflexivity|]. split; [exact Hd|]. split; [exact Hp|].
  split; [vm_compute; reflexivity|]. split; [vm_compute; reflexivity|].
  split; [vm_compute; reflexivity|].
  apply (proj1 (@nearest_search_picks_first_minimum runtime turf here env_ok
                  floodLayer "Flood Hazard Zone" "ESRI_SYMBOLOGY"
                  {| features := Some fs; res_value := JUndefined |} fs
                  eq_refl eq_refl eq_refl Hd Hp)).
Defined.

Lemma identifyMMIAt_never_rejects_witness :
  err (env_down IdentifyMMI) <> None
  /\ value env_down identifyMMIAt = Ok None
  /\ slot_text here env_down shaking = "❌ Shaking Potential: No data."
  /\ err (env_down IdentifyLandslide) = Some "timeout"
  /\ slot_text here env_down landslide = errorText landslide.
Proof.
  pose proof (@identifyMMIAt_never_rejects runtime turf here env_down)
    as (_ & H2 & _ & _ & H5 & _ & H7).
  assert (He : err (env_down IdentifyMMI) <> None) by discriminate.
  split; [exact He|]. split; [apply H2, He|]. split; [apply H5, H2, He|].
  split; [reflexivity|]. apply (H7 "timeout" eq_refl).
Defined.

Lemma moveend_burst_fetches_once_witness :
  EvChargers.timers (EvChargers.init someBounds true) = []
  /\ EvChargers.burst EvChargers.EV_FETCH_DEBOUNCE_MS 0 (map fst pans)
  /\ EvChargers.started
       (EvChargers.fire_due 1249
          (EvChargers.run_events (EvVocabulary.moves ((0%Z, someBounds) :: pans))
             (EvChargers.init someBounds true))) = []
  /\ EvChargers.started
       (EvChargers.fire_due 1250
          (EvChargers.run_events (EvVocabulary.moves ((0%Z, someBounds) :: pans))
             (EvChargers.init someBounds true)))
     = [(1250%Z, ((34, -124), (44, -114))%Q)].
Proof.
  assert (Hb : EvChargers.burst EvChargers.EV_FETCH_DEBOUNCE_MS 0 (map fst pans)).
  { simpl. unfold EvChargers.EV_FETCH_DEBOUNCE_MS. lia. }
  pose proof (EvTheory.moveend_burst_fetches_once
                (EvChargers.init someBounds true) (0%Z, someBounds) pans eq_refl Hb)
    as (_ & _ & _ & H4 & H5 & _).
  split; [reflexivity|]. split; [exact Hb|]. split.
  - apply (H4 1249%Z). simpl. lia.
  - apply (H5 1250%Z); [simpl; lia | reflexivity | reflexivity].
Defined.


End OnExamples.
(* ================================================================== *)
(** ** The click report: further properties *)
(* ================================================================== *)

Lemma Qltb_inject_Z (a b : Z) : Qltb (inject_Z a) (inject_Z b) = (a <? b)%Z.
Proof.
  unfold Qltb, Qle_bool. cbn [inject_Z Qnum Qden]. rewrite !Z.mul_1_r.
  now rewrite Z.ltb_antisym.
Qed.

Lemma Qfloor_half (z : Z) (x : Q) :
  (x == inject_Z z + (1 # 2))%Q -> Qfloor x = z.
Proof.
  intros E.
  assert (A : (Qfloor x < z + 1)%Z).
  { rewrite Zlt_Qlt. eapply Qle_lt_trans; [apply Qfloor_le|].
    rewrite E, inject_Z_plus. apply Qplus_lt_r. reflexivity. }
  assert (B : (z < Qfloor x + 1)%Z).
  { rewrite Zlt_Qlt. eapply Qle_lt_trans; [|apply Qlt_floor].
    rewrite E. rewrite <- (Qplus_0_r (inject_Z z)) at 1.
    apply Qplus_le_r. discriminate. }
  lia.
Qed.

Lemma trace_turn (o : slot) (p : prog unit) :
  forall s0, exists l, trace (turn o p s0) = (trace s0 ++ l)%list.
Proof.
  induction p as [a|e|e0|r k IH|r cb k IHcb IHk|s txt k IH|k IH] using task_induction;
    intros s0; cbn [turn].
  - exists []. now rewrite app_nil_r.
  - exists []. now rewrite app_nil_r.
  - exists []. now rewrite app_nil_r.
  - eexists. reflexivity.
  - match goal with |- context [turn o k ?s'] => destruct (IHk s') as [l Hl] end.
    rewrite Hl. cbn [trace]. rewrite <- app_assoc. eexists. reflexivity.
  - match goal with |- context [turn o k ?s'] => destruct (IH s') as [l Hl] end.
    rewrite Hl. cbn [trace]. rewrite <- app_assoc. eexists. reflexivity.
  - destruct (checkDone (st s0)) as [st' effs].
    match goal with |- context [turn o k ?s'] => destruct (IH s') as [l Hl] end.
    rewrite Hl. cbn [trace]. rewrite <- app_assoc. eexists. reflexivity.
Qed.

Lemma trace_run (env : providers) (sched : list nat) :
  forall s, exists l, trace (run env sched s) = (trace s ++ l)%list.
Proof.
  induction sched as [|i sched IH]; intros s; cbn [run].
  - exists []. now rewrite app_nil_r.
  - destruct (IH (deliver env i s)) as [l Hl]. rewrite Hl.
    unfold deliver. destruct (nth_error (pend s) i) as [it|].
    + match goal with |- context [turn ?o ?p ?s'] =>
        destruct (trace_turn o p s') as [l' Hl'] end.
      rewrite Hl'. cbn [trace]. rewrite <- app_assoc. eexists. reflexivity.
    + eexists. reflexivity.
Qed.

Lemma sends_by_slot (t : list (slot * action)) :
  List.length (sends (map snd t))
  = count_all (fun k => List.length (sends (proj k t))).
Proof.
  induction t as [|[o a] t IH]; [reflexivity|].
  change (map snd ((o, a) :: t)) with ([a] ++ map snd t)%list.
  rewrite sends_app, length_app, IH.
  transitivity (count_all (fun k => List.length (sends (proj k [(o, a)]))
                                    + List.length (sends (proj k t)))).
  - unfold count_all.
    destruct o; rewrite ?proj_one_same;
      repeat match goal with
             | |- context [proj ?k [(?o', a)]] =>
                 rewrite (proj_one_other o' k a) by discriminate
             end; cbn [sends flat_map List.length app]; destruct a; simpl; lia.
  - apply count_all_ext. intros k.
    change ((o, a) :: t) with ([(o, a)] ++ t)%list.
    now rewrite proj_app, sends_app, length_app.
Qed.

Section ClickExtras.
Context `{RT : Runtime} `{TF : Turf}.
Variable latlng : LatLng.
Variable env : providers.
Variable hasReportEl : bool.

Local Abbreviation total' := (total latlng env).
Local Abbreviation slot_text' := (slot_text latlng env).
Local Abbreviation click' := (click latlng hasReportEl).

Lemma sends_settle_with_opt_nil (k : slot) (txt : result (option string)) :
  sends (settle_with_opt k txt) = [].
Proof. now destruct txt as [[t|]|e]. Qed.

Lemma sends_total_bound (k : slot) :
  List.length (sends (total' k))
  <= match k with fire => 4 | flood => 2 | _ => 1 end.
Proof.
  destruct k.
  - rewrite fire_total. cbn [sends flat_map app List.length].
    destruct (contained (env (Contains fireHazardLRA))).
    { fold (sends (settle_with fire
                     (fire_inside "LRA" (env (Contains fireHazardLRA))))).
      rewrite sends_settle_with. simpl. lia. }
    cbn [sends flat_map app List.length].
    destruct (contained (env (Contains fireHazardSRA))).
    { fold (sends (settle_with fire
                     (fire_inside "SRA" (env (Contains fireHazardSRA))))).
      rewrite sends_settle_with. simpl. lia. }
    match goal with
    | |- context [flat_map ?f (map ASend ?a ++ settle_with fire ?b)] =>
        change (flat_map f (map ASend a ++ settle_with fire b)%list)
          with (sends (map ASend a ++ settle_with fire b)%list)
    end.
    rewrite sends_app, sends_map_ASend, sends_settle_with, app_nil_r.
    rewrite asks_nearest_fire. destruct (across_loop _ _ _ _ _); simpl; lia.
  - rewrite flood_total. cbn [sends flat_map app List.length].
    destruct (has_features (env (Contains floodLayer))) as [[|]|e].
    + fold (sends (settle_with flood (flood_inside (env (Contains floodLayer))))).
      rewrite sends_settle_with. simpl. lia.
    + destruct (closest_text _ _ _ _); simpl; lia.
    + simpl. lia.
  - rewrite ozone_total. cbn [sends flat_map app List.length].
    fold (sends (settle_with_opt ozone (ozone_text (env (Contains ozoneLayer))))).
    rewrite sends_settle_with_opt_nil. simpl. lia.
  - rewrite pm_total. cbn [sends flat_map app List.length].
    fold (sends (settle_with_opt pm (pm_text (env (Contains pmLayer))))).
    rewrite sends_settle_with_opt_nil. simpl. lia.
  - rewrite drink_total. cbn [sends flat_map app List.length].
    fold (sends (settle_with_opt drink (drink_text (env (Contains drinkLayer))))).
    rewrite sends_settle_with_opt_nil. simpl. lia.
  - rewrite landslide_total. cbn [sends flat_map app List.length].
    destruct (err (env IdentifyLandslide)); [simpl; lia|].
    destruct (Landslide.parseLandslideLabelFromIdentify _ _) as [[[|c r]|]|e];
      simpl; lia.
  - rewrite shaking_total. cbn [sends flat_map app List.length].
    destruct (value env identifyMMIAt) as [[v|]|e]; simpl; lia.
Qed.

(** X1. A click sends seven queries before its handler returns and never
    more than eleven in all, in whatever order the answers come: at most
    four for fire, two for flood and one for each other slot. *)
Theorem click_sends_seven_to_eleven_queries (sched : list nat) :
  let sent := sends (map snd (trace (run env sched click'))) in
  List.length (sends (map snd (trace click'))) = 7
  /\ 7 <= List.length sent <= 11
  /\ (forall k, List.length (sends (proj k (trace (run env sched click'))))
                <= match k with fire => 4 | flood => 2 | _ => 1 end).
Proof.
  intros sent.
  assert (H7 : List.length (sends (map snd (trace click'))) = 7) by reflexivity.
  assert (Hk : forall k, List.length (sends (proj k (trace (run env sched click'))))
                         <= match k with fire => 4 | flood => 2 | _ => 1 end).
  { intros k.
    destruct (run_prefix latlng env hasReportEl sched k)
      as [rest Hrest].
    pose proof (sends_total_bound k) as Hb. rewrite <- Hrest in Hb.
    rewrite sends_app, length_app in Hb. lia. }
  split; [exact H7|]. split; [|exact Hk]. split.
  - unfold sent. destruct (trace_run env sched click') as [l Hl].
    rewrite Hl, map_app, sends_app, length_app, H7. lia.
  - unfold sent. rewrite sends_by_slot. unfold count_all.
    pose proof (Hk fire) as A1. pose proof (Hk flood) as A2.
    pose proof (Hk ozone) as A3. pose proof (Hk pm) as A4.
    pose proof (Hk drink) as A5. pose proof (Hk landslide) as A6.
    pose proof (Hk shaking) as A7.
    cbv beta iota in A1, A2, A3, A4, A5, A6, A7 |- *. lia.
Qed.

(** *** The CalEnviroScreen slots by the type of the value *)

Lemma calenviro_by_type (k : slot) (l : layer)
  (indicatorKey title valueKey pctKey unit note : string) (digits : nat)
  (c : FeatureCollection) (f : Feature) (fs : list Feature) (p : object) :
  total' k = ASend (Contains l) ::
             settle_with_opt k (calenviro_text indicatorKey title valueKey pctKey
                                  unit note digits (env (Contains l))) ->
  err (env (Contains l)) = None ->
  fc (env (Contains l)) = Some c ->
  features c = Some (f :: fs) ->
  properties f = Some p ->
  slot_text' k =
  match get p valueKey with
  | JNum n =>
      fmtCalEnviro indicatorKey title (toFixed digits n ++ unit)
        (round_or_unknown (get p pctKey)) note
  | JNull | JUndefined =>
      fmtCalEnviro indicatorKey title ("unknown" ++ unit)
        (round_or_unknown (get p pctKey)) note
  | _ => errorText k
  end.
Proof.
  intros Ht He Hc Hf Hp.
  rewrite (calenviro_slot_text latlng env k l _ Ht).
  unfold calenviro_text, has_features, first_properties, response_features.
  rewrite He, Hc. cbn [member rbind]. rewrite Hf. cbn [member rbind List.length Nat.ltb Nat.leb hd_error].
  rewrite Hp. cbn [member rbind].
  destruct (get p valueKey) as [| |b|n|s]; reflexivity.
Qed.

(** X2. A CalEnviroScreen slot whose answer has a first feature with
    properties shows the value by its type: a number with the decimals
    of the slot, [unknown] when the value is [null] or missing, and the
    error text of the slot when the value is a text or a boolean, which
    has no [toFixed].  The percentile is [unknown] only when it is
    missing; [null] is rounded like 0. *)
Theorem calenviro_slot_by_value_type
  (c : FeatureCollection) (f : Feature) (fs : list Feature) (p : object) :
  features c = Some (f :: fs) -> properties f = Some p ->
  (err (env (Contains ozoneLayer)) = None ->
   fc (env (Contains ozoneLayer)) = Some c ->
   slot_text' ozone =
   match get p "ozone" with
   | JNum n =>
       fmtCalEnviro "ozone" "Ozone (Ground-Level)" (toFixed 3 n ++ " ppm")
         (round_or_unknown (get p "ozoneP")) "<em>(Data from 2017–2019)</em>"
   | JNull | JUndefined =>
       fmtCalEnviro "ozone" "Ozone (Ground-Level)" "unknown ppm"
         (round_or_unknown (get p "ozoneP")) "<em>(Data from 2017–2019)</em>"
   | _ => errorText ozone
   end)
  /\ (err (env (Contains pmLayer)) = None ->
      fc (env (Contains pmLayer)) = Some c ->
      slot_text' pm =
      match get p "pm" with
      | JNum n =>
          fmtCalEnviro "pm" "PM2.5 (Fine Particulate Matter)" (toFixed 2 n ++ " µg/m³")
            (round_or_unknown (get p "pmP")) "<em>(Data from 2015–2017)</em>"
      | JNull | JUndefined =>
          fmtCalEnviro "pm" "PM2.5 (Fine Particulate Matter)" "unknown µg/m³"
            (round_or_unknown (get p "pmP")) "<em>(Data from 2015–2017)</em>"
      | _ => errorText pm
      end)
  /\ (err (env (Contains drinkLayer)) = None ->
      fc (env (Contains drinkLayer)) = Some c ->
      slot_text' drink =
      match get p "drink" with
      | JNum n =>
          fmtCalEnviro "drink" "Drinking Water Contaminants" (toFixed 2 n)
            (round_or_unknown (get p "drinkP"))
            "<em>(Data from 2011–2019 compliance cycle)</em>"
      | JNull | JUndefined =>
          fmtCalEnviro "drink" "Drinking Water Contaminants" "unknown"
            (round_or_unknown (get p "drinkP"))
            "<em>(Data from 2011–2019 compliance cycle)</em>"
      | _ => errorText drink
      end)
  /\ round_or_unknown JUndefined = "unknown"
  /\ round_or_unknown JNull = round_or_unknown (JNum (Fin 0)).
Proof.
  intros Hf Hp. split; [|split; [|split; [|split; reflexivity]]].
  - intros He Hc.
    rewrite (calenviro_by_type ozone ozoneLayer "ozone" "Ozone (Ground-Level)"
               "ozone" "ozoneP" " ppm" "<em>(Data from 2017–2019)</em>" 3
               c f fs p (ozone_total latlng env)
               He Hc Hf Hp).
    reflexivity.
  - intros He Hc.
    rewrite (calenviro_by_type pm pmLayer "pm" "PM2.5 (Fine Particulate Matter)"
               "pm" "pmP" " µg/m³" "<em>(Data from 2015–2017)</em>" 2
               c f fs p (pm_total latlng env)
               He Hc Hf Hp).
    reflexivity.
  - intros He Hc.
    rewrite (calenviro_by_type drink drinkLayer "drink" "Drinking Water Contaminants"
               "drink" "drinkP" EmptyString
               "<em>(Data from 2011–2019 compliance cycle)</em>" 2
               c f fs p (drink_total latlng env)
               He Hc Hf Hp).
    destruct (get p "drink"); try reflexivity. now rewrite append_empty.
Qed.

(** *** Shaking classes *)

Lemma formatMMI_Fin (q : Q) :
  let k := Z.max 1 (Z.min 10 (Qfloor q)) in
  exists roman desc,
    In (k, (roman, desc)) MMI_CLASSES /\
    formatMMI (Fin q) =
    {| label := roman ++ " – " ++ desc;
       intClass := Fin (inject_Z k);
       valueStr := toFixed 1 (Fin q) |}.
Proof.
  intros k. unfold formatMMI. cbn [JS.floor].
  remember (Qfloor q) as f eqn:Ef.
  assert (Hc : JS.max (Fin 1) (JS.min (Fin 10) (Fin (inject_Z f))) = Fin (inject_Z k)).
  { unfold JS.max, JS.min, JS.lt.
    change 10%Q with (inject_Z 10). change 1%Q with (inject_Z 1).
    rewrite Qltb_inject_Z. destruct (Z.ltb_spec f 10).
    - rewrite Qltb_inject_Z. destruct (Z.ltb_spec 1 f); f_equal; f_equal; lia.
    - rewrite Qltb_inject_Z. simpl. f_equal. f_equal. lia. }
  rewrite Hc.
  assert (Hk : (1 <= k <= 10)%Z) by lia.
  clearbody k. clear Hc Ef f.
  assert (Hcases : (k = 1 \/ k = 2 \/ k = 3 \/ k = 4 \/ k = 5 \/ k = 6 \/ k = 7
                    \/ k = 8 \/ k = 9 \/ k = 10)%Z) by lia.
  repeat (destruct Hcases as [->|Hcases]);
    [ .. | subst k ];
    (eexists; eexists; split; [|reflexivity]; simpl; tauto).
Qed.

(** X3. For a finite intensity the class is the intensity rounded down and
    clamped to 1..10, and the label is the entry of [MMI_CLASSES] for
    that class; so a stronger shaking never gets a lower class. *)
Theorem formatMMI_class_is_clamped_floor (a b : Q) :
  let k := Z.max 1 (Z.min 10 (Qfloor a)) in
  (exists roman desc,
     In (k, (roman, desc)) MMI_CLASSES /\
     label (formatMMI (Fin a)) = roman ++ " – " ++ desc /\
     intClass (formatMMI (Fin a)) = Fin (inject_Z k))
  /\ ((a <= b)%Q ->
      JS.lt (intClass (formatMMI (Fin b))) (intClass (formatMMI (Fin a))) = false).
Proof.
  intros k. split.
  - destruct (formatMMI_Fin a) as (roman & desc & Hin & E).
    exists roman, desc. rewrite E. auto.
  - intros Hab.
    destruct (formatMMI_Fin a) as (r1 & d1 & _ & E1).
    destruct (formatMMI_Fin b) as (r2 & d2 & _ & E2).
    rewrite E1, E2. cbn [intClass JS.lt]. rewrite Qltb_inject_Z.
    apply Z.ltb_ge. pose proof (Qfloor_resp_le _ _ Hab). lia.
Qed.

(** X4. The placeholder label [? – Unknown] of [formatMMI] is produced for
    [NaN] and for nothing else: the infinities are clamped like any
    other number. *)
Theorem formatMMI_unknown_only_for_NaN (mmi : jsnum) :
  label (formatMMI mmi) = "? – Unknown" <-> mmi = NaN.
Proof.
  split.
  - destruct mmi as [| | |q]; [reflexivity | | |].
    + intros H. vm_compute in H. discriminate.
    + intros H. vm_compute in H. discriminate.
    + destruct (formatMMI_Fin q) as (roman & desc & Hin & E).
      rewrite E. cbn [label]. intros H. exfalso.
      simpl in Hin.
      repeat (destruct Hin as [Hin|Hin];
              [injection Hin as _ <- <-; discriminate|]).
      exact Hin.
  - intros ->. reflexivity.
Qed.

(** X5. The shaking slot of a report is the initial [No data.] text or the
    text for a finite intensity with a class of the table: no report
    shows the placeholder class. *)
Theorem shaking_slot_shows_a_listed_class :
  slot_text' shaking = results0 shaking
  \/ exists q roman desc,
       In (Z.max 1 (Z.min 10 (Qfloor q)), (roman, desc)) MMI_CLASSES
       /\ slot_text' shaking = fmtShaking (Fin q) (formatMMI (Fin q))
       /\ label (formatMMI (Fin q)) = roman ++ " – " ++ desc.
Proof.
  rewrite shaking_text, identifyMMIAt_value.
  destruct (err (env IdentifyMMI)); [now left|].
  destruct (mmi_val (env IdentifyMMI)) as [v|]; [|now left].
  destruct v as [| | |q]; cbn [isFinite]; try now left.
  right. destruct (formatMMI_Fin q) as (roman & desc & Hin & E).
  exists q, roman, desc. rewrite E. auto.
Qed.

(** X25. When the landslide service answers without error and the
    parser throws on the answer, the landslide lookup does nothing after
    its query: it writes no text and never calls [checkDone], since the
    exception leaves the callback of the identify and neither the
    [catch] nor the [finally] block of the lookup runs.  Then in no
    order of the answers does [completed] pass six or the report reach
    the page: the loading text stays. *)
Theorem unparsable_landslide_answer_blocks_report (sched : list nat) (e : exn) :
  err (env IdentifyLandslide) = None ->
  Landslide.parseLandslideLabelFromIdentify
    (raw (env IdentifyLandslide)) (fc (env IdentifyLandslide)) = Raise e ->
  total' landslide = [ASend IdentifyLandslide]
  /\ slot_text' landslide = results0 landslide
  /\ completed (st (run env sched click')) <= 6
  /\ page (run env sched click') = page0 latlng hasReportEl.
Proof.
  intros He Hp.
  assert (Ht : total' landslide = [ASend IdentifyLandslide]).
  { rewrite landslide_total, He, Hp. reflexivity. }
  split; [exact Ht|]. split.
  - rewrite landslide_text, He, Hp. reflexivity.
  - apply (stuck_report latlng env hasReportEl landslide sched).
    unfold settles. now rewrite Ht.
Qed.

End ClickExtras.
(* ================================================================== *)
(** ** The distance text of a nearest zone *)
(* ================================================================== *)

Section DistanceText.
Context `{RT : Runtime} `{TF : Turf}.

Lemma toFixed_same (d : nat) (q1 q2 : Q) :
  Qle_bool (inject_Z (pow10 21)) (Qabs q1) = false ->
  Qle_bool (inject_Z (pow10 21)) (Qabs q2) = false ->
  Qfloor (Qabs q1 * inject_Z (pow10 d) + (1 # 2))
  = Qfloor (Qabs q2 * inject_Z (pow10 d) + (1 # 2)) ->
  Qltb q1 0 = Qltb q2 0 ->
  toFixed d (Fin q1) = toFixed d (Fin q2).
Proof.
  intros H1 H2 Hf Hs. unfold toFixed. now rewrite H1, H2, Hf, Hs.
Qed.

Lemma hundredths (z : Z) :
  (0 <= z)%Z -> (z < 10 ^ 22 + 1)%Z ->
  let v := ((z # 100) * inject_Z 1)%Q in
  Qle_bool (inject_Z (pow10 21)) (Qabs v) = false
  /\ Qfloor (Qabs v * inject_Z (pow10 2) + (1 # 2)) = z
  /\ Qltb v 0 = false.
Proof.
  intros Hz0 Hz1 v.
  assert (Hv : (v == z # 100)%Q) by (unfold v; change (inject_Z 1) with 1%Q; ring).
  assert (Hv0 : (0 <= v)%Q).
  { rewrite Hv. unfold Qle. cbn [Qnum Qden]. lia. }
  assert (Hva : (Qabs v == z # 100)%Q) by (rewrite Qabs_pos; assumption).
  split; [|split].
  - apply not_true_iff_false. intros H. apply Qle_bool_iff in H.
    rewrite Hva in H. unfold Qle in H. cbn [Qnum Qden inject_Z] in H.
    change (pow10 21) with (10 ^ 21)%Z in H. lia.
  - apply Qfloor_half. rewrite Hva.
    change (inject_Z (pow10 2)) with 100%Q.
    rewrite (Qmake_Qdiv z 100). change (inject_Z (Z.pos 100)) with 100%Q. field.
  - unfold Qltb. apply negb_false_iff, Qle_bool_iff, Hv0.
Qed.

(** Reading a two-decimal text back and printing it again gives the
    same text. *)
Lemma toFixed2_stable (q : Q) :
  (0 <= q)%Q -> (q < inject_Z (10 ^ 20))%Q ->
  exists v, parseFloatString (toFixed 2 (Fin q)) = Fin v
            /\ toFixed 2 (Fin v) = toFixed 2 (Fin q).
Proof.
  intros H0 H1.
  assert (Ha : (Qabs q == q)%Q) by now apply Qabs_pos.
  assert (Hsmall : (Qabs q < inject_Z (pow10 21))%Q).
  { rewrite Ha. eapply Qlt_trans; [exact H1|]. rewrite <- Zlt_Qlt.
    apply Z.ltb_lt. vm_compute. reflexivity. }
  assert (Hs : Qltb q 0 = false).
  { unfold Qltb. apply negb_false_iff, Qle_bool_iff, H0. }
  rewrite (toFixed_read 2 q ltac:(discriminate) Hsmall). rewrite Hs. cbv zeta.
  assert (Hz0 : (0 <= Qfloor (Qabs q * inject_Z (pow10 2) + (1 # 2)))%Z).
  { change 0%Z with (Qfloor 0). apply Qfloor_resp_le.
    rewrite Ha. change (inject_Z (pow10 2)) with 100%Q.
    apply Qle_trans with (q * 100 + 0)%Q.
    - rewrite Qplus_0_r. apply Qmult_le_0_compat; [exact H0 | discriminate].
    - apply Qplus_le_r. discriminate. }
  assert (Hz1 : (Qfloor (Qabs q * inject_Z (pow10 2) + (1 # 2)) < 10 ^ 22 + 1)%Z).
  { rewrite Zlt_Qlt. eapply Qle_lt_trans; [apply Qfloor_le|].
    rewrite Ha. change (inject_Z (pow10 2)) with 100%Q.
    apply Qlt_le_trans with (inject_Z (10 ^ 20) * 100 + (1 # 2))%Q.
    - apply Qplus_lt_l. apply Qmult_lt_r; [reflexivity | exact H1].
    - apply Qle_bool_iff. vm_compute. reflexivity. }
  change (Pos.of_nat (Z.to_nat (pow10 2))) with 100%positive.
  destruct (hundredths _ Hz0 Hz1) as (A & B & C).
  eexists. split; [reflexivity|].
  apply toFixed_same.
  - exact A.
  - apply not_true_iff_false. intros H. apply Qle_bool_iff in H.
    apply (Qlt_not_le _ _ Hsmall H).
  - exact B.
  - now rewrite C, Hs.
Qed.

Lemma getDistance_of_polygon (clickLatLng : LatLng) (feature : Feature)
  (geom : Geometry) (line : TurfLine) (nearestPoint : TurfPoint) (distance : jsnum) :
  geometry feature = Some geom ->
  type geom = "Polygon" \/ type geom = "MultiPolygon" ->
  boundary geom = Ok line ->
  turf_nearestPointOnLine line (turf_point (lng clickLatLng, lat clickLatLng))
  = Ok nearestPoint ->
  turf_distance_miles (turf_point (lng clickLatLng, lat clickLatLng)) nearestPoint
  = Ok distance ->
  getDistanceToPolygonEdge clickLatLng feature = Ok (JStr (toFixed 2 distance)).
Proof.
  intros Hg Ht Hb Hn Hd.
  unfold getDistanceToPolygonEdge, boundary in *. rewrite Hg. cbn [member rbind].
  destruct Ht as [Ht|Ht]; rewrite Ht in *; cbn [String.eqb Ascii.eqb Bool.eqb] in *;
    rewrite Hb; cbn [rbind]; rewrite Hn; cbn [rbind]; now rewrite Hd.
Qed.

(** X6. The distance a nearest-zone text shows is the text
    [getDistanceToPolygonEdge] returned: the search reads that text back
    with [parseFloat], ranks the number and prints it again with
    [toFixed(2)], and for a distance of less than 1e20 miles the second
    rounding changes nothing. *)
Theorem nearest_text_shows_helper_text
  (clickLatLng : LatLng) (feature : Feature) (geom : Geometry)
  (line : TurfLine) (nearestPoint : TurfPoint) (q : Q)
  (label : string) (name : jsval) :
  geometry feature = Some geom ->
  type geom = "Polygon" \/ type geom = "MultiPolygon" ->
  boundary geom = Ok line ->
  turf_nearestPointOnLine line (turf_point (lng clickLatLng, lat clickLatLng))
  = Ok nearestPoint ->
  turf_distance_miles (turf_point (lng clickLatLng, lat clickLatLng)) nearestPoint
  = Ok (Fin q) ->
  (0 <= q)%Q -> (q < inject_Z (10 ^ 20))%Q ->
  exists (d : jsnum) (s : string),
    getDistanceToPolygonEdge clickLatLng feature = Ok (JStr s)
    /\ edgeDistance clickLatLng feature = Ok d
    /\ isFinite d = true
    /\ nearestText label name d
       = "■ <strong>Nearest " ++ label ++ ":</strong> " ++ ToString name
         ++ "<br>📏 Distance: " ++ s ++ " mi".
Proof.
  intros Hg Ht Hb Hn Hd H0 H1.
  pose proof (getDistance_of_polygon clickLatLng feature geom line nearestPoint
                (Fin q) Hg Ht Hb Hn Hd) as H.
  destruct (toFixed2_stable q H0 H1) as (v & Hv & Hs).
  exists (Fin v), (toFixed 2 (Fin q)). split; [exact H|]. split.
  - unfold edgeDistance. rewrite H. cbn [rbind]. unfold parseFloat. cbn [ToString].
    now rewrite Hv.
  - split; [reflexivity|]. unfold nearestText. now rewrite Hs.
Qed.

End DistanceText.
(* ================================================================== *)
(** ** The two nearest-searches print the same text *)
(* ================================================================== *)

Section SearchesAgree.
Context `{RT : Runtime} `{TF : Turf}.
Variable latlng : LatLng.
Variables label fieldName : string.

(** The two loops in step: [minDist] and [bestFeature] of the one are
    what [best] of the other records. *)
Lemma loops_in_step (fs : list Feature) :
  (forall f, In f fs -> exists d, edgeDistance latlng f = Ok d /\ d <> NInf) ->
  (forall f, In f fs -> properties f <> None) ->
  forall (m : jsnum) (bf : option Feature) (best : option Best),
    (bf = None /\ best = None /\ m = PInf)
    \/ (exists f props,
          bf = Some f /\ properties f = Some props /\ isFinite m = true
          /\ best = Some {| dist := m;
                            text := nearestText label (get props fieldName) m |}) ->
    exists m' bf' best',
      closest_loop latlng fs m bf = Ok (m', bf')
      /\ across_loop latlng label fieldName fs best = Ok best'
      /\ ((bf' = None /\ best' = None /\ m' = PInf)
          \/ (exists f props,
                bf' = Some f /\ properties f = Some props /\ isFinite m' = true
                /\ best' = Some {| dist := m';
                                   text := nearestText label (get props fieldName) m' |})).
Proof.
  induction fs as [|g fs IH]; intros Hd Hp m bf best R.
  - exists m, bf, best. auto.
  - assert (Hd' : forall f, In f fs -> exists d, edgeDistance latlng f = Ok d /\ d <> NInf)
      by (intros f Hf; apply Hd; now right).
    assert (Hp' : forall f, In f fs -> properties f <> None)
      by (intros f Hf; apply Hp; now right).
    destruct (Hd g (or_introl eq_refl)) as (d & Ed & Hn).
    destruct (properties g) as [props|] eqn:Eg;
      [|exfalso; now apply (Hp g (or_introl eq_refl))].
    cbn [closest_loop across_loop]. rewrite Ed. cbn [rbind].
    destruct d as [| | |q]; [| |congruence|].
    + cbn [isNaN isFinite negb andb]. now apply IH.
    + cbn [isNaN isFinite negb andb]. replace (lt PInf m) with false by now destruct m.
      now apply IH.
    + cbn [isNaN isFinite negb andb].
      destruct R as [(-> & -> & ->)|(f & props' & -> & Ef & Hfin & ->)].
      * cbn [lt improves]. rewrite Eg. cbn [member rbind].
        apply IH; auto. right. exists g, props. auto.
      * cbn [improves dist]. destruct (lt (Fin q) m) eqn:El.
        -- rewrite Eg. cbn [member rbind]. apply IH; auto. right. exists g, props. auto.
        -- apply IH; auto. right. exists f, props'. auto.
Qed.

(** X7. The search of the flood slot and the search of the fire slot print
    the same text for the same proximity answer: on an answer without
    error whose features all have a distance (never [-Infinity]) and
    properties, [getClosestFeatureByEdgeDistance] hands to its callback
    the text that [nearestByEdgeDistanceAcross] returns for that one
    layer. *)
Theorem nearest_searches_print_the_same_text
  (env : providers) (l : layer) (c : FeatureCollection) (fs : list Feature) :
  err (env (Nearby l NEARBY_METERS)) = None ->
  fc (env (Nearby l NEARBY_METERS)) = Some c ->
  features c = Some fs ->
  (forall f, In f fs -> exists d, edgeDistance latlng f = Ok d /\ d <> NInf) ->
  (forall f, In f fs -> properties f <> None) ->
  exists txt,
    closest_text latlng label fieldName (env (Nearby l NEARBY_METERS)) = Ok txt
    /\ value env (nearestByEdgeDistanceAcross latlng [l] label fieldName) = Ok txt
    /\ forall callback,
         acts env (getClosestFeatureByEdgeDistance latlng l label fieldName callback)
         = ASend (Nearby l NEARBY_METERS) :: acts env (callback txt).
Proof.
  intros He Hc Hf Hd Hp.
  destruct (loops_in_step fs Hd Hp PInf None None) as (m & bf & best & E1 & E2 & R);
    [now left|].
  assert (Hv : value env (nearestByEdgeDistanceAcross latlng [l] label fieldName)
               = Ok (match best with
                     | Some b => text b
                     | None => notFoundText label
                     end)).
  { unfold nearestByEdgeDistanceAcross. rewrite value_bind, nearestAcross_loop_value.
    cbn [flat_map]. rewrite app_nil_r. unfold usable, featuresOf.
    rewrite He, Hc, Hf, E2. reflexivity. }
  assert (Ht : closest_text latlng label fieldName (env (Nearby l NEARBY_METERS))
               = Ok (match best with
                     | Some b => text b
                     | None => notFoundText label
                     end)).
  { unfold closest_text, has_features, response_features.
    rewrite He, Hc. cbn [member rbind]. rewrite Hf. cbn [member rbind].
    destruct fs as [|f0 fs0] eqn:Efs.
    { cbn in E2. injection E2 as <-. reflexivity. }
    rewrite <- Efs in *.
    replace (0 <? List.length fs) with true by now rewrite Efs.
    rewrite E1. cbn [rbind snd fst].
    destruct R as [(-> & -> & ->)|(f & props & -> & Ef & Hfin & ->)]; [reflexivity|].
    rewrite Ef. reflexivity. }
  eexists. split; [exact Ht|]. split; [exact Hv|].
  intros callback. rewrite getClosest_acts, Ht. reflexivity.
Qed.

End SearchesAgree.
(* ================================================================== *)
(** ** Two clicks whose lookups overlap: the properties *)
(* ================================================================== *)

Module TwoClicksTheory.
Import TwoClicks.

Lemma page_turn (o : slot) (p : prog unit) :
  forall s0, exists l, page (turn o p s0) = (page s0 ++ l)%list.
Proof.
  induction p as [a|e|e0|r k IH|r cb k IHcb IHk|s txt k IH|k IH] using task_induction;
    intros s0; cbn [turn].
  - exists []. now rewrite app_nil_r.
  - exists []. now rewrite app_nil_r.
  - exists []. now rewrite app_nil_r.
  - exists []. cbn [page]. now rewrite app_nil_r.
  - match goal with |- context [turn o k ?s'] => destruct (IHk s') as [l Hl] end.
    rewrite Hl. cbn [page]. eexists. reflexivity.
  - match goal with |- context [turn o k ?s'] => destruct (IH s') as [l Hl] end.
    rewrite Hl. cbn [page]. eexists. reflexivity.
  - destruct (checkDone (st s0)) as [st' effs].
    match goal with |- context [turn o k ?s'] => destruct (IH s') as [l Hl] end.
    rewrite Hl. cbn [page]. rewrite <- app_assoc. eexists. reflexivity.
Qed.

Lemma page_deliver (env : providers) (i : nat) (s : sys) :
  exists l, page (deliver env i s) = (page s ++ l)%list.
Proof.
  unfold deliver. destruct (nth_error (pend s) i) as [it|].
  - match goal with |- context [turn ?o ?p ?s'] =>
      destruct (page_turn o p s') as [l Hl] end.
    rewrite Hl. cbn [page]. eexists. reflexivity.
  - exists []. now rewrite app_nil_r.
Qed.

Lemma page_run (env : providers) (sched : list nat) :
  forall s, exists l, page (run env sched s) = (page s ++ l)%list.
Proof.
  induction sched as [|i sched IH]; intros s; cbn [run].
  - exists []. now rewrite app_nil_r.
  - destruct (IH (deliver env i s)) as [l Hl]. rewrite Hl.
    destruct (page_deliver env i s) as [l' Hl']. rewrite Hl', <- app_assoc.
    eexists. reflexivity.
Qed.

Lemma skipn_length_app {A : Type} (l1 l2 : list A) :
  skipn (List.length l1) (l1 ++ l2) = l2.
Proof. induction l1; simpl; auto. Qed.

Lemma added_of (s s' : sys) (l : list effect) :
  page s' = (page s ++ l)%list -> added s s' = l.
Proof. intros H. unfold added. rewrite H. apply skipn_length_app. Qed.

Lemma added_step (env : providers) (i : nat) (rest : list nat) (s : sys) :
  (added s (deliver env i s) ++ added (deliver env i s) (run env rest (deliver env i s)))%list
  = added s (run env rest (deliver env i s)).
Proof.
  destruct (page_deliver env i s) as [a Ha].
  destruct (page_run env rest (deliver env i s)) as [b Hb].
  rewrite (added_of _ _ a Ha), (added_of _ _ b Hb).
  symmetry. apply added_of. now rewrite Hb, Ha, app_assoc.
Qed.

Lemma innerHTML_report (d : list effect) (html : string) :
  innerHTML (d ++ [InnerHTML html; HideSpinner]) = Some html.
Proof. unfold innerHTML. now rewrite fold_left_app. Qed.

Section Session.
Context `{RT : Runtime} `{TF : Turf}.
Variables latlng1 latlng2 : LatLng.
Variables env1 env2 : providers.

Local Abbreviation answers' := (answers env1 env2).
Local Abbreviation click1 := (click latlng1 true).
Local Abbreviation click2 := (click latlng2 true).

Lemma answers_first (sched : list nat) :
  forall ss,
    answers' (map (pair First) sched) ss =
    {| first := run env1 sched (first ss); second := second ss;
       dom := (dom ss ++ added (first ss) (run env1 sched (first ss)))%list |}.
Proof.
  induction sched as [|i sched IH]; intros ss; cbn [map].
  - unfold answers. cbn [fold_left run]. unfold added. rewrite skipn_all, app_nil_r.
    now destruct ss.
  - unfold answers in *. cbn [fold_left]. rewrite IH. unfold answer.
    cbn [fst snd first second dom run]. f_equal.
    now rewrite <- app_assoc, added_step.
Qed.

Lemma answers_second (sched : list nat) :
  forall ss,
    answers' (map (pair Second) sched) ss =
    {| first := first ss; second := run env2 sched (second ss);
       dom := (dom ss ++ added (second ss) (run env2 sched (second ss)))%list |}.
Proof.
  induction sched as [|i sched IH]; intros ss; cbn [map].
  - unfold answers. cbn [fold_left run]. unfold added. rewrite skipn_all, app_nil_r.
    now destruct ss.
  - unfold answers in *. cbn [fold_left]. rewrite IH. unfold answer.
    cbn [fst snd first second dom run]. f_equal.
    now rewrite <- app_assoc, added_step.
Qed.

Lemma answers_app (a b : list (which * nat)) (ss : session) :
  answers' (a ++ b) ss = answers' b (answers' a ss).
Proof. unfold answers. apply fold_left_app. Qed.

(** X8. The report on the page is that of the click whose answers come
    last, not that of the latest click.  When a second click comes
    before the report of the first is shown, the answers can come in an
    order after which every query of both clicks is answered and the
    page shows the report of the first click, for the first location;
    in another order it shows the report of the second.  This is for
    two clicks that both come to a report: their flood and landslide
    lookups call [checkDone]. *)
Theorem overlapping_clicks_show_the_slower_report (early : list nat) :
  settles latlng1 env1 flood = true ->
  settles latlng1 env1 landslide = true ->
  settles latlng2 env2 flood = true ->
  settles latlng2 env2 landslide = true ->
  completed (st (run env1 early click1)) < 7 ->
  (exists sched,
     let ss := answers' sched (clicks latlng1 latlng2 env1 early) in
     pend (first ss) = [] /\ pend (second ss) = []
     /\ innerHTML (dom ss) = Some (report_html (slot_text latlng1 env1)))
  /\ (exists sched,
        let ss := answers' sched (clicks latlng1 latlng2 env1 early) in
        pend (first ss) = [] /\ pend (second ss) = []
        /\ innerHTML (dom ss) = Some (report_html (slot_text latlng2 env2))).
Proof.
  intros Hf1 Hl1 Hf2 Hl2 Hearly.
  set (s1 := run env1 early click1).
  set (d1 := repeat 0 (weight env1 (pend s1))).
  set (d2 := repeat 0 (weight env2 (pend click2))).
  assert (P1 : pend (run env1 d1 s1) = []) by (apply drain; lia).
  assert (P2 : pend (run env2 d2 click2) = []) by (apply drain; lia).
  assert (Q1 : page (run env1 d1 s1) =
               (page s1 ++ [InnerHTML (report_html
                                         (slot_text
                                            latlng1 env1)); HideSpinner])%list).
  { unfold s1 in *. rewrite <- run_app in *.
    destruct (quiescent_report latlng1 env1 true
                (early ++ d1) Hf1 Hl1 P1) as [_ Hp].
    rewrite Hp. rewrite (run_page latlng1 env1 true early).
    destruct (Nat.leb_spec 7 (completed (st (run env1 early click1)))); [lia|].
    now rewrite app_nil_r. }
  assert (Q2 : page (run env2 d2 click2) =
               (page click2 ++ [InnerHTML (report_html
                                             (slot_text
                                                latlng2 env2)); HideSpinner])%list).
  { destruct (quiescent_report latlng2 env2 true
                d2 Hf2 Hl2 P2) as [_ Hp].
    rewrite Hp.
    pose proof (run_page latlng2 env2 true []) as H0.
    cbn [run] in H0. rewrite H0.
    change (completed (st click2)) with 0. cbn [Nat.leb]. now rewrite app_nil_r. }
  split.
  - exists (map (pair Second) d2 ++ map (pair First) d1)%list. cbv zeta.
    rewrite answers_app, answers_second, answers_first.
    unfold clicks. cbn [first second dom]. fold s1.
    split; [exact P1|]. split; [exact P2|].
    rewrite (added_of _ _ _ Q1), (added_of _ _ _ Q2).
    apply innerHTML_report.
  - exists (map (pair First) d1 ++ map (pair Second) d2)%list. cbv zeta.
    rewrite answers_app, answers_first, answers_second.
    unfold clicks. cbn [first second dom]. fold s1.
    split; [exact P1|]. split; [exact P2|].
    rewrite (added_of _ _ _ Q1), (added_of _ _ _ Q2).
    apply innerHTML_report.
Qed.

End Session.
End TwoClicksTheory.
(* ================================================================== *)
(** ** [parseLandslideLabelFromIdentify]: the properties *)
(* ================================================================== *)

Module LandslideTheory.
Import Landslide.

Section Parse.
Context `{RT : Runtime}.

Lemma classLabel_listed (q : Q) (k : Z) :
  (0 <= k <= 10)%Z -> (q == inject_Z k)%Q ->
  classLabel (Fin q)
  = nth (Z.to_nat k) ["0"; "I"; "II"; "III"; "IV"; "V"; "VI"; "VII"; "VIII"; "IX"; "X"]
        EmptyString.
Proof.
  intros Hk Hq. unfold classLabel.
  assert (E : forall j : Z, Qeq_bool (inject_Z j) q = (j =? k)%Z).
  { intros j. destruct (Z.eqb_spec j k) as [->|Hne].
    - apply Qeq_bool_iff. now symmetry.
    - apply not_true_iff_false. intros H. apply Qeq_bool_iff in H.
      apply Hne. apply inject_Z_injective. now rewrite <- Hq. }
  unfold LANDSLIDE_CLASS_MAP. cbn [find fst]. rewrite !E.
  assert (Hcases : (k = 0 \/ k = 1 \/ k = 2 \/ k = 3 \/ k = 4 \/ k = 5 \/ k = 6
                    \/ k = 7 \/ k = 8 \/ k = 9 \/ k = 10)%Z) by lia.
  repeat (destruct Hcases as [->|Hcases]); [ .. | subst k ]; reflexivity.
Qed.

Lemma classLabel_nonempty (v : jsnum) :
  (forall q, NumberToString q <> EmptyString) -> classLabel v <> EmptyString.
Proof.
  intros Hn. unfold classLabel. destruct v as [| | |q]; try discriminate.
  destruct (find _ LANDSLIDE_CLASS_MAP) as [kv|] eqn:E; [|apply Hn].
  apply find_some in E. destruct E as [Hin _]. simpl in Hin.
  repeat (destruct Hin as [<-|Hin]; [discriminate|]). destruct Hin.
Qed.

Lemma ToString_truthy_nonempty (v : jsval) :
  (forall q, NumberToString q <> EmptyString) ->
  truthy v = true -> ToString v <> EmptyString.
Proof.
  intros Hn. destruct v as [| |[|]|[| | |q]|[|c s]]; simpl; try discriminate.
  intros _. apply Hn.
Qed.

Lemma exact_loop_nonempty (attrs : object) (ks : list string) (l : string) :
  (forall q, NumberToString q <> EmptyString) ->
  exact_loop attrs ks = Some l -> l <> EmptyString.
Proof.
  intros Hn. induction ks as [|k ks IH]; simpl; [discriminate|].
  destruct (has attrs k && filled (get attrs k)); [|exact IH].
  destruct (isNaN (ToNumber (get attrs k))); simpl; [exact IH|].
  intros [= <-]. now apply classLabel_nonempty.
Qed.

Lemma text_loop_nonempty (o : object) (ks : list string) (l : string) :
  (forall q, NumberToString q <> EmptyString) ->
  text_loop o ks = Some l -> l <> EmptyString.
Proof.
  intros Hn. induction ks as [|k ks IH]; simpl; [discriminate|].
  destruct (truthy (get o k)) eqn:E; [|exact IH].
  intros [= <-]. now apply ToString_truthy_nonempty.
Qed.

Lemma num_loop_nonempty (props : object) (ks : list string) (l : string) :
  (forall q, NumberToString q <> EmptyString) ->
  num_loop props ks = Some l -> l <> EmptyString.
Proof.
  intros Hn. induction ks as [|k ks IH]; simpl; [discriminate|].
  destruct (present (get props k) && filled (get props k)
            && negb (isNaN (ToNumber (get props k)))); [|exact IH].
  intros [= <-]. now apply classLabel_nonempty.
Qed.

Lemma fromAttributes_nonempty (attrs : object) (l : string) :
  (forall q, NumberToString q <> EmptyString) ->
  fromAttributes attrs = Some l -> l <> EmptyString.
Proof.
  intros Hn. unfold fromAttributes.
  destruct (exact_loop _ exactKeys) as [x|] eqn:Ex.
  { intros [= <-]. eapply exact_loop_nonempty; eassumption. }
  destruct (find _ (keys _)) as [k|].
  - destruct (truthy (JStr k)).
    + destruct (isNaN (ToNumber (get _ k))); cbn [negb].
      * apply text_loop_nonempty, Hn.
      * intros [= <-]. now apply classLabel_nonempty.
    + apply text_loop_nonempty, Hn.
  - apply text_loop_nonempty, Hn.
Qed.

(** Whether [r0.value] gives the class: it is there and converts to a
    number. *)
Lemma fromResult_direct (r0 : IdentifyResult) :
  present (result_value r0) && negb (isNaN (ToNumber (result_value r0))) = true ->
  fromResult r0 = Ok (Some (classLabel (ToNumber (result_value r0)))).
Proof.
  unfold fromResult. destruct (present (result_value r0)); [|discriminate].
  cbn [andb]. now intros ->.
Qed.

Lemma fromResult_attributes (r0 : IdentifyResult) :
  present (result_value r0) && negb (isNaN (ToNumber (result_value r0))) = false ->
  fromResult r0 =
  match attributes r0 with
  | AttrsObject attrs => Ok (fromAttributes attrs)
  | AttrsValue v => if truthy v then Raise TypeError else Ok (fromAttributes [])
  end.
Proof.
  unfold fromResult. destruct (present (result_value r0)); cbn [andb].
  - now intros ->.
  - reflexivity.
Qed.

Lemma fromResult_nonempty (r0 : IdentifyResult) (l : string) :
  (forall q, NumberToString q <> EmptyString) ->
  fromResult r0 = Ok (Some l) -> l <> EmptyString.
Proof.
  intros Hn.
  destruct (present (result_value r0) && negb (isNaN (ToNumber (result_value r0))))
    eqn:E.
  - rewrite (fromResult_direct r0 E). intros [= <-]. now apply classLabel_nonempty.
  - rewrite (fromResult_attributes r0 E).
    destruct (attributes r0) as [attrs|v].
    + intros [= H]. eapply fromAttributes_nonempty; eassumption.
    + destruct (truthy v); [discriminate|].
      intros [= H]; eapply fromAttributes_nonempty; eassumption.
Qed.

Lemma fromResult_throws (r0 : IdentifyResult) (e : exn) :
  fromResult r0 = Raise e
  <-> e = TypeError
      /\ present (result_value r0) && negb (isNaN (ToNumber (result_value r0))) = false
      /\ exists v, attributes r0 = AttrsValue v /\ truthy v = true.
Proof.
  destruct (present (result_value r0) && negb (isNaN (ToNumber (result_value r0))))
    eqn:E.
  - rewrite (fromResult_direct r0 E). split; [discriminate|].
    intros (_ & H & _). discriminate.
  - rewrite (fromResult_attributes r0 E).
    destruct (attributes r0) as [attrs|v].
    + split; [discriminate|]. intros (_ & _ & v & H & _). discriminate.
    + destruct (truthy v) eqn:T.
      * split.
        -- intros [= <-]. split; [reflexivity|]. split; [reflexivity|]. now exists v.
        -- now intros (-> & _).
      * split; [discriminate|]. intros (_ & _ & v' & [= <-] & H). congruence.
Qed.

Lemma fromFeatureCollection_nonempty (c : option FeatureCollection) (l : string) :
  (forall q, NumberToString q <> EmptyString) ->
  fromFeatureCollection c = Some l -> l <> EmptyString.
Proof.
  intros Hn. unfold fromFeatureCollection.
  destruct (text_loop _ textCandidates) as [x|] eqn:Ex.
  - intros [= <-]. eapply text_loop_nonempty; eassumption.
  - apply num_loop_nonempty, Hn.
Qed.

(** X9. The parser throws in two cases only, both with a [TypeError]:
    when [rawResponse.results] is an array whose first entry is null or
    undefined, on reading [r0.value]; and when the first entry has no
    [value] that converts to a number and its [attributes] are a truthy
    primitive, on [k in attrs].  On every other answer it returns, a
    label or [null]. *)
Theorem parseLandslideLabel_throws_iff
  (rawResponse : option RawResponse)
  (featureCollection : option FeatureCollection) (e : exn) :
  parseLandslideLabelFromIdentify rawResponse featureCollection = Raise e
  <-> e = TypeError
      /\ exists rw rest,
          rawResponse = Some rw
          /\ (raw_results rw = Some (None :: rest)
              \/ exists r0 v,
                   raw_results rw = Some (Some r0 :: rest)
                   /\ present (result_value r0)
                      && negb (isNaN (ToNumber (result_value r0))) = false
                   /\ attributes r0 = AttrsValue v /\ truthy v = true).
Proof.
  unfold parseLandslideLabelFromIdentify. split.
  - destruct rawResponse as [rw|]; [|discriminate].
    destruct (raw_results rw) as [[|[r0|] rest]|] eqn:E; cbn [member rbind].
    + discriminate.
    + destruct (fromResult r0) as [[l|]|x] eqn:F; cbn [rbind]; try discriminate.
      intros [= <-]. apply fromResult_throws in F.
      destruct F as (-> & Hd & v & Ha & Hv).
      split; [reflexivity|]. exists rw, rest. split; [reflexivity|].
      right. now exists r0, v.
    + intros [= <-]. split; [reflexivity|]. exists rw, rest. now split; [|left].
    + discriminate.
  - intros [-> (rw & rest & -> & [E|(r0 & v & E & Hd & Ha & Hv)])]; rewrite E.
    + reflexivity.
    + cbn [member rbind].
      assert (F : fromResult r0 = Raise TypeError).
      { apply fromResult_throws. split; [reflexivity|]. split; [exact Hd|].
        now exists v. }
      now rewrite F.
Qed.

(** X10. A label the parser returns is never the empty text, whichever of its
    six sources it comes from; so the test [if (label)] of the click
    handler drops no label but [null].  The runtime prints no number as
    the empty text. *)
Theorem parseLandslideLabel_never_empty
  (rawResponse : option RawResponse)
  (featureCollection : option FeatureCollection) (l : string) :
  (forall q, NumberToString q <> EmptyString) ->
  parseLandslideLabelFromIdentify rawResponse featureCollection = Ok (Some l) ->
  l <> EmptyString.
Proof.
  intros Hn. unfold parseLandslideLabelFromIdentify.
  destruct rawResponse as [rw|].
  - destruct (raw_results rw) as [[|[r0|] rest]|]; cbn [member rbind].
    + intros [= H]. eapply fromFeatureCollection_nonempty; eassumption.
    + destruct (fromResult r0) as [[x|]|x] eqn:Ex; cbn [rbind].
      * intros [= <-]. eapply fromResult_nonempty; eassumption.
      * intros [= H]. eapply fromFeatureCollection_nonempty; eassumption.
      * discriminate.
    + discriminate.
    + intros [= H]. eapply fromFeatureCollection_nonempty; eassumption.
  - cbn [rbind]. intros [= H]. eapply fromFeatureCollection_nonempty; eassumption.
Qed.

(** X11. A numeric [value] of the first identify result decides the label:
    when it converts to one of the classes 0 to 10 the label is that
    class in roman numerals ([0] for class 0), whatever the attributes,
    the other results and the feature collection hold. *)
Theorem parseLandslideLabel_value_decides
  (rw : RawResponse) (r0 : IdentifyResult) (rest : list (option IdentifyResult))
  (featureCollection : option FeatureCollection) (q : Q) (k : Z) :
  raw_results rw = Some (Some r0 :: rest) ->
  present (result_value r0) = true ->
  ToNumber (result_value r0) = Fin q ->
  (q == inject_Z k)%Q -> (0 <= k <= 10)%Z ->
  parseLandslideLabelFromIdentify (Some rw) featureCollection
  = Ok (Some (nth (Z.to_nat k)
                  ["0"; "I"; "II"; "III"; "IV"; "V"; "VI"; "VII"; "VIII"; "IX"; "X"]
                  EmptyString)).
Proof.
  intros Hr Hp Hv Hq Hk. unfold parseLandslideLabelFromIdentify.
  rewrite Hr. cbn [member rbind].
  rewrite fromResult_direct by (rewrite Hp, Hv; reflexivity).
  cbn [rbind]. now rewrite Hv, (classLabel_listed q k Hk Hq).
Qed.

End Parse.
End LandslideTheory.
(* ================================================================== *)
(** ** The EV-charger overlay: markers and dropped pans *)
(* ================================================================== *)

Module EvMarkers.
Import EvChargers EvVocabulary.

Section Controller.
Context `{RT : Runtime}.

Lemma addMarker_cases (c : charger) :
  addMarker (Some c) =
  if located c then (if drawable c then Ok (Some c) else Raise
                       (match countPorts (Connections c) with
                        | Raise e => e
                        | Ok _ => LibraryError
                        end))
  else Ok None.
Proof.
  unfold addMarker, located, drawable, marker. cbn [member rbind].
  destruct (addressInfo c) as [ai|]; cbn [Latitude Longitude truthy negb orb andb].
  2: reflexivity.
  destruct (truthy (Latitude ai)), (truthy (Longitude ai)); cbn [negb orb andb];
    try reflexivity.
  destruct (Connections c) as [|l|]; cbn [countPorts rbind andb]; try reflexivity.
  - now destruct (isNaN (ToNumber (Latitude ai))), (isNaN (ToNumber (Longitude ai))).
  - destruct (forallb _ l); cbn [rbind andb]; [|reflexivity].
    now destruct (isNaN (ToNumber (Latitude ai))), (isNaN (ToNumber (Longitude ai))).
Qed.

Lemma addMarkers_reached (data : list (option charger)) :
  forall ms : list charger,
    fst (addMarkers data ms) = (ms ++ filter located (reached data))%list.
Proof.
  induction data as [|[c|] data IH]; intros ms; cbn [addMarkers reached filter].
  - now rewrite app_nil_r.
  - rewrite addMarker_cases.
    destruct (located c) eqn:L; cbn [andb].
    + destruct (drawable c); cbn [negb filter fst].
      * rewrite L, IH. now rewrite <- app_assoc.
      * now rewrite app_nil_r.
    + cbn [filter]. rewrite L. apply IH.
  - cbn [member rbind addMarker fst]. now rewrite app_nil_r.
Qed.

Lemma reached_all (cs : list charger) :
  (forall c, In c cs -> located c = true -> drawable c = true) ->
  reached (map Some cs) = cs.
Proof.
  induction cs as [|c cs IH]; intros H; cbn [map reached]; [reflexivity|].
  destruct (located c) eqn:L; cbn [andb].
  - rewrite (H c (or_introl eq_refl) L). cbn [negb]. f_equal.
    apply IH. intros c' Hin. apply H. now right.
  - f_equal. apply IH. intros c' Hin. apply H. now right.
Qed.

(** X12. When a fetch ends with a list of chargers, the layer holds
    nothing of what it held before, and a marker for exactly the
    chargers whose latitude and longitude are both truthy, in the order
    of the answer, among the entries before the first one the loop
    throws on: an entry that is null, or a located charger whose
    connections are not an array or hold a null entry, or whose
    coordinates do not convert to numbers.  A charger on the equator or
    the prime meridian gets no marker.  When no entry makes the loop
    throw, all located chargers of the answer have their marker.  This
    holds whether or not the overlay is still shown.  A fetch that fails
    leaves the markers as they were.  Either way the busy flag is
    cleared. *)
Theorem fetched_markers_are_located_chargers
  (s : state) (b : bounds) (rest : list bounds) (data : list (option charger)) :
  inflight s = b :: rest ->
  markers (settle (Data (Some data)) s) = filter located (reached data)
  /\ (forall cs, data = map Some cs ->
                 (forall c, In c cs -> located c = true -> drawable c = true) ->
                 markers (settle (Data (Some data)) s) = filter located cs)
  /\ markers (settle Rejected s) = markers s
  /\ isLoading (settle (Data (Some data)) s) = false
  /\ isLoading (settle Rejected s) = false.
Proof.
  intros H. unfold settle. rewrite H. cbn [markers isLoading].
  rewrite addMarkers_reached. cbn [app].
  repeat split. intros cs -> Hcs. now rewrite reached_all.
Qed.

(** X13. A pan that ends while a fetch is in flight is lost when the fetch
    takes longer than the quiet period: the timer of the pan fires
    while the busy flag is set, so [fetchInView] returns at once, and
    when the fetch ends nothing is scheduled; the markers stay those of
    the old view until the map moves again.  When the fetch ends within
    the quiet period, the timer starts the fetch for the new view. *)
Theorem pan_during_slow_fetch_is_dropped
  (s : state) (b0 b : bounds) (o : outcome) (t0 t1 t2 : Z) :
  isLoading s = true -> hasLayer s = true -> inflight s = [b0] -> timers s = [] ->
  (t0 <= t1 <= t2)%Z -> (t0 + EV_FETCH_DEBOUNCE_MS <= t2)%Z ->
  let s' := fire_due t2 (run_events [(t0, Moveend b); (t1, Settled o)] s) in
  timers s' = [] /\ view s' = b
  /\ ((t0 + EV_FETCH_DEBOUNCE_MS <= t1)%Z ->
      started s' = started s /\ inflight s' = [] /\ isLoading s' = false)
  /\ ((t1 < t0 + EV_FETCH_DEBOUNCE_MS)%Z ->
      started s' = (started s ++ [((t0 + EV_FETCH_DEBOUNCE_MS)%Z, b)])%list
      /\ inflight s' = [b] /\ isLoading s' = true).
Proof.
  intros Hl Hh Hi Ht H01 H02 s'.
  unfold s', run_events.
  assert (E0 : fire_due t0 s = with_timers s (t s) (next_timer s) []).
  { unfold fire_due. rewrite Ht. reflexivity. }
  rewrite E0.
  set (s1 := handle t0 (Moveend b) (with_timers s (t s) (next_timer s) [])).
  assert (F1 : isLoading s1 = true /\ hasLayer s1 = true /\ inflight s1 = [b0]
               /\ started s1 = started s /\ view s1 = b
               /\ exists id, timers s1 = [(id, (t0 + EV_FETCH_DEBOUNCE_MS)%Z)]).
  { unfold s1, handle, fetchDebounced, set_view, with_timers, clearTimeout, setTimeout.
    cbn. destruct (t s); cbn; repeat split; auto; eexists; reflexivity. }
  clearbody s1. destruct F1 as (L1 & H1 & I1 & S1 & V1 & id & T1).
  destruct (Z.leb_spec (t0 + EV_FETCH_DEBOUNCE_MS) t1) as [Hle|Hgt].
  - assert (E1 : fire_due t1 s1 = with_timers s1 (t s1) (next_timer s1) []).
    { unfold fire_due. rewrite T1. cbn [filter snd].
      destruct (Z.leb_spec (t0 + EV_FETCH_DEBOUNCE_MS) t1); [|lia].
      cbn [negb fold_left]. unfold fetchInView, enabled. cbn. now rewrite H1, L1. }
    rewrite E1. unfold handle, settle. cbn [with_timers inflight]. rewrite I1.
    unfold fire_due. cbn. repeat split; auto; try lia.
  - assert (E1 : fire_due t1 s1 = s1).
    { unfold fire_due. rewrite T1. cbn [filter snd].
      destruct (Z.leb_spec (t0 + EV_FETCH_DEBOUNCE_MS) t1); [lia|].
      cbn [negb fold_left]. destruct s1; cbn in *. now subst. }
    rewrite E1. unfold handle, settle. rewrite I1.
    unfold fire_due. cbn [timers]. rewrite T1. cbn [filter snd].
    destruct (Z.leb_spec (t0 + EV_FETCH_DEBOUNCE_MS) t2); [|lia].
    cbn [negb fold_left]. unfold fetchInView, enabled. cbn. rewrite H1. cbn.
    rewrite S1, V1. repeat split; auto; try lia.
Qed.

Lemma fire_due_disabled (now : Z) (s : state) :
  hasLayer s = false ->
  hasLayer (fire_due now s) = false /\ started (fire_due now s) = started s
  /\ inflight (fire_due now s) = inflight s.
Proof.
  intros H. unfold fire_due.
  set (s' := with_timers s (t s) (next_timer s) _).
  assert (H' : hasLayer s' = false /\ started s' = started s /\ inflight s' = inflight s)
    by (unfold s'; cbn; auto).
  clearbody s'. revert s' H'.
  induction (filter (fun tm => (snd tm <=? now)%Z) (timers s)) as [|tm due IH];
    intros s' H'; cbn [fold_left]; [exact H'|].
  apply IH. unfold fetchInView, enabled. destruct H' as (A & B & C).
  now rewrite A.
Qed.

Lemma handle_disabled (now : Z) (e : event) (s : state) :
  hasLayer s = false -> e <> OverlayAdd ->
  hasLayer (handle now e s) = false /\ started (handle now e s) = started s.
Proof.
  intros H He. destruct e as [b| | |o]; cbn [handle].
  - unfold fetchDebounced, set_view, setTimeout, clearTimeout, with_timers.
    cbn. destruct (t s); cbn; auto.
  - congruence.
  - cbn. auto.
  - unfold settle. destruct (inflight s); cbn; auto.
Qed.

(** X14. While the overlay is off no request goes to OpenChargeMap: whatever
    the map does, pans, timers that fire, a fetch that ends, unticking
    again, [fetch] is not called until the overlay is ticked. *)
Theorem no_fetch_while_overlay_is_off (evs : list (Z * event)) (s : state) :
  hasLayer s = false ->
  (forall now e, In (now, e) evs -> e <> OverlayAdd) ->
  started (run_events evs s) = started s /\ hasLayer (run_events evs s) = false.
Proof.
  revert s. induction evs as [|[now e] evs IH]; intros s H Hev; cbn [run_events].
  - auto.
  - destruct (fire_due_disabled now s H) as (A & B & _).
    destruct (handle_disabled now e (fire_due now s) A) as (C & D).
    { apply (Hev now). now left. }
    destruct (IH (handle now e (fire_due now s)) C) as (E & F).
    { intros now' e' Hin. apply (Hev now'). now right. }
    split; [congruence | exact F].
Qed.

End Controller.

End EvMarkers.
(* ================================================================== *)
(** ** Zoom visibility: the properties *)
(* ================================================================== *)

Module ZoomTheory.
Import Zoom.

Lemma same_spec (a b : overlay) : reflect (a = b) (same a b).
Proof. destruct a, b; constructor; (reflexivity || discriminate). Qed.

Lemma same_refl (a : overlay) : same a a = true.
Proof. unfold same. apply Nat.eqb_refl. Qed.

Lemma same_sym (a b : overlay) : same a b = same b a.
Proof. unfold same. apply Nat.eqb_sym. Qed.

Lemma hasLayer_addLayer (m : Map) (l x : overlay) :
  hasLayer (addLayer m l) x = same x l || hasLayer m x.
Proof.
  unfold addLayer. destruct (hasLayer m l) eqn:E.
  - destruct (same_spec x l) as [->|]; [now rewrite E | reflexivity].
  - unfold hasLayer. cbn [layers]. rewrite existsb_app. simpl.
    rewrite orb_false_r. apply orb_comm.
Qed.

Lemma hasLayer_removeLayer (m : Map) (l x : overlay) :
  hasLayer (removeLayer m l) x = negb (same x l) && hasLayer m x.
Proof.
  unfold removeLayer, hasLayer. cbn [layers].
  induction (layers m) as [|y ys IH]; simpl.
  - now rewrite andb_false_r.
  - destruct (same_spec y l) as [->|Hy]; simpl.
    + rewrite IH. destruct (same_spec x l); simpl; reflexivity.
    + rewrite IH. destruct (same_spec x y) as [->|]; simpl.
      * destruct (same_spec y l); [contradiction | reflexivity].
      * reflexivity.
Qed.

Lemma zoom_addLayer (m : Map) (l : overlay) : zoom (addLayer m l) = zoom m.
Proof. unfold addLayer. now destruct (hasLayer m l). Qed.

Lemma zoom_removeLayer (m : Map) (l : overlay) : zoom (removeLayer m l) = zoom m.
Proof. reflexivity. Qed.

Lemma toggleAtZoom_hasLayer (layer : overlay) (minZoom : Q) (m : Map) (x : overlay) :
  hasLayer (toggleAtZoom layer minZoom m) x =
  if same x layer then Qle_bool minZoom (zoom m) else hasLayer m x.
Proof.
  unfold toggleAtZoom, getZoom.
  destruct (Qle_bool minZoom (zoom m)); destruct (hasLayer m layer) eqn:E; cbn [negb];
    rewrite ?hasLayer_addLayer, ?hasLayer_removeLayer;
    destruct (same_spec x layer) as [->|]; simpl; congruence.
Qed.

Lemma toggleAtZoom_zoom (layer : overlay) (minZoom : Q) (m : Map) :
  zoom (toggleAtZoom layer minZoom m) = zoom m.
Proof.
  unfold toggleAtZoom.
  destruct (Qle_bool _ _), (hasLayer m layer); cbn [negb];
    rewrite ?zoom_addLayer, ?zoom_removeLayer; reflexivity.
Qed.

Lemma roads_zoom (m : Map) : zoom (roads m) = zoom m.
Proof.
  unfold roads.
  repeat match goal with
         | |- context [if ?b then _ else _] => destruct b
         end; repeat (rewrite zoom_addLayer || rewrite zoom_removeLayer); reflexivity.
Qed.

Ltac road_cases x :=
  destruct (same_spec x highwayLayer) as [?|?];
  destruct (same_spec x allRoadsLayer) as [?|?];
  subst; try discriminate; simpl in *; congruence.

Lemma roads_hasLayer (m : Map) (x : overlay) :
  hasLayer (roads m) x =
  if same x highwayLayer then Qle_bool (zoom m) ZOOM_ROADS_SWITCH
  else if same x allRoadsLayer then negb (Qle_bool (zoom m) ZOOM_ROADS_SWITCH)
  else hasLayer m x.
Proof.
  unfold roads, getZoom.
  destruct (Qle_bool (zoom m) ZOOM_ROADS_SWITCH).
  - destruct (hasLayer m allRoadsLayer) eqn:E1.
    + destruct (hasLayer (removeLayer m allRoadsLayer) highwayLayer) eqn:E2; cbn [negb];
        rewrite ?hasLayer_addLayer, ?hasLayer_removeLayer;
        rewrite hasLayer_removeLayer in E2;
        road_cases x.
    + destruct (hasLayer m highwayLayer) eqn:E2; cbn [negb];
        rewrite ?hasLayer_addLayer;
        road_cases x.
  - destruct (hasLayer m allRoadsLayer) eqn:E1; cbn [negb].
    + destruct (hasLayer m highwayLayer) eqn:E2;
        rewrite ?hasLayer_removeLayer;
        road_cases x.
    + destruct (hasLayer (addLayer m allRoadsLayer) highwayLayer) eqn:E2;
        rewrite ?hasLayer_removeLayer, ?hasLayer_addLayer;
        rewrite hasLayer_addLayer in E2;
        road_cases x.
Qed.

Lemma toggles_hasLayer (ls : list overlay) (minZoom : Q) :
  forall (m : Map) (x : overlay),
    hasLayer (fold_left (fun m h => h m)
                (List.map (fun l => toggleAtZoom l minZoom) ls) m) x =
    (if existsb (same x) ls then Qle_bool minZoom (zoom m) else hasLayer m x)
    /\ zoom (fold_left (fun m h => h m)
               (List.map (fun l => toggleAtZoom l minZoom) ls) m) = zoom m.
Proof.
  induction ls as [|l ls IH]; intros m x; simpl; [split; reflexivity|].
  destruct (IH (toggleAtZoom l minZoom m) x) as [H1 H2].
  rewrite H1, H2, toggleAtZoom_zoom, toggleAtZoom_hasLayer. split; [|reflexivity].
  destruct (same x l), (existsb (same x) ls); reflexivity.
Qed.

Lemma run_handlers_cons (h : Map -> Map) (hs : list (Map -> Map)) (m : Map) :
  fold_left (fun m h => h m) (h :: hs) m = fold_left (fun m h => h m) hs (h m).
Proof. reflexivity. Qed.

(** X15. After [toggleAtZoom]'s handler has run, the map shows the layer
    exactly when the zoom has reached the threshold, whatever it showed
    before; no other layer and not the zoom is touched. *)
Theorem toggleAtZoom_shows_iff_zoomed_in
  (layer : overlay) (minZoom : Q) (m : Map) :
  let m' := toggleAtZoom layer minZoom m in
  (hasLayer m' layer = true <-> (minZoom <= getZoom m)%Q)
  /\ (forall x, x <> layer -> hasLayer m' x = hasLayer m x)
  /\ getZoom m' = getZoom m.
Proof.
  intros m'. unfold m', getZoom. split; [|split].
  - rewrite toggleAtZoom_hasLayer, same_refl. apply Qle_bool_iff.
  - intros x Hx. rewrite toggleAtZoom_hasLayer.
    destruct (same_spec x layer); [contradiction | reflexivity].
  - apply toggleAtZoom_zoom.
Qed.

(** X16. After every zoom change the handlers of [main] leave the map with
    exactly one of the two road layers, the highways up to zoom 10 and
    all roads above, and with each of the ten point-of-interest layers
    shown exactly from zoom 14 on, whatever the user had ticked before;
    the other overlays stay as they were. *)
Theorem zoomend_sets_roads_and_pois (z : Q) (m : Map) :
  let m' := act (ZoomTo z) m in
  getZoom m' = z
  /\ (hasLayer m' highwayLayer = true <-> (z <= 10)%Q)
  /\ (hasLayer m' allRoadsLayer = true <-> ~ (z <= 10)%Q)
  /\ (forall p, In p pois -> (hasLayer m' p = true <-> (14 <= z)%Q))
  /\ (forall x, x <> highwayLayer -> x <> allRoadsLayer -> ~ In x pois ->
        hasLayer m' x = hasLayer m x).
Proof.
  intros m'.
  assert (H : forall x,
             hasLayer m' x =
             if existsb (same x) pois then Qle_bool ZOOM_POI_MIN z
             else if same x highwayLayer then Qle_bool z ZOOM_ROADS_SWITCH
             else if same x allRoadsLayer then negb (Qle_bool z ZOOM_ROADS_SWITCH)
             else hasLayer m x).
  { intros x. unfold m', act, zoomTo, zoomend, handlers. rewrite run_handlers_cons.
    destruct (toggles_hasLayer pois ZOOM_POI_MIN
                (roads {| zoom := z; layers := layers m |}) x) as [H _].
    rewrite H, roads_zoom, roads_hasLayer. reflexivity. }
  assert (Hz : zoom m' = z).
  { unfold m', act, zoomTo, zoomend, handlers. rewrite run_handlers_cons.
    destruct (toggles_hasLayer pois ZOOM_POI_MIN
                (roads {| zoom := z; layers := layers m |}) highwayLayer) as [_ H2].
    now rewrite H2, roads_zoom. }
  split; [exact Hz|]. split; [|split; [|split]].
  - rewrite H. change (existsb (same highwayLayer) pois) with false.
    cbv iota. rewrite same_refl. apply Qle_bool_iff.
  - rewrite H. change (existsb (same allRoadsLayer) pois) with false.
    change (same allRoadsLayer highwayLayer) with false.
    cbv iota. rewrite same_refl.
    rewrite negb_true_iff, <- not_true_iff_false.
    unfold ZOOM_ROADS_SWITCH. now rewrite Qle_bool_iff.
  - intros p Hp. rewrite H.
    assert (E : existsb (same p) pois = true).
    { apply existsb_exists. exists p. split; [exact Hp | apply same_refl]. }
    rewrite E. apply Qle_bool_iff.
  - intros x H1 H2 H3. rewrite H.
    assert (E : existsb (same x) pois = false).
    { apply not_true_iff_false. intros E. apply existsb_exists in E.
      destruct E as (y & Hy & Hs).
      destruct (same_spec x y) as [E'|]; [rewrite E' in *; tauto | discriminate]. }
    rewrite E. destruct (same_spec x highwayLayer); [contradiction|].
    destruct (same_spec x allRoadsLayer); [contradiction|]. reflexivity.
Qed.

End ZoomTheory.
(* ================================================================== *)
(** ** The faults group: the properties *)
(* ================================================================== *)

Module FaultsTheory.
Import Faults.

Lemma handle_keeps (e : event) (s : state) :
  (listening s = if onMap s then 1 else 0) ->
  (group s = if onMap s
             then [if Qle_bool SWITCH_ZOOM (zoom s) then local else regional]
             else []) ->
  let s' := handle e s in
  (listening s' = if onMap s' then 1 else 0)
  /\ (group s' = if onMap s'
                 then [if Qle_bool SWITCH_ZOOM (zoom s') then local else regional]
                 else [])
  /\ zoom s' = match e with Zoomend z => z | _ => zoom s end
  /\ onMap s' = match e with
                | Enable => true
                | Disable => false
                | Zoomend _ => onMap s
                end.
Proof.
  intros Hl Hg. destruct e as [| |z]; cbn [handle].
  - destruct (onMap s) eqn:E; cbn.
    + rewrite E. auto.
    + rewrite Hl. auto.
  - destruct (onMap s) eqn:E; cbn.
    + rewrite Hl. auto.
    + rewrite E. auto.
  - rewrite Hl. destruct (onMap s) eqn:E; cbn; rewrite ?E; auto.
Qed.

Lemma run_keeps (evs : list event) :
  forall s0 : state,
    (listening s0 = if onMap s0 then 1 else 0) ->
    (group s0 = if onMap s0
                then [if Qle_bool SWITCH_ZOOM (zoom s0) then local else regional]
                else []) ->
    let s := run evs s0 in
    (listening s = if onMap s then 1 else 0)
    /\ (group s = if onMap s
                  then [if Qle_bool SWITCH_ZOOM (zoom s) then local else regional]
                  else [])
    /\ zoom s = fold_left (fun z e => match e with Zoomend z' => z' | _ => z end)
                          evs (zoom s0).
Proof.
  induction evs as [|e evs IH]; intros s0 H1 H2; [cbn; auto|].
  destruct (handle_keeps e s0 H1 H2) as (A & B & C & _).
  destruct (IH (handle e s0) A B) as (A' & B' & C').
  unfold run in *. cbn [fold_left]. rewrite C in C'. auto.
Qed.

(** X17. Whatever the user does, while the faults overlay is on the map its
    group holds exactly one layer, the local faults when the latest zoom
    is 11 or more and the regional faults below, and [syncToZoom] is
    registered once; while the overlay is off the group is empty and
    nothing is registered. *)
Theorem faults_group_follows_zoom (z0 : Q) (evs : list event) :
  let s := run evs (init z0) in
  let z := fold_left (fun z e => match e with Zoomend z' => z' | _ => z end) evs z0 in
  (onMap s = true ->
     group s = [if Qle_bool 11 z then local else regional] /\ listening s = 1)
  /\ (onMap s = false -> group s = [] /\ listening s = 0).
Proof.
  intros s z.
  destruct (run_keeps evs (init z0) eq_refl eq_refl) as (H1 & H2 & H3).
  fold s in H1, H2, H3. cbn [init zoom] in H3. fold z in H3.
  split; intros E; rewrite E in *; rewrite ?H3 in *; auto.
Qed.

End FaultsTheory.
(* ================================================================== *)
(** ** Coded domains: the properties *)
(* ================================================================== *)

Module UniversitiesTheory.
Import Universities.

Lemma find_filter_other {A : Type} (k k' : string) (o : list (string * A)) :
  k' <> k ->
  find (fun kv => String.eqb (fst kv) k')
       (filter (fun kv => negb (String.eqb (fst kv) k)) o)
  = find (fun kv => String.eqb (fst kv) k') o.
Proof.
  intros H. induction o as [|[a v] o IH]; simpl; [reflexivity|].
  destruct (String.eqb_spec a k) as [->|Ha]; simpl.
  - destruct (String.eqb_spec k k'); [congruence | exact IH].
  - destruct (String.eqb_spec a k'); [reflexivity | exact IH].
Qed.

Lemma find_filter_same {A : Type} (k : string) (o : list (string * A)) :
  find (fun kv => String.eqb (fst kv) k)
       (filter (fun kv => negb (String.eqb (fst kv) k)) o) = None.
Proof.
  induction o as [|[a v] o IH]; simpl; [reflexivity|].
  destruct (String.eqb_spec a k) as [->|Ha]; simpl; [exact IH|].
  destruct (String.eqb_spec a k); [contradiction | exact IH].
Qed.

Lemma find_app_none {A : Type} (f : A -> bool) (l l' : list A) :
  find f l = None -> find f (l ++ l') = find f l'.
Proof.
  induction l as [|a l IH]; simpl; [reflexivity|].
  destruct (f a); [discriminate | exact IH].
Qed.

Lemma find_app_some {A : Type} (f : A -> bool) (l l' : list A) (a : A) :
  find f l = Some a -> find f (l ++ l') = Some a.
Proof.
  induction l as [|b l IH]; simpl; [discriminate|].
  destruct (f b); [trivial | exact IH].
Qed.

Lemma find_put_same {A : Type} (k : string) (v : A) (o : list (string * A)) :
  find (fun kv => String.eqb (fst kv) k) (put k v o) = Some (k, v).
Proof.
  unfold put. rewrite find_app_none by apply find_filter_same.
  simpl. now rewrite String.eqb_refl.
Qed.

Lemma find_put_other {A : Type} (k k' : string) (v : A) (o : list (string * A)) :
  k' <> k ->
  find (fun kv => String.eqb (fst kv) k') (put k v o)
  = find (fun kv => String.eqb (fst kv) k') o.
Proof.
  intros H. unfold put.
  destruct (find (fun kv => String.eqb (fst kv) k') o) as [kv|] eqn:E.
  - apply find_app_some. now rewrite find_filter_other.
  - rewrite find_app_none by now rewrite find_filter_other.
    simpl. destruct (String.eqb_spec k k'); [congruence | reflexivity].
Qed.

Lemma lookup_put_same {A : Type} (k : string) (v : A) (o : list (string * A)) :
  lookup (put k v o) k = Some v.
Proof. unfold lookup. now rewrite find_put_same. Qed.

Lemma lookup_put_other {A : Type} (k k' : string) (v : A) (o : list (string * A)) :
  k' <> k -> lookup (put k v o) k' = lookup o k'.
Proof. intros H. unfold lookup. now rewrite find_put_other. Qed.

Lemma get_put_same (k : string) (v : jsval) (o : object) : get (put k v o) k = v.
Proof. unfold get. now rewrite find_put_same. Qed.

Lemma get_put_other (k k' : string) (v : jsval) (o : object) :
  k' <> k -> get (put k v o) k' = get o k'.
Proof. intros H. unfold get. now rewrite find_put_other. Qed.

Lemma coded_cases (v : jsval) :
  v = JStr "codedValue"
  \/ (v <> JStr "codedValue"
      /\ forall (A : Type) (a b : A),
           match v with JStr "codedValue" => a | _ => b end = b).
Proof.
  destruct v as [| | | |s]; try (right; split; [discriminate | reflexivity]).
  destruct (String.string_dec s "codedValue") as [->|Hs]; [now left|].
  right. split; [congruence|]. intros A a b.
  destruct s as [|c0 s]; [reflexivity|].
  repeat (match goal with
          | |- context [match ?c with Ascii _ _ _ _ _ _ _ _ => _ end] => destruct c
          | |- context [match ?b with true => _ | false => _ end] => destruct b
          | |- context [match ?s with EmptyString => _ | String _ _ => _ end] =>
              destruct s
          end; try reflexivity; try congruence).
Qed.

Section Domains.
Context `{RT : Runtime}.

(** The dictionary of a field after the loop over its coded values. *)
Lemma codedValues_loop_get (c : string) (v : jsval) (cvs : list CodedValue) :
  forall dict : object,
    (exists cv, In cv cvs /\ ToString (code cv) = c /\ cv_name cv = v)
    \/ get dict c = v ->
    (forall cv, In cv cvs -> ToString (code cv) = c -> cv_name cv = v) ->
    exists d, codedValues_loop (map Some cvs) dict = Ok d /\ get d c = v.
Proof.
  induction cvs as [|x cvs IH]; intros dict H Hu.
  - exists dict. split; [reflexivity|]. destruct H as [(cv & [] & _)|H]. exact H.
  - cbn [map codedValues_loop]. apply IH.
    + destruct (String.eqb_spec (ToString (code x)) c) as [E|E].
      * right. rewrite <- E at 1. rewrite get_put_same. apply Hu; [now left | exact E].
      * destruct H as [(cv & [->|Hin] & Hc & Hv)|H].
        -- contradiction.
        -- left. now exists cv.
        -- right. rewrite get_put_other by congruence. exact H.
    + intros cv Hin. apply Hu. now right.
Qed.

(** A code that is not among the coded values is not in the dictionary
    either. *)
Lemma codedValues_loop_miss (c : string) (cvs : list CodedValue) :
  forall dict : object,
    get dict c = JUndefined ->
    (forall cv, In cv cvs -> ToString (code cv) <> c) ->
    exists d, codedValues_loop (map Some cvs) dict = Ok d /\ get d c = JUndefined.
Proof.
  induction cvs as [|x cvs IH]; intros dict H Hu.
  - now exists dict.
  - cbn [map codedValues_loop]. apply IH.
    + rewrite get_put_other; [exact H|]. intros E. apply (Hu x); [now left | now symmetry].
    + intros cv Hin. apply Hu. now right.
Qed.

Lemma codedValues_loop_total (cvs : list CodedValue) :
  forall dict : object, exists d, codedValues_loop (map Some cvs) dict = Ok d.
Proof.
  induction cvs as [|x cvs IH]; intros dict; [now exists dict|].
  cbn [map codedValues_loop]. apply IH.
Qed.

(** The dictionaries after the loop over well-formed fields. *)
Lemma fields_loop_lookup (k : string) (d : object) (fs : list Field) :
  forall cd : domains,
    (forall g dom, In g fs -> domain g = Some dom ->
                   domain_type dom = JStr "codedValue" ->
                   exists l, codedValues dom = Some (map Some l)) ->
    (exists g dom l, In g fs /\ ToString (name g) = k /\ domain g = Some dom
                     /\ domain_type dom = JStr "codedValue"
                     /\ codedValues dom = Some (map Some l)
                     /\ codedValues_loop (map Some l) [] = Ok d)
    \/ lookup cd k = Some d ->
    (forall g dom l, In g fs -> ToString (name g) = k -> domain g = Some dom ->
                     domain_type dom = JStr "codedValue" ->
                     codedValues dom = Some (map Some l) ->
                     codedValues_loop (map Some l) [] = Ok d) ->
    exists cd', fields_loop (map Some fs) cd = (cd', None) /\ lookup cd' k = Some d.
Proof.
  induction fs as [|x fs IH]; intros cd Hwf H Hu.
  - exists cd. split; [reflexivity|].
    destruct H as [(g & _ & _ & [] & _)|H]. exact H.
  - cbn [map fields_loop].
    assert (Hwf' : forall g dom, In g fs -> domain g = Some dom ->
                                 domain_type dom = JStr "codedValue" ->
                                 exists l, codedValues dom = Some (map Some l))
      by (intros g dom Hin; apply Hwf; now right).
    assert (Hu' : forall g dom l, In g fs -> ToString (name g) = k ->
                                  domain g = Some dom ->
                                  domain_type dom = JStr "codedValue" ->
                                  codedValues dom = Some (map Some l) ->
                                  codedValues_loop (map Some l) [] = Ok d)
      by (intros g dom l Hin; apply Hu; now right).
    assert (Hskip : (domain x = None \/
                     exists dom, domain x = Some dom /\
                                 domain_type dom <> JStr "codedValue") ->
                    (exists g dom l, In g fs /\ ToString (name g) = k
                                     /\ domain g = Some dom
                                     /\ domain_type dom = JStr "codedValue"
                                     /\ codedValues dom = Some (map Some l)
                                     /\ codedValues_loop (map Some l) [] = Ok d)
                    \/ lookup cd k = Some d).
    { intros Hx. destruct H as [(g & dom & l & [->|Hin] & Hk & Hd & Ht & Hc & Hl)|H].
      - destruct Hx as [Hx|(dom' & Hx & Hne)]; congruence.
      - left. now exists g, dom, l.
      - now right. }
    destruct (domain x) as [dom|] eqn:Ed; [|apply IH; auto].
    destruct (coded_cases (domain_type dom)) as [Ht|[Ht Hm]].
    + rewrite Ht. destruct (Hwf x dom (or_introl eq_refl) Ed Ht) as [l Hl].
      rewrite Hl. destruct (codedValues_loop_total l []) as [dict Hdict].
      rewrite Hdict. apply IH; [exact Hwf'| |exact Hu'].
      destruct (String.eqb_spec (ToString (name x)) k) as [E|E].
      * right. rewrite <- E at 1. rewrite lookup_put_same. f_equal.
        specialize (Hu x dom l (or_introl eq_refl) E Ed Ht Hl). congruence.
      * destruct H as [(g & dom' & l' & [->|Hin] & Hk & Hd & Ht' & Hc & Hl')|H].
        -- contradiction.
        -- left. now exists g, dom', l'.
        -- right. rewrite lookup_put_other by congruence. exact H.
    + rewrite Hm. apply IH; [exact Hwf'| |exact Hu'].
      apply Hskip. right. now exists dom.
Qed.

(** A field name for which the metadata has no coded field keeps the
    dictionary it had, whether the loop ends or throws. *)
Lemma fields_loop_frame (k : string) (fs : list (option Field)) :
  forall cd : domains,
    (forall g dom, In (Some g) fs -> domain g = Some dom ->
                   domain_type dom = JStr "codedValue" -> ToString (name g) <> k) ->
    lookup (fst (fields_loop fs cd)) k = lookup cd k.
Proof.
  induction fs as [|[x|] fs IH]; intros cd H; [reflexivity| |reflexivity].
  assert (H' : forall g dom, In (Some g) fs -> domain g = Some dom ->
                             domain_type dom = JStr "codedValue" ->
                             ToString (name g) <> k)
    by (intros g dom Hin; apply H; now right).
  cbn [fields_loop]. destruct (domain x) as [dom|] eqn:Ed; [|now apply IH].
  destruct (coded_cases (domain_type dom)) as [Ht|[Ht Hm]].
  - rewrite Ht. destruct (codedValues dom) as [cvs|]; [|reflexivity].
    destruct (codedValues_loop cvs []) as [dict|e]; [|reflexivity].
    rewrite IH by exact H'. apply lookup_put_other.
    intros E. apply (H x dom (or_introl eq_refl) Ed Ht). now symmetry.
  - rewrite Hm. now apply IH.
Qed.

(** X18. Round trip.  When the metadata lists its fields and coded values
    without holes, [buildDomainMaps] ends without exception, and
    afterwards [decodeDomain] gives, for a coded field and one of its
    codes, the name the metadata has for that code, and for a value that
    is none of the field's codes the text of the value; the field names
    and the codes of the field are told apart by their texts. *)
Theorem decodeDomain_after_buildDomainMaps
  (fs : list Field) (cd0 : domains) (f : Field) (dom : Domain)
  (cvs : list CodedValue) :
  (forall g d, In g fs -> domain g = Some d -> domain_type d = JStr "codedValue" ->
               exists l, codedValues d = Some (map Some l)) ->
  In f fs -> domain f = Some dom -> domain_type dom = JStr "codedValue" ->
  codedValues dom = Some (map Some cvs) ->
  (forall g, In g fs -> ToString (name g) = ToString (name f) -> g = f) ->
  exists cd,
    buildDomainMaps (Some {| fields := Some (map Some fs) |}) cd0 = (cd, None)
    /\ (forall cv, In cv cvs ->
          (forall c, In c cvs -> ToString (code c) = ToString (code cv) -> c = cv) ->
          code cv <> JNull -> code cv <> JUndefined ->
          cv_name cv <> JNull -> cv_name cv <> JUndefined ->
          decodeDomain cd (ToString (name f)) (code cv) = cv_name cv)
    /\ (forall v, v <> JNull -> v <> JUndefined ->
          (forall c, In c cvs -> ToString (code c) <> ToString v) ->
          decodeDomain cd (ToString (name f)) v = JStr (ToString v)).
Proof.
  intros Hwf Hin Hd Ht Hc Hu.
  destruct (codedValues_loop_total cvs []) as [d Hdict].
  destruct (fields_loop_lookup (ToString (name f)) d fs cd0 Hwf) as (cd & Hb & Hl).
  { left. exists f, dom, cvs. tauto. }
  { intros g dom' l Hg Hk Hd' Ht' Hc'. rewrite (Hu g Hg Hk) in *. congruence. }
  exists cd. split; [exact Hb|]. split.
  - intros cv Hcv Hcu N1 N2 N3 N4.
    destruct (codedValues_loop_get (ToString (code cv)) (cv_name cv) cvs []) as (d' & Hd' & Hg).
    { left. now exists cv. }
    { intros c Hcin Hk. now rewrite (Hcu c Hcin Hk). }
    assert (d' = d) by congruence. subst d'.
    unfold decodeDomain. rewrite Hl, Hg.
    destruct (code cv); try congruence; destruct (cv_name cv); congruence.
  - intros v N1 N2 Hv.
    destruct (codedValues_loop_miss (ToString v) cvs []) as (d' & Hd' & Hg);
      [reflexivity | exact Hv |].
    assert (d' = d) by congruence. subst d'.
    unfold decodeDomain. rewrite Hl, Hg. destruct v; congruence.
Qed.

(** X19. Fallbacks.  [decodeDomain] answers [N/A] for [null] and [undefined]
    whatever the dictionaries; and for a field that the metadata gives
    no coded domain it answers the text of the value, whether the
    metadata never came, was malformed, or made [buildDomainMaps]
    throw. *)
Theorem decodeDomain_without_domain
  (md : option Metadata) (fieldName : string) (value : jsval) :
  (forall m fs g dom, md = Some m -> fields m = Some fs -> In (Some g) fs ->
     domain g = Some dom -> domain_type dom = JStr "codedValue" ->
     ToString (name g) <> fieldName) ->
  let collegeDomains := fst (buildDomainMaps md []) in
  decodeDomain collegeDomains fieldName JNull = JStr "N/A"
  /\ decodeDomain collegeDomains fieldName JUndefined = JStr "N/A"
  /\ (value <> JNull -> value <> JUndefined ->
      decodeDomain collegeDomains fieldName value = JStr (ToString value)).
Proof.
  intros H cd. split; [reflexivity|]. split; [reflexivity|].
  intros N1 N2.
  assert (E : lookup cd fieldName = None).
  { unfold cd, buildDomainMaps. destruct md as [m|]; [|reflexivity].
    destruct (fields m) as [fs|] eqn:Ef; [|reflexivity].
    rewrite fields_loop_frame; [reflexivity|].
    intros g dom. now apply (H m fs). }
  unfold decodeDomain. rewrite E. destruct value; congruence.
Qed.

End Domains.
End UniversitiesTheory.
(* ================================================================== *)
(** ** The popup of a fault: the properties *)
(* ================================================================== *)

Module FaultPopupTheory.
Import FaultPopup.

Lemma hint_score_shift (nk : string) (hints : list string) :
  forall s : Z, hint_score nk hints s = (s + hint_score nk hints 0)%Z.
Proof.
  induction hints as [|h hints IH]; intros s; cbn [hint_score]; [lia|].
  destruct (String.eqb (normalizeKey h) EmptyString); [apply IH|].
  destruct (String.eqb nk (normalizeKey h)).
  - rewrite (IH (s + 50)%Z), (IH (0 + 50)%Z). lia.
  - destruct (includes nk (normalizeKey h)); [|apply IH].
    rewrite (IH (s + 20)%Z), (IH (0 + 20)%Z). lia.
Qed.

Lemma prefix_same (s : string) : prefix s s = true.
Proof.
  induction s as [|c s IH]; simpl; [reflexivity|].
  destruct (ascii_dec c c); [exact IH | contradiction].
Qed.

Lemma includes_refl (s : string) : includes s s = true.
Proof. destruct s; cbn [includes]; now rewrite prefix_same. Qed.

(** The hints add nothing when none is found in the key, and 20 or more
    as soon as one is. *)
Lemma hint_score_matches (nk : string) (hints : list string) :
  (hint_score nk hints 0 = 0%Z
   /\ forall h, In h hints -> normalizeKey h <> EmptyString ->
                includes nk (normalizeKey h) = false)
  \/ ((20 <= hint_score nk hints 0)%Z
      /\ exists h, In h hints /\ normalizeKey h <> EmptyString
                   /\ includes nk (normalizeKey h) = true).
Proof.
  induction hints as [|h hints IH]; cbn [hint_score].
  - left. split; [reflexivity|]. intros h [].
  - destruct (String.eqb_spec (normalizeKey h) EmptyString) as [E|E].
    + destruct IH as [[H1 H2]|[H1 (h' & Hin & Hh)]].
      * left. split; [exact H1|]. intros h' [<-|Hin] Hne; [congruence | now apply H2].
      * right. split; [exact H1|]. exists h'. split; [now right | exact Hh].
    + assert (Hnonneg : (0 <= hint_score nk hints 0)%Z)
        by (destruct IH as [[-> _]|[H _]]; lia).
      destruct (String.eqb_spec nk (normalizeKey h)) as [Eq|Ne].
      * right. rewrite hint_score_shift. split; [lia|].
        exists h. split; [now left|]. split; [exact E|].
        rewrite <- Eq. apply includes_refl.
      * destruct (includes nk (normalizeKey h)) eqn:Ei.
        -- right. rewrite hint_score_shift. split; [lia|].
           exists h. split; [now left|]. now split.
        -- destruct IH as [[H1 H2]|[H1 (h' & Hin & Hh)]].
           ++ left. split; [exact H1|].
              intros h' [<-|Hin] Hne; [exact Ei | now apply H2].
           ++ right. split; [exact H1|]. exists h'. split; [now right | exact Hh].
Qed.

Lemma Qltb_true (a b : Q) : Qltb a b = true <-> (a < b)%Q.
Proof.
  unfold Qltb. rewrite negb_true_iff, <- not_true_iff_false, Qle_bool_iff.
  split; [apply Qnot_le_lt | apply Qlt_not_le].
Qed.

Lemma Qltb_false (a b : Q) : Qltb a b = false <-> (b <= a)%Q.
Proof. unfold Qltb. now rewrite negb_false_iff, Qle_bool_iff. Qed.

(** The bonus for a short key is between 0 and 10. *)
Lemma bonus_bounds (n : nat) :
  (0 <= qmax 0 (10 - qmin 10 (inject_Z (Z.of_nat n) / 6)) <= 10)%Q.
Proof.
  assert (Hx : (0 <= inject_Z (Z.of_nat n) / 6)%Q).
  { apply Qle_shift_div_l; [reflexivity|]. rewrite Qmult_0_l.
    change 0%Q with (inject_Z 0). rewrite <- Zle_Qle. lia. }
  set (x := (inject_Z (Z.of_nat n) / 6)%Q) in *.
  assert (Hm : (0 <= qmin 10 x <= 10)%Q).
  { unfold qmin. destruct (Qltb x 10) eqn:E.
    - apply Qltb_true in E. split; [exact Hx | now apply Qlt_le_weak].
    - split; [discriminate | apply Qle_refl]. }
  destruct Hm as [Hm0 Hm1]. unfold qmax.
  destruct (Qltb 0 (10 - qmin 10 x)) eqn:E.
  - split.
    + apply Qltb_true in E. now apply Qlt_le_weak.
    + apply Qle_trans with (10 - 0)%Q; [|discriminate].
      unfold Qminus. apply Qplus_le_r. now apply Qopp_le_compat.
  - split; [apply Qle_refl | discriminate].
Qed.

(** X20. A key reaches the score 15 exactly when a hint is found in it: the
    bonus for a short key alone never reaches 15, a hint found adds 20
    at least. *)
Theorem scoreKey_reaches_15_iff_hinted (key : string) (hints : list string) :
  Qltb (scoreKey key hints) 15 = false
  <-> exists h, In h hints /\ normalizeKey h <> EmptyString
                /\ includes (normalizeKey key) (normalizeKey h) = true.
Proof.
  unfold scoreKey.
  pose proof (bonus_bounds (String.length (normalizeKey key))) as [Hb0 Hb1].
  set (bonus := qmax 0 _) in *.
  rewrite Qltb_false.
  destruct (hint_score_matches (normalizeKey key) hints)
    as [[H1 H2]|[H1 Hex]].
  - rewrite H1. split.
    + intros H. exfalso.
      assert (Hlt : (inject_Z 0 + bonus < 15)%Q).
      { apply Qle_lt_trans with (0 + 10)%Q; [|reflexivity].
        apply Qplus_le_r. exact Hb1. }
      exact (Qlt_not_le _ _ Hlt H).
    + intros (h & Hin & Hne & Hi). rewrite (H2 h Hin Hne) in Hi. discriminate.
  - split; [intros _; exact Hex|]. intros _.
    apply Qle_trans with (inject_Z 20 + 0)%Q; [discriminate|].
    apply Qplus_le_compat; [|exact Hb0]. now rewrite <- Zle_Qle.
Qed.

Lemma best_loop_spec (props : object) (hints : list string) (ks : list string) :
  forall (seen : list string) (best : option Candidate),
    (match best with
     | None => forall k, In k seen -> blank (get props k) = true
     | Some b =>
         In (key b) seen /\ blank (get props (key b)) = false
         /\ score b = scoreKey (key b) hints
         /\ forall k, In k seen -> blank (get props k) = false ->
                      (scoreKey k hints <= score b)%Q
     end) ->
    match best_loop props hints ks best with
    | None => forall k, In k (seen ++ ks) -> blank (get props k) = true
    | Some b =>
        In (key b) (seen ++ ks) /\ blank (get props (key b)) = false
        /\ score b = scoreKey (key b) hints
        /\ forall k, In k (seen ++ ks) -> blank (get props k) = false ->
                     (scoreKey k hints <= score b)%Q
    end.
Proof.
  induction ks as [|k ks IH]; intros seen best H; cbn [best_loop].
  - rewrite app_nil_r. exact H.
  - replace (seen ++ k :: ks)%list with ((seen ++ [k]) ++ ks)%list
      by now rewrite <- app_assoc.
    destruct (blank (get props k)) eqn:Eb.
    + apply IH. destruct best as [b|].
      * destruct H as (A & B & C & D). split; [apply in_or_app; now left|].
        split; [exact B|]. split; [exact C|].
        intros k' Hin Hk'. apply in_app_or in Hin. destruct Hin as [Hin|[<-|[]]].
        -- now apply D.
        -- congruence.
      * intros k' Hin. apply in_app_or in Hin. destruct Hin as [Hin|[<-|[]]];
           [now apply H | exact Eb].
    + destruct best as [b|].
      * destruct H as (A & B & C & D).
        destruct (Qltb (score b) (scoreKey k hints)) eqn:El; apply IH; cbn [key score].
        -- apply Qltb_true in El.
           split; [apply in_or_app; right; now left|].
           split; [exact Eb|]. split; [reflexivity|].
           intros k' Hin Hk'. apply in_app_or in Hin. destruct Hin as [Hin|[<-|[]]].
           ++ apply Qle_trans with (score b); [now apply D | now apply Qlt_le_weak].
           ++ apply Qle_refl.
        -- apply Qltb_false in El.
           split; [apply in_or_app; now left|].
           split; [exact B|]. split; [exact C|].
           intros k' Hin Hk'. apply in_app_or in Hin. destruct Hin as [Hin|[<-|[]]].
           ++ now apply D.
           ++ exact El.
      * apply IH. cbn [key score].
        split; [apply in_or_app; right; now left|].
        split; [exact Eb|]. split; [reflexivity|].
        intros k' Hin Hk'. apply in_app_or in Hin. destruct Hin as [Hin|[<-|[]]].
        -- rewrite (H k' Hin) in Hk'. discriminate.
        -- apply Qle_refl.
Qed.

Lemma fallback_loop_spec (props : object) (ks : list string) (k : string) :
  fallback_loop props ks = Some k ->
  In k ks /\ exists v, get props k = JStr v /\ 3 <= String.length (trim v).
Proof.
  induction ks as [|k' ks IH]; cbn [fallback_loop]; [discriminate|].
  destruct (get props k') as [| | | |v] eqn:E;
    try (intros H; destruct (IH H) as [A B]; split; [now right | exact B]).
  destruct (Nat.leb_spec 3 (String.length (trim v))).
  - intros [= <-]. split; [now left|]. now exists v.
  - intros H'. destruct (IH H') as [A B]. split; [now right | exact B].
Qed.

Lemma trim_empty : trim EmptyString = EmptyString.
Proof. reflexivity. Qed.

(** X21. The key [pickBestKey] returns is a key of the properties whose value
    is neither [null], [undefined] nor the empty text: the popup never
    names a field without a value. *)
Theorem pickBestKey_value_is_not_blank
  (props : object) (hints : list string) (k : string) :
  pickBestKey (Some props) hints = Some k ->
  In k (Landslide.keys props) /\ blank (get props k) = false.
Proof.
  unfold pickBestKey.
  pose proof (best_loop_spec props hints (Landslide.keys props) [] None) as Hb.
  cbn [app] in Hb.
  assert (Hf : fallback_loop props (Landslide.keys props) = Some k ->
               In k (Landslide.keys props) /\ blank (get props k) = false).
  { intros H. destruct (fallback_loop_spec _ _ _ H) as (A & v & Ev & Hv).
    split; [exact A|]. rewrite Ev. destruct v; [cbn in Hv; lia | reflexivity]. }
  destruct (best_loop props hints (Landslide.keys props) None) as [b|]; [|exact Hf].
  destruct (Hb ltac:(intros k' [])) as (A & B & _).
  destruct (Qltb (score b) 15); [exact Hf|].
  intros [= <-]. now split.
Qed.

(** X22. When a key with a value has a hint in its name, [pickBestKey]
    returns a key with a value whose score is the highest of all keys
    with a value, and that key has a hint in its name too. *)
Theorem pickBestKey_takes_a_highest_score
  (props : object) (hints : list string) (k0 : string) :
  In k0 (Landslide.keys props) -> blank (get props k0) = false ->
  Qltb (scoreKey k0 hints) 15 = false ->
  exists k,
    pickBestKey (Some props) hints = Some k
    /\ In k (Landslide.keys props) /\ blank (get props k) = false
    /\ Qltb (scoreKey k hints) 15 = false
    /\ forall k', In k' (Landslide.keys props) -> blank (get props k') = false ->
                  (scoreKey k' hints <= scoreKey k hints)%Q.
Proof.
  intros Hin Hb0 Hs. unfold pickBestKey.
  pose proof (best_loop_spec props hints (Landslide.keys props) [] None) as Hb.
  cbn [app] in Hb.
  destruct (best_loop props hints (Landslide.keys props) None) as [b|].
  - destruct (Hb ltac:(intros k' [])) as (A & B & C & D).
    assert (Hhigh : Qltb (score b) 15 = false).
    { apply Qltb_false. apply Qltb_false in Hs.
      eapply Qle_trans; [exact Hs | now apply D]. }
    rewrite Hhigh. exists (key b). rewrite <- C. auto.
  - rewrite (Hb ltac:(intros k' []) k0 Hin) in Hb0. discriminate.
Qed.

End FaultPopupTheory.
(* ================================================================== *)
(** ** Styles and legend: the properties *)
(* ================================================================== *)

Module StylesTheory.
Import Styles.

Lemma Qfloor_unique (k : Z) (x : Q) :
  (inject_Z k <= x)%Q -> (x < inject_Z (k + 1))%Q -> Qfloor x = k.
Proof.
  intros H1 H2.
  assert (A : (Qfloor x < k + 1)%Z).
  { rewrite Zlt_Qlt. eapply Qle_lt_trans; [apply Qfloor_le | exact H2]. }
  assert (B : (k < Qfloor x + 1)%Z).
  { rewrite Zlt_Qlt. eapply Qle_lt_trans; [exact H1 | apply Qlt_floor]. }
  lia.
Qed.

Lemma ge_Fin (a b : Q) : ge (Fin a) (Fin b) = Qle_bool b a.
Proof. unfold ge, JS.lt, Qltb. now rewrite negb_involutive. Qed.

Lemma Qle_bool_false (a b : Q) : Qle_bool a b = false -> (b < a)%Q.
Proof.
  intros H. apply Qnot_le_lt. intros H'. apply Qle_bool_iff in H'. congruence.
Qed.

Lemma tenth_ge (k : Z) (q : Q) :
  (inject_Z (10 * k) <= q)%Q -> (inject_Z k <= q / 10)%Q.
Proof.
  intros H. apply Qle_shift_div_l; [reflexivity|].
  change (inject_Z k * inject_Z 10 <= q)%Q.
  rewrite <- (inject_Z_mult k 10). now rewrite Z.mul_comm.
Qed.

Lemma tenth_lt (k : Z) (q : Q) :
  (q < inject_Z (10 * k))%Q -> (q / 10 < inject_Z k)%Q.
Proof.
  intros H. apply Qlt_shift_div_r; [reflexivity|].
  change (q < inject_Z k * inject_Z 10)%Q.
  rewrite <- (inject_Z_mult k 10). now rewrite Z.mul_comm.
Qed.

Section Ramp.
Context `{RT : Runtime}.

(** X23. The colour of a tract is the swatch of its decile in the legend: for
    a percentile [q], [cesRamp] returns the swatch number [q / 10]
    rounded down, the first one below 0 and the last one from 90 on; a
    missing percentile gets the first swatch. *)
Theorem cesRamp_is_legend_swatch (q : Q) :
  cesRamp (JNum (Fin q))
  = nth (Z.to_nat (Z.max 0 (Z.min 9 (Qfloor (q / 10))))) cesLegend EmptyString
  /\ cesRamp JUndefined = nth 0 cesLegend EmptyString
  /\ cesRamp (JNum NaN) = nth 0 cesLegend EmptyString.
Proof.
  split; [|split; reflexivity].
  unfold cesRamp. cbn [ToNumber]. rewrite !ge_Fin.
  assert (Hstep : forall k : Z,
             Qle_bool (inject_Z (10 * k)) q = true ->
             Qle_bool (inject_Z (10 * (k + 1))) q = false ->
             Qfloor (q / 10) = k).
  { intros k H1 H2. apply Qfloor_unique.
    - apply tenth_ge. now apply Qle_bool_iff.
    - apply tenth_lt. now apply Qle_bool_false. }
  destruct (Qle_bool 90 q) eqn:E9.
  { assert (H : (9 <= Qfloor (q / 10))%Z).
    { change 9%Z with (Qfloor (inject_Z 9)). apply Qfloor_resp_le.
      apply tenth_ge. now apply Qle_bool_iff. }
    replace (Z.max 0 (Z.min 9 (Qfloor (q / 10)))) with 9%Z by lia. reflexivity. }
  destruct (Qle_bool 80 q) eqn:E8; [now rewrite (Hstep 8%Z E8 E9)|].
  destruct (Qle_bool 70 q) eqn:E7; [now rewrite (Hstep 7%Z E7 E8)|].
  destruct (Qle_bool 60 q) eqn:E6; [now rewrite (Hstep 6%Z E6 E7)|].
  destruct (Qle_bool 50 q) eqn:E5; [now rewrite (Hstep 5%Z E5 E6)|].
  destruct (Qle_bool 40 q) eqn:E4; [now rewrite (Hstep 4%Z E4 E5)|].
  destruct (Qle_bool 30 q) eqn:E3; [now rewrite (Hstep 3%Z E3 E4)|].
  destruct (Qle_bool 20 q) eqn:E2; [now rewrite (Hstep 2%Z E2 E3)|].
  destruct (Qle_bool 10 q) eqn:E1; [now rewrite (Hstep 1%Z E1 E2)|].
  assert (H : (Qfloor (q / 10) <= 0)%Z).
  { assert (Hlt : (q / 10 < inject_Z 1)%Q) by (apply tenth_lt; now apply Qle_bool_false).
    assert (A : (Qfloor (q / 10) < 1)%Z).
    { rewrite Zlt_Qlt. eapply Qle_lt_trans; [apply Qfloor_le | exact Hlt]. }
    lia. }
  replace (Z.max 0 (Z.min 9 (Qfloor (q / 10)))) with 0%Z by lia. reflexivity.
Qed.

(** X24. A larger fire never gets a smaller icon: the icon size does not
    decrease with the reported acres, and it is one of 30, 40, 50 and
    60. *)
Theorem fireIcon_grows_with_acres (a b : Q) :
  (a <= b)%Q ->
  (fst (fireIcon (JNum (Fin a))) <= fst (fireIcon (JNum (Fin b))))%Z
  /\ In (fst (fireIcon (JNum (Fin a)))) [30; 40; 50; 60]%Z.
Proof.
  intros Hab.
  assert (Hacres : forall q,
             (if truthy (JNum (Fin q)) then ToNumber (JNum (Fin q)) else Fin 0) = Fin q
             \/ ((if truthy (JNum (Fin q)) then ToNumber (JNum (Fin q)) else Fin 0) = Fin 0
                 /\ (q == 0)%Q)).
  { intros q. cbn [truthy ToNumber]. destruct (Qeq_bool q 0) eqn:E; cbn [negb].
    - right. split; [reflexivity | now apply Qeq_bool_iff].
    - now left. }
  assert (Hmono : forall (t : Q) x y,
             (x <= y)%Q -> Qle_bool t x = true -> Qle_bool t y = true).
  { intros t x y Hxy H. apply Qle_bool_iff. apply Qle_bool_iff in H.
    eapply Qle_trans; eassumption. }
  assert (Hz : forall q, (q == 0)%Q -> forall t, Qle_bool t q = Qle_bool t 0).
  { intros q Hq t. destruct (Qle_bool t 0) eqn:E.
    - apply Qle_bool_iff. apply Qle_bool_iff in E. now rewrite Hq.
    - apply not_true_iff_false. intros H. apply Qle_bool_iff in H.
      rewrite Hq in H. apply Qle_bool_iff in H. congruence. }
  assert (Hsize : forall q,
             fst (fireIcon (JNum (Fin q))) =
             (if Qle_bool 10000 q then 60
              else if Qle_bool 1000 q then 50
              else if Qle_bool 100 q then 40 else 30)%Z).
  { intros q. unfold fireIcon.
    destruct (Hacres q) as [->|[-> Hq]]; rewrite !ge_Fin.
    - destruct (Qle_bool 10000 q), (Qle_bool 1000 q), (Qle_bool 100 q); reflexivity.
    - rewrite !(Hz q Hq). reflexivity. }
  rewrite !Hsize. split.
  - destruct (Qle_bool 10000 a) eqn:A1.
    { now rewrite (Hmono _ _ _ Hab A1). }
    destruct (Qle_bool 1000 a) eqn:A2.
    { rewrite (Hmono _ _ _ Hab A2). destruct (Qle_bool 10000 b); lia. }
    destruct (Qle_bool 100 a) eqn:A3.
    { rewrite (Hmono _ _ _ Hab A3).
      destruct (Qle_bool 10000 b), (Qle_bool 1000 b); lia. }
    destruct (Qle_bool 10000 b), (Qle_bool 1000 b), (Qle_bool 100 b); lia.
  - destruct (Qle_bool 10000 a), (Qle_bool 1000 a), (Qle_bool 100 a); simpl; tauto.
Qed.

End Ramp.
End StylesTheory.
(* ================================================================== *)
(** ** The further properties on the examples *)
(* ================================================================== *)

Lemma digits_fuel_nonempty (fuel : nat) :
  forall (n : N) (acc : string), acc <> EmptyString -> digits_fuel fuel n acc <> EmptyString.
Proof.
  induction fuel as [|f IH]; intros n acc H; cbn [digits_fuel]; [exact H|].
  destruct (n <? 10)%N; [discriminate | apply IH; discriminate].
Qed.

Lemma digits_nonempty (n : N) : digits n <> EmptyString.
Proof.
  unfold digits. cbn [digits_fuel].
  destruct (n <? 10)%N; [discriminate | apply digits_fuel_nonempty; discriminate].
Qed.

Lemma toFixed_nonempty `{RT : Runtime} (d : nat) (x : jsnum) :
  (forall q, NumberToString q <> EmptyString) -> toFixed d x <> EmptyString.
Proof.
  intros Hn. destruct x as [| | |q]; try discriminate. unfold toFixed.
  destruct (Qle_bool _ _); [apply Hn|].
  set (n := Z.to_N _).
  set (m := if (String.length (digits n) <=? d)%nat then _ else _).
  assert (Hm : m <> EmptyString).
  { unfold m. destruct (String.length (digits n) <=? d)%nat; [|apply digits_nonempty].
    pose proof (digits_nonempty n) as H. destruct (digits n) as [|c r]; [congruence|].
    apply append_not_empty. }
  destruct (Qltb q 0); [discriminate|].
  destruct d as [|d']; [exact Hm|].
  apply append_not_empty.
Qed.

Lemma example_runtime_prints (q : Q) :
  @NumberToString example_runtime q <> EmptyString.
Proof.
  unfold example_runtime. cbn [NumberToString].
  destruct (Qeq_bool _ _); apply toFixed_nonempty; discriminate.
Qed.

Module OnMoreExamples.
Import Examples MoreExamples.

#[local] Existing Instance runtime.
#[local] Existing Instance turf.

Example landslide_class_from_attributes :
  Landslide.parseLandslideLabelFromIdentify (Some classInAttributes) None
  = Ok (Some "VII").
Proof. vm_compute. reflexivity. Qed.

Example uppercase_key_is_numeric_like :
  Landslide.numericLike "UniqueValue.Pixel Value" = true
  /\ Landslide.numericLike "GRIDCODE" = true
  /\ Landslide.numericLike "Value" = true
  /\ Landslide.numericLike "Raster.Value" = false.
Proof. vm_compute. repeat split. Qed.

Lemma parseLandslideLabel_never_empty_witness :
  (forall q, @NumberToString runtime q <> EmptyString)
  /\ Landslide.parseLandslideLabelFromIdentify (Some classInAttributes) None
     = Ok (Some "VII")
  /\ "VII" <> EmptyString.
Proof.
  assert (H : Landslide.parseLandslideLabelFromIdentify (Some classInAttributes) None
              = Ok (Some "VII")) by (vm_compute; reflexivity).
  split; [exact example_runtime_prints|]. split; [exact H|].
  exact (@LandslideTheory.parseLandslideLabel_never_empty runtime
           (Some classInAttributes) None "VII" example_runtime_prints H).
Defined.

Lemma parseLandslideLabel_value_decides_witness :
  Landslide.present (result_value classAsValue) = true
  /\ Landslide.parseLandslideLabelFromIdentify
       (Some {| pixel := None; raw_value := JUndefined;
                raw_results := Some [Some classAsValue; None] |})
       (Some {| features := None; res_value := JStr "III" |})
     = Ok (Some "VII").
Proof.
  split; [reflexivity|].
  apply (@LandslideTheory.parseLandslideLabel_value_decides runtime
           {| pixel := None; raw_value := JUndefined;
              raw_results := Some [Some classAsValue; None] |}
           classAsValue [None]
           (Some {| features := None; res_value := JStr "III" |})
           ((7 # 1) * inject_Z 1)%Q 7%Z);
    [reflexivity | reflexivity | vm_compute; reflexivity | reflexivity | lia].
Defined.

Example text_attributes_make_the_parser_throw :
  Landslide.parseLandslideLabelFromIdentify (Some attributesAsText) None
  = Raise TypeError.
Proof. vm_compute. reflexivity. Qed.

Lemma decodeDomain_after_buildDomainMaps_witness :
  exists cd,
    Universities.buildDomainMaps
      (Some {| Universities.fields := Some (map Some collegeFields) |}) [] = (cd, None)
    /\ Universities.decodeDomain cd "HLOFFER" (JNum (Fin 9)) = JStr "Doctor's degree"
    /\ Universities.decodeDomain cd "HLOFFER" (JNum (Fin 7)) = JStr "7".
Proof.
  destruct (@UniversitiesTheory.decodeDomain_after_buildDomainMaps runtime
              collegeFields [] hloffer offerDomain [bachelor; doctoral])
    as (cd & Hb & Hc & Hv).
  - intros g d [<-|[<-|[]]]; cbn; [|discriminate].
    intros [= <-] _. now exists [bachelor; doctoral].
  - now left.
  - reflexivity.
  - reflexivity.
  - reflexivity.
  - intros g [<-|[<-|[]]]; [reflexivity|]. vm_compute. discriminate.
  - exists cd. split; [exact Hb|]. split.
    + apply (Hc doctoral); try discriminate; [right; now left|].
      intros c [<-|[<-|[]]]; [vm_compute; discriminate | reflexivity].
    + apply (Hv (JNum (Fin 7))); try discriminate.
      intros c [<-|[<-|[]]]; vm_compute; discriminate.
Defined.

Lemma decodeDomain_without_domain_witness :
  Universities.decodeDomain
    (fst (Universities.buildDomainMaps
            (Some {| Universities.fields := Some (map Some collegeFields) |}) []))
    "INSTSIZE" (JNum (Fin 3)) = JStr "3"
  /\ Universities.decodeDomain (fst (Universities.buildDomainMaps None []))
       "HLOFFER" (JNum (Fin 9)) = JStr "9".
Proof.
  split.
  - apply (@UniversitiesTheory.decodeDomain_without_domain runtime
             (Some {| Universities.fields := Some (map Some collegeFields) |})
             "INSTSIZE" (JNum (Fin 3))); try discriminate.
    intros m fs g dom [= <-] [= <-] [[= <-]|[[= <-]|[]]]; cbn; [|discriminate].
    intros _ _. vm_compute. discriminate.
  - apply (@UniversitiesTheory.decodeDomain_without_domain runtime None
             "HLOFFER" (JNum (Fin 9))); try discriminate.
Defined.

Lemma fetched_markers_are_located_chargers_witness :
  EvChargers.inflight fetching = [someBounds]
  /\ EvChargers.markers
       (EvChargers.settle
          (EvChargers.Data
             (Some (map Some chargers ++ [Some sanFrancisco; Some losAngeles])%list))
          fetching)
     = [losAngeles; sacramento]
  /\ EvChargers.markers
       (EvChargers.settle (EvChargers.Data (Some (map Some chargers))) fetching)
     = [losAngeles; sacramento].
Proof.
  split; [reflexivity|]. split.
  - exact (proj1 (@EvMarkers.fetched_markers_are_located_chargers runtime
                    fetching someBounds []
                    (map Some chargers ++ [Some sanFrancisco; Some losAngeles])%list
                    eq_refl)).
  - apply (proj1 (proj2 (@EvMarkers.fetched_markers_are_located_chargers runtime
                           fetching someBounds [] (map Some chargers) eq_refl))
             chargers eq_refl).
    intros c [<-|[<-|[<-|[<-|[]]]]]; intros H; vm_compute in H |- *;
      solve [reflexivity | discriminate].
Defined.

Lemma pan_during_slow_fetch_is_dropped_witness :
  EvChargers.started
    (EvChargers.fire_due 2000
       (EvChargers.run_events
          [(100%Z, EvChargers.Moveend ((33, -124), (43, -114))%Q);
           (900%Z, EvChargers.Settled EvChargers.Rejected)] fetching))
  = EvChargers.started fetching
  /\ EvChargers.timers
       (EvChargers.fire_due 2000
          (EvChargers.run_events
             [(100%Z, EvChargers.Moveend ((33, -124), (43, -114))%Q);
              (900%Z, EvChargers.Settled EvChargers.Rejected)] fetching)) = [].
Proof.
  destruct (EvMarkers.pan_during_slow_fetch_is_dropped fetching someBounds
              ((33, -124), (43, -114))%Q EvChargers.Rejected 100 900 2000)
    as (Ht & _ & Hslow & _);
    try reflexivity; try (unfold EvChargers.EV_FETCH_DEBOUNCE_MS; lia).
  split; [|exact Ht].
  apply Hslow. unfold EvChargers.EV_FETCH_DEBOUNCE_MS. lia.
Defined.

Lemma no_fetch_while_overlay_is_off_witness :
  EvChargers.hasLayer (EvChargers.init someBounds false) = false
  /\ EvChargers.started
       (EvChargers.run_events
          [(100%Z, EvChargers.Moveend ((33, -124), (43, -114))%Q);
           (900%Z, EvChargers.Moveend ((34, -124), (44, -114))%Q);
           (2000%Z, EvChargers.OverlayRemove)]
          (EvChargers.init someBounds false)) = [].
Proof.
  split; [reflexivity|].
  apply (EvMarkers.no_fetch_while_overlay_is_off
           [(100%Z, EvChargers.Moveend ((33, -124), (43, -114))%Q);
            (900%Z, EvChargers.Moveend ((34, -124), (44, -114))%Q);
            (2000%Z, EvChargers.OverlayRemove)]
           (EvChargers.init someBounds false)); [reflexivity|].
  intros now e [[= <- <-]|[[= <- <-]|[[= <- <-]|[]]]]; discriminate.
Defined.

Lemma nearest_text_shows_helper_text_witness :
  getDistanceToPolygonEdge here (zone "ESRI_SYMBOLOGY" "Zone B" (square 1 1))
  = Ok (JStr "2.00")
  /\ exists d s,
       getDistanceToPolygonEdge here (zone "ESRI_SYMBOLOGY" "Zone B" (square 1 1))
       = Ok (JStr s)
       /\ edgeDistance here (zone "ESRI_SYMBOLOGY" "Zone B" (square 1 1)) = Ok d
       /\ isFinite d = true
       /\ nearestText "Flood Hazard Zone" (JStr "Zone B") d
          = "■ <strong>Nearest " ++ "Flood Hazard Zone" ++ ":</strong> "
            ++ ToString (JStr "Zone B") ++ "<br>📏 Distance: " ++ s ++ " mi".
Proof.
  split; [vm_compute; reflexivity|].
  apply (@nearest_text_shows_helper_text runtime turf here
           (zone "ESRI_SYMBOLOGY" "Zone B" (square 1 1)) (square 1 1)
           [[(1, 1); (1 + 2, 1); (1 + 2, 1 + 2); (1, 1 + 2); (1, 1)]%Q]
           (1, 1)%Q (taxicab (0, 0)%Q (1, 1)%Q)
           "Flood Hazard Zone" (JStr "Zone B"));
    try reflexivity; [now left | discriminate].
Defined.

Lemma fireIcon_grows_with_acres_witness :
  (fst (Styles.fireIcon (JNum (Fin 50))) <= fst (Styles.fireIcon (JNum (Fin 5000))))%Z
  /\ fst (Styles.fireIcon (JNum (Fin 5000))) = 50%Z.
Proof.
  split; [|reflexivity].
  apply (@StylesTheory.fireIcon_grows_with_acres runtime 50 5000). discriminate.
Defined.

Lemma overlapping_clicks_show_the_slower_report_witness :
  exists sched,
    TwoClicks.innerHTML
      (TwoClicks.dom
         (TwoClicks.answers env_inside env_ok sched
            (TwoClicks.clicks here there env_inside [0; 0])))
    = Some (report_html (slot_text here env_inside)).
Proof.
  destruct (@TwoClicksTheory.overlapping_clicks_show_the_slower_report runtime turf
              here there env_inside env_ok [0; 0])
    as [(sched & _ & _ & H) _].
  - vm_compute. reflexivity.
  - vm_compute. reflexivity.
  - vm_compute. reflexivity.
  - vm_compute. reflexivity.
  - vm_compute. lia.
  - exists sched. exact H.
Defined.

Lemma unparsable_landslide_answer_blocks_report_witness :
  err (env_unparsable IdentifyLandslide) = None
  /\ Landslide.parseLandslideLabelFromIdentify
       (raw (env_unparsable IdentifyLandslide)) (fc (env_unparsable IdentifyLandslide))
     = Raise TypeError
  /\ pend (run env_unparsable [6; 5; 4; 3; 2; 1; 0; 0; 0; 0; 0] start) = []
  /\ completed (st (run env_unparsable [6; 5; 4; 3; 2; 1; 0; 0; 0; 0; 0] start)) <= 6
  /\ page (run env_unparsable [6; 5; 4; 3; 2; 1; 0; 0; 0; 0; 0] start) = page0 here true.
Proof.
  assert (Hp : Landslide.parseLandslideLabelFromIdentify
                 (raw (env_unparsable IdentifyLandslide))
                 (fc (env_unparsable IdentifyLandslide)) = Raise TypeError)
    by (vm_compute; reflexivity).
  split; [reflexivity|]. split; [exact Hp|].
  split; [vm_compute; reflexivity|].
  exact (proj2 (proj2 (@unparsable_landslide_answer_blocks_report runtime turf here
                         env_unparsable true [6; 5; 4; 3; 2; 1; 0; 0; 0; 0; 0]
                         TypeError eq_refl Hp))).
Defined.

Lemma calenviro_slot_by_value_type_witness :
  let p := [("ozone", JNum (Fin (47 # 1000))); ("ozoneP", JNum (Fin (613 # 10)));
            ("pm", JNum (Fin (8123 # 1000))); ("drink", JNum (Fin 512));
            ("drinkP", JNull)] in
  err (env_ok (Contains ozoneLayer)) = None
  /\ slot_text here env_ok ozone
     = fmtCalEnviro "ozone" "Ozone (Ground-Level)" (toFixed 3 (Fin (47 # 1000)) ++ " ppm")
         (round_or_unknown (get p "ozoneP")) "<em>(Data from 2017–2019)</em>".
Proof.
  intros p. split; [reflexivity|].
  exact (proj1 (@calenviro_slot_by_value_type runtime turf here env_ok
                  {| features := Some [{| geometry := None; properties := Some p |}];
                     res_value := JUndefined |}
                  {| geometry := None; properties := Some p |} [] p eq_refl eq_refl)
           eq_refl eq_refl).
Defined.

Lemma nearest_searches_print_the_same_text_witness :
  let fs := [zone "ESRI_SYMBOLOGY" "Zone A" (square 3 4); pointFeature;
             zone "ESRI_SYMBOLOGY" "Zone B" (square 1 1);
             zone "ESRI_SYMBOLOGY" "Zone C" (square (-1) (-3))] in
  (forall f, In f fs -> exists d, edgeDistance here f = Ok d /\ d <> NInf)
  /\ (forall f, In f fs -> properties f <> None)
  /\ exists txt,
       closest_text here "Flood Hazard Zone" "ESRI_SYMBOLOGY"
         (env_ok (Nearby floodLayer NEARBY_METERS)) = Ok txt
       /\ value env_ok (nearestByEdgeDistanceAcross here [floodLayer]
                          "Flood Hazard Zone" "ESRI_SYMBOLOGY") = Ok txt.
Proof.
  intros fs.
  assert (Hd : forall f, In f fs -> exists d, edgeDistance here f = Ok d /\ d <> NInf).
  { intros f [<-|[<-|[<-|[<-|[]]]]]; eexists; (split; [vm_compute; reflexivity | discriminate]). }
  assert (Hp : forall f, In f fs -> properties f <> None).
  { intros f [<-|[<-|[<-|[<-|[]]]]]; discriminate. }
  split; [exact Hd|]. split; [exact Hp|].
  destruct (@nearest_searches_print_the_same_text runtime turf here
              "Flood Hazard Zone" "ESRI_SYMBOLOGY" env_ok floodLayer
              {| features := Some fs; res_value := JUndefined |} fs
              eq_refl eq_refl eq_refl Hd Hp) as (txt & H1 & H2 & _).
  exists txt. split; [exact H1 | exact H2].
Defined.

Example fault_name_key :
  FaultPopup.pickBestKey (Some faultProps) FaultPopup.NAME_HINTS = Some "FAULT_NAME"
  /\ FaultPopup.pickBestKey (Some faultProps) FaultPopup.AGE_HINTS = Some "AGE"
  /\ FaultPopup.pickBestKey (Some [("OBJECTID", JNum (Fin 17)); ("X", JStr "abc")])
       FaultPopup.NAME_HINTS = Some "X"
  /\ FaultPopup.pickBestKey (Some [("OBJECTID", JNum (Fin 17))])
       FaultPopup.NAME_HINTS = None.
Proof. vm_compute. repeat split. Qed.

Lemma pickBestKey_value_is_not_blank_witness :
  FaultPopup.pickBestKey (Some faultProps) FaultPopup.NAME_HINTS = Some "FAULT_NAME"
  /\ In "FAULT_NAME" (Landslide.keys faultProps)
  /\ FaultPopup.blank (get faultProps "FAULT_NAME") = false.
Proof.
  assert (H : FaultPopup.pickBestKey (Some faultProps) FaultPopup.NAME_HINTS
              = Some "FAULT_NAME") by (vm_compute; reflexivity).
  split; [exact H|].
  exact (FaultPopupTheory.pickBestKey_value_is_not_blank faultProps
           FaultPopup.NAME_HINTS "FAULT_NAME" H).
Defined.

Lemma pickBestKey_takes_a_highest_score_witness :
  In "FAULT_NAME" (Landslide.keys faultProps)
  /\ FaultPopup.blank (get faultProps "FAULT_NAME") = false
  /\ Qltb (FaultPopup.scoreKey "FAULT_NAME" FaultPopup.NAME_HINTS) 15 = false
  /\ exists k,
       FaultPopup.pickBestKey (Some faultProps) FaultPopup.NAME_HINTS = Some k
       /\ forall k', In k' (Landslide.keys faultProps) ->
                     FaultPopup.blank (get faultProps k') = false ->
                     (FaultPopup.scoreKey k' FaultPopup.NAME_HINTS
                      <= FaultPopup.scoreKey k FaultPopup.NAME_HINTS)%Q.
Proof.
  assert (H1 : In "FAULT_NAME" (Landslide.keys faultProps))
    by (right; right; now left).
  assert (H2 : FaultPopup.blank (get faultProps "FAULT_NAME") = false) by reflexivity.
  assert (H3 : Qltb (FaultPopup.scoreKey "FAULT_NAME" FaultPopup.NAME_HINTS) 15 = false)
    by (vm_compute; reflexivity).
  split; [exact H1|]. split; [exact H2|]. split; [exact H3|].
  destruct (FaultPopupTheory.pickBestKey_takes_a_highest_score faultProps
              FaultPopup.NAME_HINTS "FAULT_NAME" H1 H2 H3) as (k & A & _ & _ & _ & B).
  exists k. split; [exact A | exact B].
Defined.

End OnMoreExamples.
